(** * dcm.filt: filters, filter chains and reversible transforms

    A shallow embedding of [dcm/filt.py].  Capability sets ([LazySet]),
    the hierarchy levels and the record store ([QueryResult]) live in
    modules of the package that are imported by [filt.py]; they are
    modelled here from the design document and kept apart from the
    definitions translated from [filt.py] itself. *)

From stdpp Require Import base functions gmap sets list strings.

Set Default Proof Using "Type*".
#[local] Set Warnings "-clear-no-such-hyp".

(** ** Capability sets *)

(** Modelled from the spec: [LazySet] / [FrozenLazySet] / [AllElems] of
    [dcm.lazyset] (imported by [filt.py]).  A capability set is either an
    explicit finite set of attribute names or "all names", and the
    difference of "all" with a finite set is the complement of that
    finite set; so a value is a finite set that is either listed
    ([Elems]) or excluded from the open-ended universe ([AllExcept]). *)
Inductive LazySet : Type :=
  | Elems (s : gset string)
  | AllExcept (s : gset string).

Definition AllElems : LazySet := AllExcept ∅.

(** [LazySet()] *)
Definition LazySet_empty : LazySet := Elems ∅.

(** [FrozenLazySet(x)]: the frozen variant holds the same elements. *)
Definition FrozenLazySet (s : LazySet) : LazySet := s.

Definition LazySet_contains (x : string) (s : LazySet) : Prop :=
  match s with
  | Elems a => x ∈ a
  | AllExcept a => x ∉ a
  end.

Definition LazySet_union (s t : LazySet) : LazySet :=
  match s, t with
  | Elems a, Elems b => Elems (a ∪ b)
  | Elems a, AllExcept b => AllExcept (b ∖ a)
  | AllExcept a, Elems b => AllExcept (a ∖ b)
  | AllExcept a, AllExcept b => AllExcept (a ∩ b)
  end.

Definition LazySet_inter (s t : LazySet) : LazySet :=
  match s, t with
  | Elems a, Elems b => Elems (a ∩ b)
  | Elems a, AllExcept b => Elems (a ∖ b)
  | AllExcept a, Elems b => Elems (b ∖ a)
  | AllExcept a, AllExcept b => AllExcept (a ∪ b)
  end.

Definition LazySet_diff (s t : LazySet) : LazySet :=
  match s, t with
  | Elems a, Elems b => Elems (a ∖ b)
  | Elems a, AllExcept b => Elems (a ∩ b)
  | AllExcept a, Elems b => AllExcept (a ∪ b)
  | AllExcept a, AllExcept b => Elems (b ∖ a)
  end.

(** Truth value of a set in a condition ([if s:], [not s]): non-empty.
    The universe of attribute names is open-ended, so a set that
    excludes finitely many names is never empty. *)
Definition LazySet_bool (s : LazySet) : bool :=
  match s with
  | Elems a => bool_decide (a ≠ ∅)
  | AllExcept _ => true
  end.

#[global] Instance LazySet_elem_of : ElemOf string LazySet := LazySet_contains.
#[global] Instance LazySet_empty_inst : Empty LazySet := LazySet_empty.
#[global] Instance LazySet_top_inst : Top LazySet := AllElems.
#[global] Instance LazySet_singleton : Singleton string LazySet :=
  fun x => Elems {[ x ]}.
#[global] Instance LazySet_union_inst : Union LazySet := LazySet_union.
#[global] Instance LazySet_inter_inst : Intersection LazySet := LazySet_inter.
#[global] Instance LazySet_diff_inst : Difference LazySet := LazySet_diff.

#[global] Instance LazySet_elem_of_dec (x : string) (s : LazySet) :
  Decision (x ∈ s).
Proof. destruct s; unfold elem_of, LazySet_elem_of; simpl; apply _. Defined.

#[global] Instance LazySet_eq_dec : EqDecision LazySet.
Proof. solve_decision. Defined.

(** Union of a sequence of sets, accumulated left to right from
    [LazySet()] as the loops of [filt.py] do with [|=]. *)
Definition LazySet_unions (l : list LazySet) : LazySet :=
  foldl (fun acc s => acc ∪ s) (∅ : LazySet) l.

(** ** Hierarchy levels *)

(** Modelled from the spec: [QueryLevel] of [dcm.query], "the
    hierarchy depth the collection is materialized at
    (Patient/Study/Series/Instance)", an integer enumeration whose
    order is the depth. *)
Inductive QueryLevel : Type := PATIENT | STUDY | SERIES | IMAGE.

Definition QueryLevel_value (l : QueryLevel) : Z :=
  match l with
  | PATIENT => 0
  | STUDY => 1
  | SERIES => 2
  | IMAGE => 3
  end%Z.

#[global] Instance QueryLevel_eq_dec : EqDecision QueryLevel.
Proof. solve_decision. Defined.

(** [a > b] on levels: [a] is deeper, that is finer, than [b]. *)
Definition QueryLevel_gt (a b : QueryLevel) : bool :=
  bool_decide (QueryLevel_value b < QueryLevel_value a)%Z.

Definition finer (a b : QueryLevel) : Prop :=
  (QueryLevel_value b < QueryLevel_value a)%Z.
Definition coarser (a b : QueryLevel) : Prop :=
  (QueryLevel_value a < QueryLevel_value b)%Z.

(** Modelled from the spec: [uid_elems] of [dcm.query], the "mapping
    from hierarchy level to the name of that level's identifier-valued
    attribute", listed in the order of the enumeration, from the
    patient level to the image level. *)
Definition uid_elems : list (QueryLevel * string) :=
  [ (PATIENT, "PatientID"); (STUDY, "StudyInstanceUID");
    (SERIES, "SeriesInstanceUID"); (IMAGE, "SOPInstanceUID") ].

(** [uid_elem_set = FrozenLazySet(uid_elems.values())] *)
Definition uid_elem_set : LazySet :=
  FrozenLazySet (Elems (list_to_set (uid_elems.*2))).

(** ** Filters *)

(** [_BaseFilter]: the declared capability sets shared by single
    filters and chains. *)
Record _BaseFilter : Type := Build_BaseFilter {
  read_elems : LazySet;
  write_elems : LazySet;
  invertible_elems : LazySet;
}.

(** property [uninvertible_elems] *)
Definition uninvertible_elems (self : _BaseFilter) : LazySet :=
  write_elems self ∖ invertible_elems self.

(** property [invertible_uids] *)
Definition invertible_uids (self : _BaseFilter) : LazySet :=
  uid_elem_set ∖ uninvertible_elems self.

Section Filters.
Context {Dataset : Type}.

(** [Filter(_BaseFilter, _SingleFilter)] *)
Record Filter : Type := Build_Filter {
  func : Dataset -> option Dataset;
  Filter_base :> _BaseFilter;
}.

(** Construction of a [Filter]: the dataclass [__init__] with its
    field defaults ([None] stands for an omitted keyword argument),
    followed by [Filter.__post_init__]. *)
Definition Filter_init (func : Dataset -> option Dataset)
    (read_elems write_elems invertible_elems : option LazySet) : Filter :=
  let read_elems := default (FrozenLazySet AllElems) read_elems in
  let write_elems := default (FrozenLazySet AllElems) write_elems in
  let invertible_elems := default (FrozenLazySet ∅) invertible_elems in
  let write_elems :=
    if LazySet_bool invertible_elems
    then write_elems ∪ invertible_elems
    else write_elems in
  {| func := func;
     Filter_base :=
       {| read_elems := FrozenLazySet read_elems;
          write_elems := FrozenLazySet write_elems;
          invertible_elems := FrozenLazySet invertible_elems |} |}.

(** [Filter.__call__] *)
Definition Filter_call (self : Filter) (data_set : Dataset) : option Dataset :=
  func self data_set.

(** [Filter.get_dependencies] *)
Definition Filter_get_dependencies (self : Filter) (elems : LazySet)
  : list (Dataset -> option Dataset) * LazySet :=
  ([func self], read_elems self).

(** [MultiFilter(_BaseFilter, _MultiFilter)] *)
Record MultiFilter : Type := Build_MultiFilter {
  filters : list Filter;
  MultiFilter_base :> _BaseFilter;
}.

(** One iteration of the loop of [MultiFilter.__post_init__] over the
    four accumulators (read, write, invertible, uninvertible). *)
Definition post_init_step
    (acc : LazySet * LazySet * LazySet * LazySet) (filt : Filter)
  : LazySet * LazySet * LazySet * LazySet :=
  let '(read_elems_, write_elems_, invertible_elems_, uninvertible) := acc in
  (read_elems_ ∪ read_elems filt,
   write_elems_ ∪ write_elems filt,
   invertible_elems_ ∪ invertible_elems filt,
   uninvertible ∪ (write_elems filt ∖ invertible_elems filt)).

(** Construction of a [MultiFilter] from its members:
    [MultiFilter.__post_init__] overwrites the three declared sets. *)
Definition MultiFilter_init (filters : list Filter) : MultiFilter :=
  let '(read_elems_, write_elems_, invertible_elems_, uninvertible) :=
    foldl post_init_step
      (LazySet_empty, LazySet_empty, LazySet_empty, LazySet_empty) filters in
  let invertible_elems_ := invertible_elems_ ∖ uninvertible in
  {| filters := filters;
     MultiFilter_base :=
       {| read_elems := FrozenLazySet read_elems_;
          write_elems := FrozenLazySet write_elems_;
          invertible_elems := FrozenLazySet invertible_elems_ |} |}.

(** One iteration of the loop of [MultiFilter.get_dependencies]. *)
Definition dependencies_step (elems : LazySet)
    (acc : list (Dataset -> option Dataset) * LazySet) (filt : Filter)
  : list (Dataset -> option Dataset) * LazySet :=
  let '(funcs, dep_elems) := acc in
  if LazySet_bool (dep_elems ∩ write_elems filt)
     || LazySet_bool (elems ∩ write_elems filt)
  then (funcs ++ [func filt], dep_elems ∪ read_elems filt)
  else (funcs, dep_elems).

(** [MultiFilter.get_dependencies] *)
Definition MultiFilter_get_dependencies (self : MultiFilter) (elems : LazySet)
  : list (Dataset -> option Dataset) * LazySet :=
  let '(funcs, dep_elems) :=
    foldl (dependencies_step elems) ([], LazySet_empty) (filters self) in
  (funcs, FrozenLazySet dep_elems).

(** [MultiFilter.__call__]: run the members left to right, stopping
    at the first one that drops the data set. *)
Fixpoint MultiFilter_run (fs : list Filter) (data_set : Dataset)
  : option Dataset :=
  match fs with
  | [] => Some data_set
  | filt :: fs' =>
      match Filter_call filt data_set with
      | None => None
      | Some data_set' => MultiFilter_run fs' data_set'
      end
  end.

Definition MultiFilter_call (self : MultiFilter) (data_set : Dataset)
  : option Dataset :=
  MultiFilter_run (filters self) data_set.

(** A value of static type [_BaseFilter] handed to a transform is a
    [Filter] or a [MultiFilter]. *)
Inductive AnyFilter : Type :=
  | AFilter (f : Filter)
  | AMultiFilter (m : MultiFilter).

Definition AnyFilter_base (filt : AnyFilter) : _BaseFilter :=
  match filt with
  | AFilter f => f
  | AMultiFilter m => m
  end.

Definition AnyFilter_call (filt : AnyFilter) (data_set : Dataset)
  : option Dataset :=
  match filt with
  | AFilter f => Filter_call f data_set
  | AMultiFilter m => MultiFilter_call m data_set
  end.

(** The selection rule of dependency pruning, as the design states
    it: scanning the chain in declared order, a filter is selected
    iff its write set meets the requested set or meets the union of
    the read sets of the filters selected before it.
    [Selected requested chain sel] holds when [sel] is the selection
    made over [chain]. *)
Inductive Selected (requested : LazySet) : list Filter -> list Filter -> Prop :=
  | Selected_nil : Selected requested [] []
  | Selected_take (chain sel : list Filter) (f : Filter) :
      Selected requested chain sel ->
      (exists x, x ∈ write_elems f /\
         (x ∈ requested \/ exists g : Filter, g ∈ sel /\ x ∈ read_elems g)) ->
      Selected requested (chain ++ [f]) (sel ++ [f])
  | Selected_skip (chain sel : list Filter) (f : Filter) :
      Selected requested chain sel ->
      ~ (exists x, x ∈ write_elems f /\
         (x ∈ requested \/ exists g : Filter, g ∈ sel /\ x ∈ read_elems g)) ->
      Selected requested (chain ++ [f]) sel.

End Filters.

Arguments Filter : clear implicits.
Arguments MultiFilter : clear implicits.
Arguments AnyFilter : clear implicits.

(** ** Exceptions *)

Inductive error : Type :=
  | InconsistentDataError
  | DuplicateDataError
  | QueryLevelMismatchError
  | KeyError
  | AssertionError
  | IndexError
  | UnboundLocalError.

#[global] Instance error_eq_dec : EqDecision error.
Proof. solve_decision. Defined.

(** The outcome of a call that returns or raises. *)
Inductive result (A : Type) : Type :=
  | Ok (a : A)
  | Raise (e : error).
Arguments Ok {A} a.
Arguments Raise {A} e.

(** ** The record store *)

(** [DataNode(level, uid)] *)
Record DataNode : Type := Build_DataNode {
  node_level : QueryLevel;
  node_uid : string;
}.

(** Modelled from the spec: [QueryResult] and [get_uid] of [dcm.query],
    the hierarchical record collection the engine consumes "interfaces
    only": membership test, [add], [remove], iteration, [sub_query],
    in-place union and [level].  Membership and [add] "raise a
    distinguished inconsistent condition when a record cannot be
    reconciled with existing hierarchy membership"; a call that raises
    leaves the collection as it was. *)
Class QueryResultOps (Dataset QueryResult : Type) : Type := {
  (** [QueryResult(level)]: the empty collection at a level *)
  QueryResult_init : QueryLevel -> QueryResult;
  (** [qr.level] *)
  level : QueryResult -> QueryLevel;
  (** [ds in qr] *)
  QueryResult_contains : Dataset -> QueryResult -> result bool;
  (** [qr.add(ds)] *)
  QueryResult_add : QueryResult -> Dataset -> result QueryResult;
  (** [qr.remove(ds)] *)
  QueryResult_remove : QueryResult -> Dataset -> result QueryResult;
  (** [for ds in qr] *)
  QueryResult_iter : QueryResult -> list Dataset;
  (** [qr.sub_query(node, max_level=lvl)] *)
  sub_query : QueryResult -> DataNode -> QueryLevel -> result QueryResult;
  (** [res |= other] *)
  QueryResult_ior : QueryResult -> QueryResult -> result QueryResult;
  (** [get_uid(level, ds)] *)
  get_uid : QueryLevel -> Dataset -> string;
}.

(** The contract of the record store that the rollback of [add] relies
    on: a record that is a member can be removed, a record just added
    is a member, and a removed record is no longer a member. *)
Class QueryResultLaws (Dataset QueryResult : Type)
    `{!QueryResultOps Dataset QueryResult} : Prop := {
  remove_member q ds :
    QueryResult_contains ds q = Ok true ->
    exists q', QueryResult_remove q ds = Ok q';
  add_member q ds q' :
    QueryResult_add q ds = Ok q' -> QueryResult_contains ds q' = Ok true;
  remove_not_member q ds q' :
    QueryResult_remove q ds = Ok q' -> QueryResult_contains ds q' <> Ok true;
}.

(** The identifiers, at the collection's own level, of the records a
    collection holds. *)
Definition uids_of `{QueryResultOps Dataset QueryResult} (q : QueryResult)
  : list string :=
  get_uid (level q) <$> QueryResult_iter q.

(** The contract of the record store about levels and identifiers:
    adding or removing a record keeps the level, a record reported as
    not a member has an identifier no held record has, and adding a
    record keeps the identifiers already held and holds the record's
    own. *)
Class QueryResultUidLaws (Dataset QueryResult : Type)
    `{!QueryResultOps Dataset QueryResult} : Prop := {
  level_init l : level (QueryResult_init l) = l;
  level_add q ds q' : QueryResult_add q ds = Ok q' -> level q' = level q;
  level_remove q ds q' : QueryResult_remove q ds = Ok q' -> level q' = level q;
  not_member_fresh q ds :
    QueryResult_contains ds q = Ok false -> get_uid (level q) ds ∉ uids_of q;
  add_keeps_uids q ds q' u :
    QueryResult_add q ds = Ok q' -> u ∈ uids_of q -> u ∈ uids_of q';
  add_has_uid q ds q' :
    QueryResult_add q ds = Ok q' -> get_uid (level q) ds ∈ uids_of q';
}.

(** ** Transforms *)

Section Transforms.
Context {Dataset QueryResult : Type} `{!QueryResultOps Dataset QueryResult}.

(** [DataCollection] *)
Record DataCollection : Type := Build_DataCollection {
  qr : QueryResult;
  inconsistent : list Dataset;
  duplicate : list Dataset;
}.

(** [DataCollection(qr)]: the two lists default to empty lists. *)
Definition DataCollection_init (qr : QueryResult)
    (inconsistent duplicate : option (list Dataset)) : DataCollection :=
  {| qr := qr;
     inconsistent := default [] inconsistent;
     duplicate := default [] duplicate |}.

(** [DummyTransform]: [old] and [new] are one and the same object, so
    a single field stands for both. *)
Record DummyTransform : Type := Build_DummyTransform {
  dummy_qr : QueryResult;
}.

Definition DummyTransform_old (self : DummyTransform) : QueryResult := dummy_qr self.
Definition DummyTransform_new (self : DummyTransform) : QueryResult := dummy_qr self.

(** [DummyTransform.__init__] *)
Definition DummyTransform_init (qr : QueryResult) : DummyTransform :=
  {| dummy_qr := qr |}.

(** [DummyTransform.add], called with [old_ds is new_ds]. *)
Definition DummyTransform_add (self : DummyTransform) (old_ds : Dataset)
  : DummyTransform * result unit :=
  match QueryResult_contains old_ds (dummy_qr self) with
  | Raise e => (self, Raise e)
  | Ok true => (self, Raise DuplicateDataError)
  | Ok false =>
      match QueryResult_add (dummy_qr self) old_ds with
      | Raise e => (self, Raise e)
      | Ok q => ({| dummy_qr := q |}, Ok tt)
      end
  end.

(** [DummyTransform.reverse] *)
Definition DummyTransform_reverse (self : DummyTransform) (new_qr : QueryResult)
  : DataCollection :=
  DataCollection_init new_qr None None.

(** [FilterTransform]: the state of a filter-driven engine. *)
Record FilterTransform : Type := Build_FilterTransform {
  old : QueryResult;
  new : QueryResult;
  _new_to_old : QueryLevel -> gmap string string;
  fixed_inconsistent : gmap string Dataset;
  fixed_duplicates : gmap string Dataset;
  fully_invertible : LazySet;
}.

Definition set_old (self : FilterTransform) (q : QueryResult) : FilterTransform :=
  {| old := q; new := new self; _new_to_old := _new_to_old self;
     fixed_inconsistent := fixed_inconsistent self;
     fixed_duplicates := fixed_duplicates self;
     fully_invertible := fully_invertible self |}.

Definition set_new (self : FilterTransform) (q : QueryResult)
    (m : QueryLevel -> gmap string string) : FilterTransform :=
  {| old := old self; new := q; _new_to_old := m;
     fixed_inconsistent := fixed_inconsistent self;
     fixed_duplicates := fixed_duplicates self;
     fully_invertible := fully_invertible self |}.

Definition set_fixed_inconsistent (self : FilterTransform)
    (m : gmap string Dataset) : FilterTransform :=
  {| old := old self; new := new self; _new_to_old := _new_to_old self;
     fixed_inconsistent := m;
     fixed_duplicates := fixed_duplicates self;
     fully_invertible := fully_invertible self |}.

Definition set_fixed_duplicates (self : FilterTransform)
    (m : gmap string Dataset) : FilterTransform :=
  {| old := old self; new := new self; _new_to_old := _new_to_old self;
     fixed_inconsistent := fixed_inconsistent self;
     fixed_duplicates := m;
     fully_invertible := fully_invertible self |}.

(** The loop of [_add_new] over [uid_elems.items()]: record the
    new-to-old identifier at each level, stopping after the level of
    [old].  [new_uid] is the loop variable that survives the loop
    ([None] while it is unbound). *)
Fixpoint _add_new_loop (old_level : QueryLevel) (old_ds new_ds : Dataset)
    (items : list (QueryLevel * string))
    (m : QueryLevel -> gmap string string) (new_uid : option string)
  : (QueryLevel -> gmap string string) * option string :=
  match items with
  | [] => (m, new_uid)
  | (lvl, uid_attr) :: items' =>
      let new_uid := get_uid lvl new_ds in
      let old_uid := get_uid lvl old_ds in
      let m := <[lvl := <[new_uid := old_uid]> (m lvl)]> m in
      if decide (lvl = old_level) then (m, Some new_uid)
      else _add_new_loop old_level old_ds new_ds items' m (Some new_uid)
  end.

(** [FilterTransform._add_new]: [Ok None] when the new record is a
    duplicate, [Ok (Some new_uid)] when it was added. *)
Definition _add_new (self : FilterTransform) (old_ds new_ds : Dataset)
  : FilterTransform * result (option string) :=
  match QueryResult_contains new_ds (new self) with
  | Raise e => (self, Raise e)
  | Ok true => (self, Ok None)
  | Ok false =>
      match QueryResult_add (new self) new_ds with
      | Raise e => (self, Raise e)
      | Ok q =>
          let '(m, new_uid) :=
            _add_new_loop (level (old self)) old_ds new_ds uid_elems
              (_new_to_old self) None in
          match new_uid with
          | None => (set_new self q m, Raise UnboundLocalError)
          | Some new_uid => (set_new self q m, Ok (Some new_uid))
          end
      end
  end.

Definition warn_inconsistent : string := "Filter made data inconsistent".
Definition warn_duplicate : string := "Filter made data into a duplicate".

(** The loop of [FilterTransform.__init__] over the records of the
    source; the second component is the warnings logged so far. *)
Fixpoint FilterTransform_init_loop (filt : AnyFilter Dataset)
    (records : list Dataset) (self : FilterTransform)
  : list string * result FilterTransform :=
  match records with
  | [] => ([], Ok self)
  | old_ds :: records' =>
      match AnyFilter_call filt old_ds with
      | None => FilterTransform_init_loop filt records' self
      | Some new_ds =>
          match _add_new self old_ds new_ds with
          | (_, Raise InconsistentDataError) =>
              ([warn_inconsistent], Raise InconsistentDataError)
          | (_, Raise e) => ([], Raise e)
          | (_, Ok None) => ([warn_duplicate], Raise DuplicateDataError)
          | (self', Ok (Some _)) =>
              FilterTransform_init_loop filt records' self'
          end
      end
  end.

(** The attribute assignments at the head of
    [FilterTransform.__init__]: the engine before any record is
    filtered. *)
Definition FilterTransform_fresh (qr : QueryResult) (filt : AnyFilter Dataset)
  : FilterTransform :=
  {| old := qr;
     new := QueryResult_init (level qr);
     _new_to_old := fun _ => ∅;
     fixed_inconsistent := ∅;
     fixed_duplicates := ∅;
     fully_invertible := invertible_uids (AnyFilter_base filt) |}.

(** [FilterTransform.__init__] *)
Definition FilterTransform_init (qr : QueryResult) (filt : AnyFilter Dataset)
  : list string * result FilterTransform :=
  FilterTransform_init_loop filt (QueryResult_iter qr)
    (FilterTransform_fresh qr filt).

(** First statement group of [FilterTransform.add]: the
    [try] / [except InconsistentDataError] / [else] around
    [old_ds in self.old].  Returns the engine together with the flags
    [(old_inconsistent, old_dupe)]; an exception raised by
    [self.old.add] in the [else] branch is not handled. *)
Definition add_old (self : FilterTransform) (old_ds : Dataset)
  : result (FilterTransform * bool * bool) :=
  match QueryResult_contains old_ds (old self) with
  | Raise InconsistentDataError => Ok (self, true, false)
  | Raise e => Raise e
  | Ok old_dupe =>
      if negb old_dupe then
        match QueryResult_add (old self) old_ds with
        | Raise e => Raise e
        | Ok q => Ok (set_old self q, false, old_dupe)
        end
      else Ok (self, false, old_dupe)
  end.

(** [log.warning(msg); self.old.remove(old_ds); raise e]: the
    compensation of a failed merge.  When [remove] itself raises,
    that exception replaces [e]. *)
Definition rollback_and_raise (self : FilterTransform) (old_ds : Dataset)
    (msg : string) (e : error)
  : FilterTransform * list string * result unit :=
  match QueryResult_remove (old self) old_ds with
  | Ok q => (set_old self q, [msg], Raise e)
  | Raise e' => (self, [msg], Raise e')
  end.

(** Second statement group of [FilterTransform.add]: the merge of
    [new_ds], given the flags computed by the first group. *)
Definition add_new (self : FilterTransform) (old_ds : Dataset)
    (new_ds : option Dataset) (old_inconsistent old_dupe : bool)
  : FilterTransform * list string * result unit :=
  match new_ds with
  | None => (self, [], Ok tt)
  | Some new_ds =>
      match _add_new self old_ds new_ds with
      | (self, Raise InconsistentDataError) =>
          if negb old_inconsistent
          then rollback_and_raise self old_ds warn_inconsistent
                 InconsistentDataError
          else (self, [], Raise InconsistentDataError)
      | (self, Raise e) => (self, [], Raise e)
      | (self, Ok None) =>
          if negb old_dupe
          then rollback_and_raise self old_ds warn_duplicate
                 DuplicateDataError
          else (self, [], Raise DuplicateDataError)
      | (self, Ok (Some new_uid)) =>
          if old_inconsistent then
            (set_fixed_inconsistent self
               (<[new_uid := old_ds]> (fixed_inconsistent self)), [], Ok tt)
          else if old_dupe then
            (set_fixed_duplicates self
               (<[new_uid := old_ds]> (fixed_duplicates self)), [], Ok tt)
          else (self, [], Ok tt)
      end
  end.

(** [FilterTransform.add]: the engine after the call, the warnings
    logged, and the outcome. *)
Definition add (self : FilterTransform) (old_ds : Dataset)
    (new_ds : option Dataset)
  : FilterTransform * list string * result unit :=
  match add_old self old_ds with
  | Raise e => (self, [], Raise e)
  | Ok (self', old_inconsistent, old_dupe) =>
      add_new self' old_ds new_ds old_inconsistent old_dupe
  end.

(** The level test at the head of [FilterTransform.reverse]: [true]
    when [QueryLevelMismatchError] is raised. *)
Definition reverse_level_mismatch (self : FilterTransform)
    (new_qr : QueryResult) : bool :=
  bool_decide (level new_qr <> level (new self))
  && (QueryLevel_gt (level new_qr) (level (new self))
      || negb (LazySet_bool (fully_invertible self))).

(** One iteration of the loop of [FilterTransform.reverse] over the
    accumulators [(res, inconsist, dupes)]. *)
Definition reverse_step (self : FilterTransform) (new_qr : QueryResult)
    (acc : QueryResult * list Dataset * list Dataset) (ds : Dataset)
  : result (QueryResult * list Dataset * list Dataset) :=
  let '(res, inconsist, dupes) := acc in
  let fetch (old_uid : string) :=
    let old_node := Build_DataNode (level new_qr) old_uid in
    match sub_query (old self) old_node (level new_qr) with
    | Raise e => Raise e
    | Ok sub =>
        match QueryResult_ior res sub with
        | Raise e => Raise e
        | Ok res' => Ok (res', inconsist, dupes)
        end
    end in
  match QueryResult_contains ds (new self) with
  | Raise e => Raise e
  | Ok false => Raise AssertionError
  | Ok true =>
      let new_uid := get_uid (level new_qr) ds in
      match _new_to_old self (level new_qr) !! new_uid with
      | None => Raise KeyError
      | Some old_uid =>
          if decide (level new_qr = level (new self)) then
            match fixed_duplicates self !! new_uid with
            | Some old_dupe => Ok (res, inconsist, dupes ++ [old_dupe])
            | None =>
                match fixed_inconsistent self !! new_uid with
                | Some old_inconsist =>
                    Ok (res, inconsist ++ [old_inconsist], dupes)
                | None => fetch old_uid
                end
            end
          else fetch old_uid
      end
  end.

(** The per-record inversion loop of [FilterTransform.reverse]. *)
Fixpoint reverse_loop (self : FilterTransform) (new_qr : QueryResult)
    (records : list Dataset)
    (acc : QueryResult * list Dataset * list Dataset)
  : result (QueryResult * list Dataset * list Dataset) :=
  match records with
  | [] => Ok acc
  | ds :: records' =>
      match reverse_step self new_qr acc ds with
      | Raise e => Raise e
      | Ok acc' => reverse_loop self new_qr records' acc'
      end
  end.

(** The part of [FilterTransform.reverse] after the level test. *)
Definition reverse_records (self : FilterTransform) (new_qr : QueryResult)
  : result DataCollection :=
  match reverse_loop self new_qr (QueryResult_iter new_qr)
          (QueryResult_init (level new_qr), [], []) with
  | Raise e => Raise e
  | Ok (res, inconsist, dupes) =>
      Ok (DataCollection_init res (Some inconsist) (Some dupes))
  end.

(** [FilterTransform.reverse] *)
Definition reverse (self : FilterTransform) (new_qr : QueryResult)
  : result DataCollection :=
  if reverse_level_mismatch self new_qr
  then Raise QueryLevelMismatchError
  else reverse_records self new_qr.

(** [DataTransform]: the two concrete engines. *)
Inductive DataTransform : Type :=
  | Dummy (t : DummyTransform)
  | Filtered (t : FilterTransform).

(** [get_transform] *)
Definition get_transform (qr : QueryResult) (filt : option (AnyFilter Dataset))
  : list string * result DataTransform :=
  match filt with
  | None => ([], Ok (Dummy (DummyTransform_init qr)))
  | Some filt =>
      match FilterTransform_init qr filt with
      | (msgs, Ok t) => (msgs, Ok (Filtered t))
      | (msgs, Raise e) => (msgs, Raise e)
      end
  end.

(** The engine after a sequence of further [add] calls, each given as
    the pair of its arguments, whatever their outcomes. *)
Definition adds (self : FilterTransform)
    (calls : list (Dataset * option Dataset)) : FilterTransform :=
  foldl (fun self call => (add self call.1 call.2).1.1) self calls.

(** The engine's [old] and [new] are at the same level, and every
    identifier that keys one of the two ledgers of fixed records is the
    identifier of a record held by [new]. *)
Definition ledgers_in_new (self : FilterTransform) : Prop :=
  level (new self) = level (old self) /\
  forall u,
    is_Some (fixed_duplicates self !! u) \/ is_Some (fixed_inconsistent self !! u) ->
    u ∈ uids_of (new self).

End Transforms.

Arguments DataCollection : clear implicits.
Arguments DummyTransform : clear implicits.
Arguments FilterTransform : clear implicits.
Arguments DataTransform : clear implicits.

(** ** Editing filters *)

(** The value of a data element: one value, or several when the value
    multiplicity exceeds one. *)
Inductive ElemValue : Type :=
  | Single (v : string)
  | Multi (vs : list string).

(** The fields of pydicom's [DataElement] that [update_uids_cb] uses. *)
Record DataElement : Type := Build_DataElement {
  keyword : string;
  VR : string;
  value : ElemValue;
}.

Definition VM (elem : DataElement) : nat :=
  match value elem with
  | Single _ => 1
  | Multi vs => length vs
  end.

Definition set_value (elem : DataElement) (v : ElemValue) : DataElement :=
  {| keyword := keyword elem; VR := VR elem; value := v |}.

(** What [edit_func] asks of pydicom, which is outside the package:
    attribute access on a [Dataset], [Dataset.walk] with a callback
    that updates elements in place, the assignment
    [ds.file_meta.MediaStorageSOPInstanceUID = ds.SOPInstanceUID], and
    [pydicom.uid.generate_uid(prefix, entropy_srcs)]. *)
Class PydicomOps (Dataset Value : Type) : Type := {
  generate_uid : string -> list ElemValue -> string;
  Dataset_hasattr : Dataset -> string -> bool;
  Dataset_delattr : Dataset -> string -> Dataset;
  Dataset_setattr : Dataset -> string -> Value -> Dataset;
  Dataset_walk : (DataElement -> DataElement) -> Dataset -> Dataset;
  Dataset_set_media_storage_uid : Dataset -> Dataset;
}.

(** [s[-1]]: the last character, as a string of length one; [None]
    when the index is out of range. *)
Fixpoint String_last (s : string) : option string :=
  match s with
  | EmptyString => None
  | String c EmptyString => Some (String c EmptyString)
  | String _ s' => String_last s'
  end.

Section EditFilter.
Context {Dataset Value : Type} `{!PydicomOps Dataset Value}.

(** [update_uids_cb], the closure returned by [make_uid_update_cb]:
    the element after the in-place update. *)
Definition update_uids_cb (uid_prefix : string)
    (add_uid_entropy : list ElemValue) (elem : DataElement) : DataElement :=
  if bool_decide (VR elem = "UI") && bool_decide (keyword elem <> "SOPClassUID")
  then
    if bool_decide (1 < VM elem) then
      match value elem with
      | Multi vs =>
          set_value elem
            (Multi ((fun x => generate_uid uid_prefix (Single x :: add_uid_entropy))
                      <$> vs))
      | Single _ => elem
      end
    else
      set_value elem
        (Single (generate_uid uid_prefix (value elem :: add_uid_entropy)))
  else elem.

(** [make_uid_update_cb]; [uid_prefix[-1]] raises on an empty prefix. *)
Definition make_uid_update_cb (uid_prefix : string)
    (add_uid_entropy : option (list ElemValue))
  : result (DataElement -> DataElement) :=
  let add_uid_entropy := default [] add_uid_entropy in
  match String_last uid_prefix with
  | None => Raise IndexError
  | Some c =>
      let uid_prefix :=
        if bool_decide (c <> ".") then uid_prefix +:+ "." else uid_prefix in
      Ok (update_uids_cb uid_prefix add_uid_entropy)
  end.

(** [edit_func], the closure of [make_edit_filter]. *)
Definition edit_func (edit_dict : list (string * option Value))
    (update_uids : bool) (update_uids_cb : DataElement -> DataElement)
    (ds : Dataset) : option Dataset :=
  let ds :=
    foldl (fun ds '(attr_name, val) =>
             match val with
             | None =>
                 if Dataset_hasattr ds attr_name
                 then Dataset_delattr ds attr_name else ds
             | Some v =>
                 if Dataset_hasattr ds attr_name
                 then Dataset_setattr ds attr_name v else ds
             end) ds edit_dict in
  let ds :=
    if update_uids then
      let ds := Dataset_walk update_uids_cb ds in
      if Dataset_hasattr ds "file_meta"
      then Dataset_set_media_storage_uid ds else ds
    else ds in
  Some ds.

(** [make_edit_filter]; [edit_dict] is the dictionary as the list of
    its items. *)
Definition make_edit_filter (edit_dict : list (string * option Value))
    (update_uids : bool) (uid_prefix : string)
    (add_uid_entropy : option (list ElemValue))
  : result (Filter Dataset) :=
  match make_uid_update_cb uid_prefix add_uid_entropy with
  | Raise e => Raise e
  | Ok update_uids_cb =>
      let write_elems :=
        if bool_decide (update_uids = false)
        then FrozenLazySet (Elems (list_to_set (edit_dict.*1)))
        else FrozenLazySet AllElems in
      let edit_filter :=
        Filter_init (edit_func edit_dict update_uids update_uids_cb)
          None (Some write_elems) None in
      Ok edit_filter
  end.

End EditFilter.

(** ** A concrete record store

    A small instance of the store interface, used to run the engine on
    explicit data: a data set is the list of its elements, each a
    keyword with its value, and a collection is a level with the list
    of data sets it holds.  A data set is a member when a held data set
    has the same identifiers from the patient down to the collection's
    level; it is inconsistent with the collection when it shares an
    identifier with a held data set below different ancestors. *)
Module Store.

Definition Dataset : Type := list (string * string).

(** [getattr(ds, kw, None)] *)
Fixpoint getattr (ds : Dataset) (kw : string) : option string :=
  match ds with
  | [] => None
  | (k, v) :: ds' => if bool_decide (k = kw) then Some v else getattr ds' kw
  end.

Definition hasattr (ds : Dataset) (kw : string) : bool :=
  bool_decide (is_Some (getattr ds kw)).

Definition delattr (ds : Dataset) (kw : string) : Dataset :=
  List.filter (fun e => negb (bool_decide (e.1 = kw))) ds.

Definition setattr (ds : Dataset) (kw v : string) : Dataset :=
  if hasattr ds kw
  then (fun e => if bool_decide (e.1 = kw) then (kw, v) else e) <$> ds
  else ds ++ [(kw, v)].

Record QueryResult : Type := Build_QueryResult {
  qr_level : QueryLevel;
  qr_items : list Dataset;
}.

Definition uid_attr (lvl : QueryLevel) : string :=
  match lvl with
  | PATIENT => "PatientID"
  | STUDY => "StudyInstanceUID"
  | SERIES => "SeriesInstanceUID"
  | IMAGE => "SOPInstanceUID"
  end.

Definition uid_at (lvl : QueryLevel) (ds : Dataset) : string :=
  default "" (getattr ds (uid_attr lvl)).

(** The levels from the patient down to [lvl]. *)
Definition levels_to (lvl : QueryLevel) : list QueryLevel :=
  match lvl with
  | PATIENT => [PATIENT]
  | STUDY => [PATIENT; STUDY]
  | SERIES => [PATIENT; STUDY; SERIES]
  | IMAGE => [PATIENT; STUDY; SERIES; IMAGE]
  end.

Definition path (lvl : QueryLevel) (ds : Dataset) : list string :=
  (fun l => uid_at l ds) <$> levels_to lvl.

Definition conflict (lvl : QueryLevel) (ds e : Dataset) : bool :=
  existsb (fun k => bool_decide (uid_at k ds = uid_at k e)
                    && negb (bool_decide (path k ds = path k e)))
    (levels_to lvl).

Definition same_node (lvl : QueryLevel) (ds e : Dataset) : bool :=
  bool_decide (path lvl e = path lvl ds).

Definition contains (ds : Dataset) (q : QueryResult) : result bool :=
  if existsb (conflict (qr_level q) ds) (qr_items q)
  then Raise InconsistentDataError
  else Ok (existsb (same_node (qr_level q) ds) (qr_items q)).

Definition add (q : QueryResult) (ds : Dataset) : result QueryResult :=
  match contains ds q with
  | Raise e => Raise e
  | Ok true => Ok q
  | Ok false => Ok {| qr_level := qr_level q; qr_items := qr_items q ++ [ds] |}
  end.

Definition remove (q : QueryResult) (ds : Dataset) : result QueryResult :=
  match contains ds q with
  | Raise e => Raise e
  | Ok false => Raise KeyError
  | Ok true =>
      Ok {| qr_level := qr_level q;
            qr_items :=
              List.filter (fun e => negb (same_node (qr_level q) ds e))
                (qr_items q) |}
  end.

Definition select (q : QueryResult) (node : DataNode) (max_level : QueryLevel)
  : result QueryResult :=
  Ok {| qr_level := max_level;
        qr_items :=
          List.filter
            (fun e => bool_decide (uid_at (node_level node) e = node_uid node))
            (qr_items q) |}.

Definition ior (res other : QueryResult) : result QueryResult :=
  Ok {| qr_level := qr_level res;
        qr_items :=
          qr_items res
          ++ List.filter
               (fun e => negb (existsb (same_node (qr_level res) e) (qr_items res)))
               (qr_items other) |}.

#[global] Instance ops : QueryResultOps Dataset QueryResult := {|
  QueryResult_init := fun lvl => {| qr_level := lvl; qr_items := [] |};
  level := qr_level;
  QueryResult_contains := contains;
  QueryResult_add := add;
  QueryResult_remove := remove;
  QueryResult_iter := qr_items;
  sub_query := select;
  QueryResult_ior := ior;
  get_uid := uid_at;
|}.

(** Identifier-valued elements other than the patient identifier
    have value representation UI. *)
Definition vr_of (kw : string) : string :=
  if bool_decide (kw ∈ ["StudyInstanceUID"; "SeriesInstanceUID";
                        "SOPInstanceUID"; "SOPClassUID"])
  then "UI" else "LO".

Definition entropy_text (v : ElemValue) : string :=
  match v with
  | Single s => s
  | Multi vs => foldr (fun s acc => s +:+ acc) "" vs
  end.

Definition walk (cb : DataElement -> DataElement) (ds : Dataset) : Dataset :=
  (fun e =>
     (e.1, entropy_text
             (value (cb {| keyword := e.1; VR := vr_of e.1; value := Single e.2 |}))))
  <$> ds.

#[global] Instance pydicom : PydicomOps Dataset string := {|
  generate_uid := fun prefix srcs =>
    prefix +:+ foldr (fun v acc => entropy_text v +:+ acc) "" srcs;
  Dataset_hasattr := hasattr;
  Dataset_delattr := delattr;
  Dataset_setattr := setattr;
  Dataset_walk := walk;
  Dataset_set_media_storage_uid := fun ds => ds;
|}.

(** An image-level data set from its four identifiers. *)
Definition image (patient study series instance : string) : Dataset :=
  [ ("PatientID", patient); ("StudyInstanceUID", study);
    ("SeriesInstanceUID", series); ("SOPInstanceUID", instance) ].

Definition collection (lvl : QueryLevel) (items : list Dataset) : QueryResult :=
  {| qr_level := lvl; qr_items := items |}.

(** The engine a construction returned. *)
Definition built (qr : QueryResult) (filt : AnyFilter Dataset)
  : FilterTransform Dataset QueryResult :=
  match (FilterTransform_init qr filt).2 with
  | Ok self => self
  | Raise _ => FilterTransform_fresh qr filt
  end.

(** Two images of one series, and filters over them: [remap] derives
    a new instance identifier from the old one, [collapse] gives every
    image the same instance identifier, [reparent] files every image
    under a patient named after the image, and [keep] leaves the data
    set alone. *)
Definition img1 : Dataset := image "P1" "S1" "Se1" "I1".
Definition img2 : Dataset := image "P1" "S1" "Se1" "I2".

Definition remap : Filter Dataset :=
  Filter_init
    (fun ds => Some (setattr ds "SOPInstanceUID" ("9." +:+ uid_at IMAGE ds)))
    None (Some (Elems {["SOPInstanceUID"]})) (Some (Elems {["SOPInstanceUID"]})).

Definition collapse : Filter Dataset :=
  Filter_init (fun ds => Some (setattr ds "SOPInstanceUID" "X"))
    None (Some (Elems {["SOPInstanceUID"]})) None.

Definition reparent : Filter Dataset :=
  Filter_init (fun ds => Some (setattr ds "PatientID" (uid_at IMAGE ds)))
    None (Some (Elems {["PatientID"]})) None.

Definition keep : Filter Dataset :=
  Filter_init (fun ds => Some ds) None (Some (Elems {["PatientName"]})) None.

(** An image-level engine over [img1] with [remap], and records to
    add to it: [new1] is the filtered [img1], which the engine's [new]
    already holds; [fresh_new] is an image [new] does not hold;
    [stray] puts the study of [img1] under another patient, so it is
    inconsistent with [old], and [stray_new] is a filtered form of it
    that is consistent with [new]; [clash_new] puts the study of
    [new1] under another patient, so it is inconsistent with [new]. *)
Definition source : QueryResult := collection IMAGE [img1].
Definition engine : FilterTransform Dataset QueryResult :=
  built source (AFilter remap).
Definition new1 : Dataset := image "P1" "S1" "Se1" "9.I1".
Definition fresh_new : Dataset := image "P1" "S1" "Se1" "9.I7".
Definition stray : Dataset := image "P2" "S1" "Se9" "I9".
Definition stray_new : Dataset := image "P2" "S2" "Se9" "9.I9".
Definition clash_new : Dataset := image "P7" "S1" "Se1" "9.I1".

(** The two images as one source collection, and a study-level
    collection with its engine under [keep]. *)
Definition pair_source : QueryResult := collection IMAGE [img1; img2].
Definition study_source : QueryResult := collection STUDY [img1].
Definition study_engine : FilterTransform Dataset QueryResult :=
  built study_source (AFilter keep).

(** The filter [make_edit_filter] returns for an edit of the patient
    name that leaves the identifiers alone, and the image-level engine
    under it. *)
Definition edit_name : Filter Dataset :=
  match make_edit_filter [("PatientName", Some "Anon")] false "2.25" None with
  | Ok f => f
  | Raise _ => keep
  end.
Definition edit_engine : FilterTransform Dataset QueryResult :=
  built source (AFilter edit_name).

End Store.

(** ** Invariants of construction *)

Section ConstructionInvariant.
Context {Dataset QueryResult : Type} `{!QueryResultOps Dataset QueryResult}.


End ConstructionInvariant.

(** ** Attribute access on data sets *)

(** The contract of attribute access on a [Dataset] that [edit_func]
    relies on: deleting an attribute removes that attribute and no
    other, and assigning to an attribute the data set has leaves the
    set of its attributes as it was. *)
Class PydicomLaws (Dataset Value : Type) `{!PydicomOps Dataset Value} : Prop := {
  hasattr_delattr ds a b :
    Dataset_hasattr (Dataset_delattr ds a) b
    = Dataset_hasattr ds b && negb (bool_decide (a = b));
  hasattr_setattr ds a v b :
    Dataset_hasattr ds a = true ->
    Dataset_hasattr (Dataset_setattr ds a v) b = Dataset_hasattr ds b;
}.

(** ** Local directories ([store/local_dir.py]) *)

Module local_dir.

Section Crawl.
(** The file system as the crawl sees it: the paths
    [iglob(os.path.join( *glob_comps), recursive=recurse)] yields, from
    the components of the pattern, and [os.path.isfile]. *)
Variable iglob : list string -> bool -> list string.
Variable isfile : string -> bool.

(** The components of the glob expression. *)
Definition glob_comps (root_path : string) (recurse : bool) (file_ext : string)
  : list string :=
  let glob_comps := [root_path] in
  let glob_comps := if recurse then glob_comps ++ ["**"] else glob_comps in
  if bool_decide (file_ext <> "")
  then glob_comps ++ ["*." +:+ file_ext]
  else glob_comps ++ ["*"].

(** The loop of [_dir_crawl_worker] from index [pidx] on.  [res_q] is
    the queue as the list of the chunks put on it, and [shutdown] gives
    what [shutdown.is_set()] answers when it is called at an index.
    The result is the queue with the files not yet put on it, or with
    [None] when the loop returned from the function. *)
Fixpoint crawl_loop (max_chunk : Z) (shutdown : option (Z -> bool))
    (paths : list string) (pidx : Z) (curr_files : list string)
    (res_q : list (list string)) : list (list string) * option (list string) :=
  match paths with
  | [] => (res_q, Some curr_files)
  | path :: paths =>
      if (pidx + 1 mod 50 =? 0)%Z
         && match shutdown with
            | Some is_set => is_set pidx
            | None => false
            end
      then (res_q, None)
      else if negb (isfile path)
      then crawl_loop max_chunk shutdown paths (pidx + 1) curr_files res_q
      else
        let curr_files := curr_files ++ [path] in
        if (Z.of_nat (length curr_files) =? max_chunk)%Z
        then crawl_loop max_chunk shutdown paths (pidx + 1) [] (res_q ++ [curr_files])
        else crawl_loop max_chunk shutdown paths (pidx + 1) curr_files res_q
  end.

(** [_dir_crawl_worker]: the queue after the call. *)
Definition _dir_crawl_worker (res_q : list (list string)) (root_path : string)
    (recurse : bool) (file_ext : string) (max_chunk : Z)
    (shutdown : option (Z -> bool)) : list (list string) :=
  let glob_exp := glob_comps root_path recurse file_ext in
  match crawl_loop max_chunk shutdown (iglob glob_exp recurse) 0 [] res_q with
  | (res_q, None) => res_q
  | (res_q, Some curr_files) =>
      if bool_decide (length curr_files <> 0)
      then res_q ++ [curr_files] else res_q
  end.

End Crawl.

Section OutPath.
Context {Dataset : Type}.

(** A [str] as the list of its code points.  [fstr_eval t ds] stands
    for [fstr_eval(t, {'d': DefaultDicomWrapper(ds)})], which is
    outside the package; [None] when it raises.  [sep] is [os.sep]. *)
Variable fstr_eval : list N -> Dataset -> option (list N).
Variable sep : list N.

(** A code point of [A-Za-z0-9_.-]. *)
Definition safe_char (c : N) : bool :=
  ((65 <=? c) && (c <=? 90) || (97 <=? c) && (c <=? 122)
   || (48 <=? c) && (c <=? 57) || (c =? 95) || (c =? 46) || (c =? 45))%N.

(** [re.sub('[^A-Za-z0-9_.-]', '_', s)] *)
Definition re_sub_unsafe (s : list N) : list N :=
  (fun c => if safe_char c then c else 95%N) <$> s.

(** [s.split(c)] for a separator of one code point *)
Fixpoint split (c : N) (s : list N) : list (list N) :=
  match s with
  | [] => [[]]
  | x :: s' =>
      if (x =? c)%N then [] :: split c s'
      else match split c s' with
           | t :: ts => (x :: t) :: ts
           | [] => [[x]]
           end
  end.

(** [sep.join(toks)] *)
Fixpoint join (sep : list N) (toks : list (list N)) : list N :=
  match toks with
  | [] => []
  | [t] => t
  | t :: toks => t ++ sep ++ join sep toks
  end.

(** [make_out_path]; the comprehension evaluates the tokens in order
    and stops at the first that raises. *)
Definition make_out_path (out_fmt : list N) (ds : Dataset) : option (list N) :=
  let out_toks := split 47 out_fmt in
  toks ← mapM (fun t => re_sub_unsafe <$> fstr_eval t ds) out_toks;
  Some (join sep toks).

End OutPath.

End local_dir.

(** ** Reports ([report.py]) *)

Module report.

(** A progress hook and a task, each by the identity of the object. *)
Definition Hook : Type := nat.
Definition Task : Type := nat.

(** A call a report makes on its progress hook, with the arguments it
    passes.  The calls made so far, oldest first, stand for the state
    of the hooks; the task a [create_task] returns is identified by the
    number of calls made before it. *)
Inductive HookCall : Type :=
  | create_task (hook : Hook) (description : string) (total : option Z)
  | set_total (hook : Hook) (task : option Task) (total : Z)
  | advance (hook : Hook) (task : option Task)
  | hook_end (hook : Hook) (task : option Task).

Inductive exception : Type :=
  | ValueError
  | AssertionError.

Inductive outcome (A : Type) : Type :=
  | Returns (a : A)
  | Raises (e : exception).
Arguments Returns {A} a.
Arguments Raises {A} e.

(** The fields of a [Report]; [class_name] is [self.__class__.__name__]. *)
Record Report : Type := Build_Report {
  class_name : string;
  _description : option string;
  _n_expected : option Z;
  _n_input : Z;
  _done : bool;
  _task : option Task;
  _prog_hook : option Hook;
}.

Definition with_description (self : Report) (v : option string) : Report :=
  {| class_name := class_name self; _description := v;
     _n_expected := _n_expected self; _n_input := _n_input self;
     _done := _done self; _task := _task self; _prog_hook := _prog_hook self |}.

Definition with_n_expected (self : Report) (v : option Z) : Report :=
  {| class_name := class_name self; _description := _description self;
     _n_expected := v; _n_input := _n_input self;
     _done := _done self; _task := _task self; _prog_hook := _prog_hook self |}.

Definition with_n_input (self : Report) (v : Z) : Report :=
  {| class_name := class_name self; _description := _description self;
     _n_expected := _n_expected self; _n_input := v;
     _done := _done self; _task := _task self; _prog_hook := _prog_hook self |}.

Definition with_done (self : Report) (v : bool) : Report :=
  {| class_name := class_name self; _description := _description self;
     _n_expected := _n_expected self; _n_input := _n_input self;
     _done := v; _task := _task self; _prog_hook := _prog_hook self |}.

Definition with_task (self : Report) (v : option Task) : Report :=
  {| class_name := class_name self; _description := _description self;
     _n_expected := _n_expected self; _n_input := _n_input self;
     _done := _done self; _task := v; _prog_hook := _prog_hook self |}.

Definition with_prog_hook (self : Report) (v : option Hook) : Report :=
  {| class_name := class_name self; _description := _description self;
     _n_expected := _n_expected self; _n_input := _n_input self;
     _done := _done self; _task := _task self; _prog_hook := v |}.

(** [str.lower] on the letters A to Z *)
Definition lower_char (c : Ascii.ascii) : Ascii.ascii :=
  let n := Ascii.N_of_ascii c in
  if ((65 <=? n) && (n <=? 90))%N then Ascii.ascii_of_N (n + 32) else c.

Fixpoint lower (s : string) : string :=
  match s with
  | EmptyString => EmptyString
  | String c s' => String (lower_char c) (lower s')
  end.

(** [Report._auto_descr] *)
Definition _auto_descr (self : Report) : string :=
  let res := lower (class_name self) in
  let n := String.length res in
  if bool_decide (String.substring (n - 6) 6 res = "report")
     && bool_decide (6 < n)
  then String.substring 0 (n - 6) res
  else res.

(** The getter of [Report.description], which stores the description
    it makes up. *)
Definition description (self : Report) : Report * string :=
  match _description self with
  | None =>
      let d := _auto_descr self in (with_description self (Some d), d)
  | Some d => (self, d)
  end.

(** The setter of [Report.description] *)
Definition description_set (self : Report) (val : string) : Report :=
  with_description self (Some val).

(** [Report._init_task] *)
Definition _init_task (self : Report) (calls : list HookCall)
  : Report * list HookCall * outcome unit :=
  match _prog_hook self with
  | None => (self, calls, Raises AssertionError)
  | Some hook =>
      let '(self, d) := description self in
      (with_task self (Some (length calls)),
       calls ++ [create_task hook d (_n_expected self)], Returns tt)
  end.

(** The setter of [Report.n_expected] *)
Definition n_expected_set (self : Report) (val : Z) (calls : list HookCall)
  : Report * list HookCall * outcome unit :=
  let self := with_n_expected self (Some val) in
  match _prog_hook self with
  | None => (self, calls, Returns tt)
  | Some hook =>
      let '(self, calls, r) :=
        match _task self with
        | None => _init_task self calls
        | Some _ => (self, calls, Returns tt)
        end in
      match r with
      | Raises e => (self, calls, Raises e)
      | Returns _ =>
          (self, calls ++ [set_total hook (_task self) val], Returns tt)
      end
  end.

(** [Report.set_prog_hook] *)
Definition set_prog_hook (self : Report) (prog_hook : option Hook)
    (calls : list HookCall) : Report * list HookCall * outcome unit :=
  match _prog_hook self with
  | Some hook =>
      if bool_decide (prog_hook = Some hook)
      then (self, calls, Returns tt)
      else (self, calls, Raises AssertionError)
  | None =>
      match prog_hook with
      | None => (self, calls, Returns tt)
      | Some hook =>
          let self := with_prog_hook self (Some hook) in
          match _description self with
          | Some _ => _init_task self calls
          | None => (self, calls, Returns tt)
          end
      end
  end.

(** [Report.__init__] *)
Definition Report_init (class_name : string) (description : option string)
    (n_expected : option Z) (prog_hook : option Hook) (calls : list HookCall)
  : Report * list HookCall * outcome unit :=
  let self :=
    {| class_name := class_name; _description := description;
       _n_expected := n_expected; _n_input := 0; _done := false;
       _task := None; _prog_hook := None |} in
  set_prog_hook self prog_hook calls.

(** [Report.count_input] *)
Definition count_input (self : Report) (calls : list HookCall)
  : Report * list HookCall * outcome unit :=
  let self := with_n_input self (_n_input self + 1) in
  match _prog_hook self with
  | None => (self, calls, Returns tt)
  | Some hook =>
      let '(self, calls, r) :=
        match _task self with
        | None => _init_task self calls
        | Some _ => (self, calls, Returns tt)
        end in
      match r with
      | Raises e => (self, calls, Raises e)
      | Returns _ => (self, calls ++ [advance hook (_task self)], Returns tt)
      end
  end.

(** [Report._set_done], which the setter of [Report.done] calls *)
Definition _set_done (self : Report) (val : bool) (calls : list HookCall)
  : Report * list HookCall * outcome unit :=
  if negb val then (self, calls, Raises ValueError)
  else if _done self then (self, calls, Raises ValueError)
  else
    let self := with_done self true in
    match _prog_hook self, _task self with
    | Some hook, Some task =>
        (self, calls ++ [hook_end hook (Some task)], Returns tt)
    | _, _ => (self, calls, Returns tt)
    end.

(** A use of a report from outside: reading or assigning one of its
    properties, or calling one of its methods. *)
Inductive Call : Type :=
  | get_description
  | set_description (val : string)
  | set_n_expected (val : Z)
  | call_set_prog_hook (prog_hook : option Hook)
  | call_count_input
  | set_done (val : bool).

(** A report and the calls made on the hooks; the state after a use,
    whether it returns or raises, and after a sequence of uses. *)
Definition step (st : Report * list HookCall) (c : Call)
  : Report * list HookCall :=
  match c with
  | get_description => ((description st.1).1, st.2)
  | set_description val => (description_set st.1 val, st.2)
  | set_n_expected val => (n_expected_set st.1 val st.2).1
  | call_set_prog_hook prog_hook => (set_prog_hook st.1 prog_hook st.2).1
  | call_count_input => (count_input st.1 st.2).1
  | set_done val => (_set_done st.1 val st.2).1
  end.

Definition run (cs : list Call) (st : Report * list HookCall)
  : Report * list HookCall :=
  foldl step st cs.

(** A call on the hook [hook] about the task [task], other than its
    creation. *)
Definition on_task (hook : Hook) (task : Task) (c : HookCall) : Prop :=
  match c with
  | create_task _ _ _ => False
  | set_total h t _ | advance h t | hook_end h t => h = hook /\ t = Some task
  end.

Definition is_hook_end (c : HookCall) : bool :=
  match c with
  | hook_end _ _ => true
  | _ => false
  end.

Definition is_advance (c : HookCall) : bool :=
  match c with
  | advance _ _ => true
  | _ => false
  end.

Definition is_count_input (c : Call) : bool :=
  match c with
  | call_count_input => true
  | _ => false
  end.

(** What holds of a report and the calls on the hooks throughout the
    report's life, where [calls0] are the calls made before the report
    was built: a report without a task has made no call; a report with
    a task has a hook, and its calls are the creation of that task
    followed by calls on that hook about that task, of which at most
    one is [end], and none before the report is done. *)
Definition lifecycle (calls0 : list HookCall) (st : Report * list HookCall)
  : Prop :=
  exists new,
    st.2 = calls0 ++ new /\
    match _task st.1 with
    | None => new = []
    | Some task =>
        task = length calls0 /\
        exists hook d total rest,
          _prog_hook st.1 = Some hook /\
          new = create_task hook d total :: rest /\
          Forall (on_task hook task) rest /\
          length (List.filter is_hook_end rest) <= (if _done st.1 then 1 else 0)
    end.

(** What a multi-report asks of its sub-reports, which are reports of
    classes outside this module or multi-reports: the fields they
    inherit from [Report] with their update in place, the counts, and
    the methods [check_errors] and [clear], each with the exception it
    raises, if it raises. *)
Class ReportOps (R E : Type) : Type := {
  Report_of : R -> Report;
  with_Report : Report -> R -> R;
  n_warnings : R -> Z;
  n_errors : R -> Z;
  all_success : R -> bool;
  check_errors : R -> option E;
  clear : R -> R * option E;
}.

(** The update in place of the inherited fields is an update of those
    fields and of nothing else. *)
Class ReportLaws (R E : Type) `{!ReportOps R E} : Prop := {
  Report_of_with_Report b r : Report_of (with_Report b r) = b;
  with_Report_Report_of r : with_Report (Report_of r) r = r;
}.

(** [MultiDictReport]: the dictionary as the list of its items, in the
    order of insertion. *)
Record MultiDictReport (R K : Type) : Type := Build_MultiDictReport {
  dict_report : Report;
  dict_sub_reports : list (K * R);
}.
Arguments Build_MultiDictReport {R K} _ _.
Arguments dict_report {R K} _.
Arguments dict_sub_reports {R K} _.

Section MultiReports.
Context {R E : Type} `{!ReportOps R E}.

(** [MultiReport.n_success], [n_warnings], [n_errors] and
    [all_success], over the reports [gen_reports] yields. *)
Definition MultiReport_n_success (reports : list R) : Z :=
  foldl (fun total r => if all_success r then total + 1 else total)%Z 0%Z reports.

Definition MultiReport_n_warnings (reports : list R) : Z :=
  foldl (fun total r =>
           if bool_decide (n_warnings r <> 0%Z) then total + 1 else total)%Z
    0%Z reports.

Definition MultiReport_n_errors (reports : list R) : Z :=
  foldl (fun total r =>
           if bool_decide (n_errors r <> 0%Z) then total + 1 else total)%Z
    0%Z reports.

Definition MultiReport_all_success (reports : list R) : bool :=
  (MultiReport_n_errors reports + MultiReport_n_warnings reports =? 0)%Z.

(** [MultiListReport]; the sub-reports are taken to be distinct
    objects, each held by value. *)
Record MultiListReport : Type := Build_MultiListReport {
  list_report : Report;
  list_sub_reports : list R;
}.

(** [MultiListReport.__init__] *)
Definition MultiListReport_init (description : option string)
    (sub_reports : option (list R)) (prog_hook : option Hook)
    (n_expected : option Z) (calls : list HookCall)
  : MultiListReport * list HookCall * outcome unit :=
  let '(self, calls, r) :=
    Report_init "MultiListReport" description n_expected prog_hook calls in
  ({| list_report := self; list_sub_reports := default [] sub_reports |},
   calls, r).

(** [MultiListReport.__len__] *)
Definition MultiListReport_len (self : MultiListReport) : Z :=
  Z.of_nat (length (list_sub_reports self)).

(** [MultiListReport.append]: the report, the appended report as the
    call leaves it, and the calls on the hooks. *)
Definition MultiListReport_append (self : MultiListReport) (val : R)
    (calls : list HookCall)
  : MultiListReport * R * list HookCall * outcome unit :=
  match set_prog_hook (Report_of val) (_prog_hook (list_report self)) calls with
  | (b, calls, Raises e) => (self, with_Report b val, calls, Raises e)
  | (b, calls, Returns _) =>
      let val := with_Report b val in
      let '(self', calls, r) := count_input (list_report self) calls in
      ({| list_report := self';
          list_sub_reports := list_sub_reports self ++ [val] |},
       val, calls, r)
  end.

(** [MultiListReport.check_errors]: the list of the [MultiError] it
    raises, if it raises. *)
Definition MultiListReport_check_errors (self : MultiListReport)
  : option (list E) :=
  let errors :=
    foldl (fun errors sub_report =>
             match check_errors sub_report with
             | Some e => errors ++ [e]
             | None => errors
             end) [] (list_sub_reports self) in
  if bool_decide (errors <> []) then Some errors else None.

(** The loop of [MultiListReport.clear]: the sub-reports as the loop
    leaves them, the list [incomplete], and the exception a
    sub-report's [clear] raised, which ends the loop. *)
Fixpoint clear_loop (sub_reports incomplete : list R)
  : list R * list R * option E :=
  match sub_reports with
  | [] => ([], incomplete, None)
  | sub_report :: rest =>
      if negb (_done (Report_of sub_report)) then
        let '(sub_report, e) := clear sub_report in
        let incomplete := incomplete ++ [sub_report] in
        match e with
        | Some e => (sub_report :: rest, incomplete, Some e)
        | None =>
            let '(rest, incomplete, e) := clear_loop rest incomplete in
            (sub_report :: rest, incomplete, e)
        end
      else
        let '(rest, incomplete, e) := clear_loop rest incomplete in
        (sub_report :: rest, incomplete, e)
  end.

(** [MultiListReport.clear] *)
Definition MultiListReport_clear (self : MultiListReport)
  : MultiListReport * option E :=
  let '(sub_reports, incomplete, e) := clear_loop (list_sub_reports self) [] in
  match e with
  | Some e =>
      ({| list_report := list_report self; list_sub_reports := sub_reports |},
       Some e)
  | None =>
      let n_input := Z.of_nat (length incomplete) in
      let self' := with_n_input (list_report self) n_input in
      let self' :=
        match _n_expected self' with
        | Some n =>
            with_n_expected self'
              (Some (n - (Z.of_nat (length sub_reports) - n_input))%Z)
        | None => self'
        end in
      ({| list_report := self'; list_sub_reports := incomplete |}, None)
  end.


(** [MultiDictReport.__contains__] *)
Definition MultiDictReport_contains {K} `{EqDecision K}
    (self : MultiDictReport R K) (key : K) : bool :=
  bool_decide (key ∈ (dict_sub_reports self).*1).

(** [MultiDictReport.__getitem__]; [None] for the [KeyError] *)
Definition MultiDictReport_getitem {K} `{EqDecision K}
    (self : MultiDictReport R K) (key : K) : option R :=
  snd <$> List.find (fun kv => bool_decide (kv.1 = key)) (dict_sub_reports self).

(** [MultiDictReport.__setitem__] *)
Definition MultiDictReport_setitem {K} `{EqDecision K}
    (self : MultiDictReport R K) (key : K) (val : R) (calls : list HookCall)
  : MultiDictReport R K * list HookCall * outcome unit :=
  if MultiDictReport_contains self key then (self, calls, Raises ValueError)
  else
    match set_prog_hook (Report_of val) (_prog_hook (dict_report self)) calls with
    | (_, calls, Raises e) => (self, calls, Raises e)
    | (b, calls, Returns _) =>
        let val := with_Report b val in
        let '(self', calls, r) := count_input (dict_report self) calls in
        ({| dict_report := self';
            dict_sub_reports := dict_sub_reports self ++ [(key, val)] |},
         calls, r)
    end.

End MultiReports.

End report.

(** A report class with counts of its own, for examples: the fields of
    [Report] with a number of warnings and a number of errors;
    [check_errors] raises when there is an error, and [clear] sets the
    numbers to zero. *)
Module Tally.

Record Tally : Type := Build_Tally {
  tally_report : report.Report;
  tally_warnings : Z;
  tally_errors : Z;
}.

#[global] Instance ops : report.ReportOps Tally string := {|
  report.Report_of := tally_report;
  report.with_Report := fun b t =>
    {| tally_report := b; tally_warnings := tally_warnings t;
       tally_errors := tally_errors t |};
  report.n_warnings := tally_warnings;
  report.n_errors := tally_errors;
  report.all_success := fun t => (tally_errors t + tally_warnings t =? 0)%Z;
  report.check_errors := fun t =>
    if bool_decide (tally_errors t <> 0%Z) then Some "errors" else None;
  report.clear := fun t =>
    ({| tally_report := tally_report t; tally_warnings := 0;
        tally_errors := 0 |}, None);
|}.

(** A report built without a hook and with one, and tallies over them. *)
Definition plain : report.Report :=
  (report.Report_init "TallyReport" None None None []).1.1.
Definition hooked : report.Report :=
  (report.Report_init "TallyReport" (Some "copy") (Some 3%Z) (Some 0) []).1.1.
Definition finished : report.Report := report.with_done plain true.

Definition clean : Tally :=
  {| tally_report := plain; tally_warnings := 0; tally_errors := 0 |}.
Definition failed : Tally :=
  {| tally_report := finished; tally_warnings := 1; tally_errors := 2 |}.
Definition watched : Tally :=
  {| tally_report := hooked; tally_warnings := 0; tally_errors := 0 |}.

Definition batch : report.MultiListReport (R := Tally) :=
  {| report.list_report :=
       report.with_n_expected (report.with_n_input plain 2) (Some 5%Z);
     report.list_sub_reports := [clean; failed] |}.

End Tally.


(** * Properties *)

(** ** Capability-set algebra *)

Lemma elem_of_LazySet_empty (x : string) : x ∉ (∅ : LazySet).
Proof. unfold elem_of, LazySet_elem_of, empty, LazySet_empty_inst; simpl. set_solver. Qed.

Lemma elem_of_LazySet_union (s t : LazySet) (x : string) :
  x ∈ s ∪ t <-> x ∈ s \/ x ∈ t.
Proof.
  destruct s as [a|a], t as [b|b];
    unfold elem_of, LazySet_elem_of, union, LazySet_union_inst; simpl;
    [set_solver| | |].
  - rewrite not_elem_of_difference. tauto.
  - rewrite not_elem_of_difference. tauto.
  - rewrite not_elem_of_intersection. tauto.
Qed.

Lemma elem_of_LazySet_inter (s t : LazySet) (x : string) :
  x ∈ s ∩ t <-> x ∈ s /\ x ∈ t.
Proof.
  destruct s as [a|a], t as [b|b];
    unfold elem_of, LazySet_elem_of, intersection, LazySet_inter_inst; simpl;
    set_solver.
Qed.

Lemma elem_of_LazySet_diff (s t : LazySet) (x : string) :
  x ∈ s ∖ t <-> x ∈ s /\ x ∉ t.
Proof.
  destruct s as [a|a], t as [b|b];
    unfold elem_of, LazySet_elem_of, difference, LazySet_diff_inst; simpl;
    [set_solver| | set_solver |].
  - rewrite elem_of_intersection. split; [intros [? ?]; split; auto|].
    intros [? Hn]. split; [done|]. destruct (decide (x ∈ b)); [done|]. by destruct Hn.
  - rewrite elem_of_difference. split; [intros [? ?]; split; auto|].
    intros [? Hn]. split; [|done]. destruct (decide (x ∈ b)); [done|]. by destruct Hn.
Qed.

Lemma LazySet_semi_set : SemiSet string LazySet.
Proof.
  split.
  - apply elem_of_LazySet_empty.
  - intros x y. unfold elem_of at 1, LazySet_elem_of, singleton, LazySet_singleton.
    simpl. set_solver.
  - intros. apply elem_of_LazySet_union.
Qed.

#[global] Existing Instance LazySet_semi_set.

Lemma LazySet_set : Set_ string LazySet.
Proof.
  split.
  - apply _.
  - intros. apply elem_of_LazySet_inter.
  - intros. apply elem_of_LazySet_diff.
Qed.

#[global] Existing Instance LazySet_set.

(** A set is true in a condition exactly when it has an element. *)
Lemma LazySet_bool_spec (s : LazySet) :
  LazySet_bool s = true <-> exists x, x ∈ s.
Proof.
  destruct s as [a|a]; simpl.
  - rewrite bool_decide_eq_true. split.
    + intros Hne. apply set_choose_L in Hne. exact Hne.
    + intros [x Hx] ->. unfold elem_of, LazySet_elem_of in Hx. simpl in Hx. set_solver.
  - split; [intros _|done]. exists (fresh a). apply is_fresh.
Qed.

Lemma LazySet_bool_false (s : LazySet) :
  LazySet_bool s = false <-> forall x, x ∉ s.
Proof.
  rewrite <- not_true_iff_false, LazySet_bool_spec. split.
  - intros Hn x Hx. apply Hn. eauto.
  - intros Hn [x Hx]. by apply (Hn x).
Qed.

Lemma LazySet_unions_snoc (l : list LazySet) (s : LazySet) :
  LazySet_unions (l ++ [s]) = LazySet_unions l ∪ s.
Proof. unfold LazySet_unions. by rewrite foldl_snoc. Qed.

Lemma elem_of_LazySet_unions (l : list LazySet) (x : string) :
  x ∈ LazySet_unions l <-> exists s, s ∈ l /\ x ∈ s.
Proof.
  induction l as [|s l IH] using rev_ind.
  - unfold LazySet_unions; simpl. split; [|set_solver].
    intros H. by apply elem_of_LazySet_empty in H.
  - rewrite LazySet_unions_snoc, elem_of_LazySet_union, IH. split.
    + intros [(t & Ht & Hx)|Hx]; [exists t|exists s]; set_solver.
    + intros (t & Ht & Hx). apply elem_of_app in Ht as [Ht|Ht]; [left; eauto|].
      right. apply list_elem_of_singleton in Ht. by subst.
Qed.

(** ** Filters and filter chains *)

Section FilterProperties.
Context {Dataset : Type}.

Implicit Types (f g : Filter Dataset) (fs chain sel : list (Filter Dataset)).

(** C6. A constructed [Filter] has its invertible set inside its write
    set.  The invertible set is stored as given; the stored write set
    contains the given one (it is never narrowed), and when the given
    invertible set is not contained in the given write set, the stored
    write set is the union of the two.  An omitted argument stands for
    its default. *)
Theorem Filter_init_invertible_subset_write
    (func : Dataset -> option Dataset) (read write invertible : option LazySet) :
  let given_write := default AllElems write in
  let given_invertible := default (∅ : LazySet) invertible in
  let f := Filter_init func read write invertible in
  (forall x, x ∈ invertible_elems f -> x ∈ write_elems f) /\
  invertible_elems f = given_invertible /\
  (forall x, x ∈ given_write -> x ∈ write_elems f) /\
  (~ (forall x, x ∈ given_invertible -> x ∈ given_write) ->
   write_elems f = given_write ∪ given_invertible).
Proof.
  intros given_write given_invertible f.
  unfold f, Filter_init, FrozenLazySet; simpl.
  fold given_write given_invertible.
  destruct (LazySet_bool given_invertible) eqn:Hb.
  - repeat split; try set_solver.
  - rewrite LazySet_bool_false in Hb. repeat split.
    + intros x Hx. by apply Hb in Hx.
    + done.
    + intros Hn. destruct Hn. intros x Hx. by apply Hb in Hx.
Qed.

(** C9. A stand-alone [Filter] answers [get_dependencies] with its own
    function and its whole declared read set, whatever is requested. *)
Theorem Filter_get_dependencies_all f (elems : LazySet) :
  Filter_get_dependencies f elems = ([func f], read_elems f).
Proof. reflexivity. Qed.

Lemma post_init_fold fs (r w i u : LazySet) :
  foldl post_init_step (r, w, i, u) fs =
  (foldl (fun acc f => acc ∪ read_elems f) r fs,
   foldl (fun acc f => acc ∪ write_elems f) w fs,
   foldl (fun acc f => acc ∪ invertible_elems f) i fs,
   foldl (fun acc f => acc ∪ (write_elems f ∖ invertible_elems f)) u fs).
Proof.
  revert r w i u. induction fs as [|f fs IH]; intros r w i u; [done|].
  simpl. by rewrite IH.
Qed.

Lemma MultiFilter_init_sets fs :
  read_elems (MultiFilter_init fs) = LazySet_unions ((fun f => read_elems f) <$> fs) /\
  write_elems (MultiFilter_init fs) = LazySet_unions ((fun f => write_elems f) <$> fs) /\
  invertible_elems (MultiFilter_init fs) =
    LazySet_unions ((fun f => invertible_elems f) <$> fs)
    ∖ LazySet_unions ((fun f => write_elems f ∖ invertible_elems f) <$> fs).
Proof.
  unfold MultiFilter_init. rewrite post_init_fold. simpl.
  unfold LazySet_unions, FrozenLazySet. by rewrite !foldl_fmap.
Qed.

(** C3. The aggregate sets of a chain: read and write are the unions
    of the members' read and write sets, and invertible is the union of
    the members' invertible sets minus the union of what each member
    writes without declaring it invertible.  An attribute is therefore
    chain-invertible iff some member declares it invertible and no
    member writes it non-invertibly; for two filters, an attribute that
    the first declares invertible and the second writes without
    declaring it invertible is not chain-invertible. *)
Theorem MultiFilter_init_aggregate fs :
  let chain := MultiFilter_init fs in
  read_elems chain = LazySet_unions ((fun f => read_elems f) <$> fs) /\
  write_elems chain = LazySet_unions ((fun f => write_elems f) <$> fs) /\
  invertible_elems chain =
    LazySet_unions ((fun f => invertible_elems f) <$> fs)
    ∖ LazySet_unions ((fun f => write_elems f ∖ invertible_elems f) <$> fs) /\
  (forall x, x ∈ invertible_elems chain <->
     (exists f, f ∈ fs /\ x ∈ invertible_elems f) /\
     ~ (exists f, f ∈ fs /\ x ∈ write_elems f /\ x ∉ invertible_elems f)) /\
  (forall f1 f2 x, fs = [f1; f2] ->
     x ∈ invertible_elems f1 -> x ∈ write_elems f2 -> x ∉ invertible_elems f2 ->
     x ∉ invertible_elems chain).
Proof.
  intros chain. destruct (MultiFilter_init_sets fs) as (Hr & Hw & Hi).
  assert (Hmem : forall x, x ∈ invertible_elems chain <->
     (exists f, f ∈ fs /\ x ∈ invertible_elems f) /\
     ~ (exists f, f ∈ fs /\ x ∈ write_elems f /\ x ∉ invertible_elems f)).
  { intros x. unfold chain. rewrite Hi, elem_of_LazySet_diff, !elem_of_LazySet_unions.
    split.
    - intros [(s & Hs & Hx) Hn]. apply list_elem_of_fmap in Hs as (f & -> & Hf).
      split; [by exists f|]. intros (g & Hg & Hgw & Hgi). apply Hn.
      exists (write_elems g ∖ invertible_elems g). split.
      + apply list_elem_of_fmap. by exists g.
      + by apply elem_of_LazySet_diff.
    - intros [(f & Hf & Hx) Hn]. split.
      + exists (invertible_elems f). split; [|done].
        apply list_elem_of_fmap. by exists f.
      + intros (s & Hs & Hxs). apply list_elem_of_fmap in Hs as (g & -> & Hg).
        apply elem_of_LazySet_diff in Hxs as [? ?]. apply Hn. by exists g. }
  split; [exact Hr|]. split; [exact Hw|]. split; [exact Hi|]. split; [exact Hmem|].
  intros f1 f2 x -> H1 H2 H3 Hx. apply Hmem in Hx as [_ Hn]. apply Hn.
  exists f2. split; [set_solver|done].
Qed.

Lemma get_dependencies_snoc (self_filters : list (Filter Dataset)) f
    (elems : LazySet) :
  foldl (dependencies_step elems) ([], LazySet_empty) (self_filters ++ [f]) =
  dependencies_step elems
    (foldl (dependencies_step elems) ([], LazySet_empty) self_filters) f.
Proof. by rewrite foldl_snoc. Qed.

(** The test of the dependency loop, in terms of membership. *)
Lemma dependencies_test (elems : LazySet) sel f :
  LazySet_bool (LazySet_unions ((fun f => read_elems f) <$> (sel : list (Filter Dataset)))
                  ∩ write_elems f)
  || LazySet_bool (elems ∩ write_elems f) = true <->
  exists x, x ∈ write_elems f /\
    (x ∈ elems \/ exists g : Filter Dataset, g ∈ sel /\ x ∈ read_elems g).
Proof.
  rewrite orb_true_iff, !LazySet_bool_spec. split.
  - intros [[x Hx]|[x Hx]]; apply elem_of_LazySet_inter in Hx as [Hx Hw];
      exists x; (split; [done|]); [right|by left].
    apply elem_of_LazySet_unions in Hx as (s & Hs & Hx).
    apply list_elem_of_fmap in Hs as (g & -> & Hg). by exists g.
  - intros (x & Hw & [Hx|(g & Hg & Hx)]); [right|left]; exists x;
      apply elem_of_LazySet_inter; (split; [|done]); [done|].
    apply elem_of_LazySet_unions. exists (read_elems g). split; [|done].
    apply list_elem_of_fmap. by exists g.
Qed.

(** C4. [get_dependencies] is a single forward pass that makes the
    selection the design describes: a filter is selected iff its write
    set meets the requested set or the read sets of the filters
    selected before it.  The result pairs the functions of the selected
    filters, in the order of the chain, with the union of the selected
    filters' read sets. *)
Theorem MultiFilter_get_dependencies_selected (self : MultiFilter Dataset)
    (elems : LazySet) :
  exists sel,
    Selected elems (filters self) sel /\
    sel `sublist_of` filters self /\
    MultiFilter_get_dependencies self elems =
      (func <$> sel, LazySet_unions ((fun f => read_elems f) <$> sel)).
Proof.
  unfold MultiFilter_get_dependencies, FrozenLazySet.
  induction (filters self) as [|f fs IH] using rev_ind.
  - exists []. repeat split; [constructor|done].
  - destruct IH as (sel & Hsel & Hsub & Heq).
    rewrite get_dependencies_snoc.
    destruct (foldl (dependencies_step elems) ([], LazySet_empty) fs)
      as [funcs dep_elems].
    injection Heq as -> ->. unfold dependencies_step.
    destruct (LazySet_bool (LazySet_unions ((fun f => read_elems f) <$> sel) ∩ write_elems f)
              || LazySet_bool (elems ∩ write_elems f)) eqn:Htest.
    + exists (sel ++ [f]). split; [|split].
      * apply Selected_take; [done|]. by apply dependencies_test.
      * by apply sublist_app.
      * rewrite !fmap_app. simpl. by rewrite LazySet_unions_snoc.
    + exists sel. split; [|split].
      * apply Selected_skip; [done|]. intros Hex.
        apply dependencies_test in Hex. congruence.
      * by apply sublist_inserts_r.
      * done.
Qed.

(** The selection is determined by the chain and the request. *)
Lemma Selected_functional (elems : LazySet) chain sel sel' :
  Selected elems chain sel -> Selected elems chain sel' -> sel = sel'.
Proof.
  intros H. revert sel'. induction H as [|chain sel f H IH Hc|chain sel f H IH Hc];
    intros sel' H'.
  - inversion H' as [|c s f' ? ? Heq|c s f' ? ? Heq]; [done| |];
      by destruct c.
  - inversion H' as [Heq|c s f' H0 Hc' Heq|c s f' H0 Hc' Heq].
    + by destruct chain.
    + apply app_inj_tail in Heq as [-> ->]. by rewrite (IH s H0).
    + apply app_inj_tail in Heq as [-> ->]. rewrite <- (IH sel' H0) in Hc'. done.
  - inversion H' as [Heq|c s f' H0 Hc' Heq|c s f' H0 Hc' Heq].
    + by destruct chain.
    + apply app_inj_tail in Heq as [-> ->]. rewrite <- (IH s H0) in Hc'. done.
    + apply app_inj_tail in Heq as [-> ->]. by apply IH.
Qed.

End FilterProperties.

(** ** Transform engines *)

Section EngineProperties.
Context {Dataset QueryResult : Type} `{!QueryResultOps Dataset QueryResult}.

Implicit Types (self : FilterTransform Dataset QueryResult)
  (old_ds new_ds ds : Dataset) (new_qr q : QueryResult).

(** C7. The identity engine inverts a subset by wrapping it: the
    bundle's consistent collection is the subset itself and both lists
    are empty.  The engine built when no filter is given is the
    identity engine over the source collection. *)
Theorem DummyTransform_reverse_identity (self : DummyTransform QueryResult)
    new_qr :
  DummyTransform_reverse (Dataset := Dataset) self new_qr =
    {| qr := new_qr; inconsistent := []; duplicate := [] |} /\
  get_transform (Dataset := Dataset) (DummyTransform_old self) None =
    ([], Ok (Dummy self)).
Proof. destruct self. split; reflexivity. Qed.

Lemma QueryLevel_gt_finer (a b : QueryLevel) :
  QueryLevel_gt a b = true <-> finer a b.
Proof. unfold QueryLevel_gt, finer. apply bool_decide_eq_true. Qed.

Lemma QueryLevel_trichotomy (a b : QueryLevel) :
  a = b \/ finer a b \/ coarser a b.
Proof. destruct a, b; unfold finer, coarser; simpl; auto with lia. Qed.

Lemma finer_neq (a b : QueryLevel) : finer a b -> a <> b.
Proof. unfold finer. intros H ->. lia. Qed.

Lemma coarser_neq (a b : QueryLevel) : coarser a b -> a <> b.
Proof. unfold coarser. intros H ->. lia. Qed.

Lemma coarser_not_gt (a b : QueryLevel) : coarser a b -> QueryLevel_gt a b = false.
Proof.
  unfold coarser, QueryLevel_gt. intros H. apply bool_decide_eq_false. lia.
Qed.

Lemma reverse_same_level self new_qr :
  level new_qr = level (new self) ->
  reverse self new_qr = reverse_records self new_qr.
Proof.
  intros Heq. unfold reverse, reverse_level_mismatch.
  by rewrite bool_decide_eq_false_2 by (intros Hn; by apply Hn).
Qed.

(** C2, as the code has it.  [reverse] at the engine's own level always
    goes on to the per-record loop.  At a finer level it always raises
    the level-mismatch error, whatever the invertible identifiers are.
    At a coarser level it raises the level-mismatch error exactly when
    [fully_invertible] is empty, and goes on to the per-record loop
    when it is not. *)
Theorem reverse_level_rule self new_qr :
  (level new_qr = level (new self) ->
     reverse self new_qr = reverse_records self new_qr) /\
  (finer (level new_qr) (level (new self)) ->
     reverse self new_qr = Raise QueryLevelMismatchError) /\
  (coarser (level new_qr) (level (new self)) ->
     ((forall x, x ∉ fully_invertible self) ->
        reverse self new_qr = Raise QueryLevelMismatchError) /\
     ((exists x, x ∈ fully_invertible self) ->
        reverse self new_qr = reverse_records self new_qr)).
Proof.
  split; [apply reverse_same_level|].
  unfold reverse, reverse_level_mismatch. split.
  - intros Hf. rewrite bool_decide_eq_true_2 by (by apply finer_neq).
    apply QueryLevel_gt_finer in Hf. by rewrite Hf.
  - intros Hc. rewrite bool_decide_eq_true_2 by (by apply coarser_neq).
    rewrite (coarser_not_gt _ _ Hc). simpl. split.
    + intros He. apply LazySet_bool_false in He. by rewrite He.
    + intros He. apply LazySet_bool_spec in He. by rewrite He.
Qed.

(** The loop over the levels ends at the level of [old], with the
    identifier of the new record at that level, mapped to the old one. *)
Lemma _add_new_loop_result (lvl : QueryLevel) old_ds new_ds
    (m : QueryLevel -> gmap string string) :
  exists m',
    _add_new_loop lvl old_ds new_ds uid_elems m None =
      (m', Some (get_uid lvl new_ds)) /\
    m' lvl !! get_uid lvl new_ds = Some (get_uid lvl old_ds).
Proof.
  destruct lvl; eexists; (split; [reflexivity|]); simpl;
    rewrite fn_lookup_insert; apply lookup_insert_eq.
Qed.

(** A merge that reports a duplicate or an inconsistency leaves the
    engine as it was. *)
Lemma _add_new_failure_unchanged self old_ds new_ds :
  (_add_new self old_ds new_ds).2 = Ok None \/
  (_add_new self old_ds new_ds).2 = Raise InconsistentDataError ->
  (_add_new self old_ds new_ds).1 = self.
Proof.
  unfold _add_new.
  destruct (QueryResult_contains new_ds (new self)) as [[|]|e]; try done.
  destruct (QueryResult_add (new self) new_ds) as [q|e]; try done.
  destruct (_add_new_loop_result (level (old self)) old_ds new_ds (_new_to_old self))
    as (m & -> & Hm).
  cbn [snd]. intros [?|?]; done.
Qed.

Lemma _add_new_raise_unchanged self old_ds new_ds self' (e : error) :
  _add_new self old_ds new_ds = (self', Raise e) -> self' = self.
Proof.
  unfold _add_new.
  destruct (QueryResult_contains new_ds (new self)) as [[|]|e']; try done;
    try (by intros [= <- _]).
  destruct (QueryResult_add (new self) new_ds) as [q|e'];
    try (by intros [= <- _]).
  by destruct (_add_new_loop_result (level (old self)) old_ds new_ds (_new_to_old self))
    as (m & -> & Hm).
Qed.

(** What a successful merge does to the engine. *)
Lemma _add_new_success self old_ds new_ds self' new_uid :
  _add_new self old_ds new_ds = (self', Ok (Some new_uid)) ->
  exists q m,
    QueryResult_contains new_ds (new self) = Ok false /\
    QueryResult_add (new self) new_ds = Ok q /\
    self' = set_new self q m /\
    new_uid = get_uid (level (old self)) new_ds /\
    m (level (old self)) !! new_uid = Some (get_uid (level (old self)) old_ds).
Proof.
  unfold _add_new.
  destruct (QueryResult_contains new_ds (new self)) as [[|]|e]; try done.
  destruct (QueryResult_add (new self) new_ds) as [q|e]; try done.
  destruct (_add_new_loop_result (level (old self)) old_ds new_ds (_new_to_old self))
    as (m & -> & Hm).
  intros [= <- <-]. by exists q, m.
Qed.


Lemma FilterTransform_init_loop_app (filt : AnyFilter Dataset)
    (pre post : list Dataset) self msgs self1 :
  FilterTransform_init_loop filt pre self = (msgs, Ok self1) ->
  FilterTransform_init_loop filt (pre ++ post) self =
  FilterTransform_init_loop filt post self1.
Proof.
  revert self. induction pre as [|old_ds pre IH]; intros self; simpl.
  - by intros [= _ ->].
  - destruct (AnyFilter_call filt old_ds) as [new_ds|]; [|apply IH].
    destruct (_add_new self old_ds new_ds) as [self2 [[u|]|[]]]; try done.
    apply IH.
Qed.

(** C8. Construction over a source collection aborts at the first
    record whose filtered output cannot be merged: when the output
    duplicates a record already produced, construction logs that the
    filter made a duplicate and raises [DuplicateDataError]; when
    merging the output raises [InconsistentDataError], construction
    logs that the filter made the data inconsistent and raises that
    error.  No engine is returned in either case. *)
Theorem FilterTransform_init_failure (qr : QueryResult)
    (filt : AnyFilter Dataset) (pre post : list Dataset) old_ds new_ds
    msgs self1 :
  QueryResult_iter qr = pre ++ old_ds :: post ->
  FilterTransform_init_loop filt pre (FilterTransform_fresh qr filt) =
    (msgs, Ok self1) ->
  AnyFilter_call filt old_ds = Some new_ds ->
  (QueryResult_contains new_ds (new self1) = Ok true ->
     FilterTransform_init qr filt = ([warn_duplicate], Raise DuplicateDataError)) /\
  ((_add_new self1 old_ds new_ds).2 = Raise InconsistentDataError ->
     FilterTransform_init qr filt =
       ([warn_inconsistent], Raise InconsistentDataError)).
Proof.
  intros Hiter Hpre Hcall. unfold FilterTransform_init. rewrite Hiter.
  rewrite (FilterTransform_init_loop_app _ _ _ _ _ _ Hpre). simpl. rewrite Hcall.
  split.
  - intros Hdup. unfold _add_new. by rewrite Hdup.
  - intros Hinc. destruct (_add_new self1 old_ds new_ds) as [self2 r].
    simpl in Hinc. by rewrite Hinc.
Qed.

End EngineProperties.

(** ** Transactional [add] *)

Section AddRollback.
Context {Dataset QueryResult : Type} `{!QueryResultOps Dataset QueryResult}
  `{!QueryResultLaws Dataset QueryResult}.

Implicit Types (self : FilterTransform Dataset QueryResult)
  (old_ds new_ds ds : Dataset) (new_qr q : QueryResult).

(** The three ways the first statement group of [add] ends without an
    exception. *)
Lemma add_old_cases self old_ds self1 (old_inconsistent old_dupe : bool) :
  add_old self old_ds = Ok (self1, old_inconsistent, old_dupe) ->
  (old_inconsistent = true /\ old_dupe = false /\ self1 = self /\
   QueryResult_contains old_ds (old self) = Raise InconsistentDataError) \/
  (old_inconsistent = false /\ old_dupe = true /\ self1 = self /\
   QueryResult_contains old_ds (old self) = Ok true) \/
  (old_inconsistent = false /\ old_dupe = false /\
   QueryResult_contains old_ds (old self) = Ok false /\
   exists q, QueryResult_add (old self) old_ds = Ok q /\ self1 = set_old self q).
Proof.
  unfold add_old.
  destruct (QueryResult_contains old_ds (old self)) as [[|]|[]] eqn:Hc;
    simpl; try done.
  - intros [= <- <- <-]. right; left. done.
  - destruct (QueryResult_add (old self) old_ds) as [q|e] eqn:Ha; [|done].
    intros [= <- <- <-]. right; right. repeat split; eauto.
  - intros [= <- <- <-]. left. done.
Qed.

(** After the compensation, the record is not a member of [old] when
    it was a member before the compensation, or when membership could
    not be decided before it. *)
Lemma rollback_not_member self old_ds (msg : string) (e : error)
    self' msgs (r : result unit) :
  rollback_and_raise self old_ds msg e = (self', msgs, r) ->
  QueryResult_contains old_ds (old self) <> Ok false ->
  QueryResult_contains old_ds (old self') <> Ok true /\
  (QueryResult_contains old_ds (old self) = Ok true -> r = Raise e /\ msgs = [msg]).
Proof.
  unfold rollback_and_raise. intros Hr Hnf.
  destruct (QueryResult_remove (old self) old_ds) as [q|e'] eqn:Hrm;
    injection Hr as <- <- <-; simpl.
  - split; [by eapply remove_not_member|done].
  - split.
    + intros Hm. destruct (remove_member _ _ Hm) as [q' Hq']. congruence.
    + intros Hm. destruct (remove_member _ _ Hm) as [q' Hq']. congruence.
Qed.

(** C1. [add] is transactional.  Suppose the first statement group of
    [add] ends with the flags [old_inconsistent] and [old_dupe], and
    merging [new_ds] then reports a duplicate or raises
    [InconsistentDataError].  When the merge reports a duplicate and
    [old_ds] was already a duplicate, or the merge raises
    [InconsistentDataError] and [old_ds] was already inconsistent, the
    engine after the call is the engine before it; otherwise [old_ds]
    is not a member of [old] after the call.  When [old_ds] was neither
    a duplicate nor inconsistent, the call raises the error of the
    merge after logging the warning. *)
Theorem add_failure_rolls_back self old_ds new_ds self1
    (old_inconsistent old_dupe : bool) self' msgs (r : result unit) :
  add_old self old_ds = Ok (self1, old_inconsistent, old_dupe) ->
  add self old_ds (Some new_ds) = (self', msgs, r) ->
  ((_add_new self1 old_ds new_ds).2 = Ok None ->
     (old_dupe = true -> self' = self /\ r = Raise DuplicateDataError) /\
     (old_dupe = false ->
        QueryResult_contains old_ds (old self') <> Ok true /\
        (old_inconsistent = false ->
           r = Raise DuplicateDataError /\ msgs = [warn_duplicate]))) /\
  ((_add_new self1 old_ds new_ds).2 = Raise InconsistentDataError ->
     (old_inconsistent = true ->
        self' = self /\ r = Raise InconsistentDataError) /\
     (old_inconsistent = false ->
        QueryResult_contains old_ds (old self') <> Ok true /\
        (old_dupe = false ->
           r = Raise InconsistentDataError /\ msgs = [warn_inconsistent]))).
Proof.
  intros Hold Hadd. unfold add in Hadd. rewrite Hold in Hadd.
  unfold add_new in Hadd.
  pose proof (_add_new_failure_unchanged self1 old_ds new_ds) as Hun.
  destruct (_add_new self1 old_ds new_ds) as [self2 res]. simpl in Hun |- *.
  apply add_old_cases in Hold
    as [(-> & -> & -> & Hc)|[(-> & -> & -> & Hc)|(-> & -> & Hc & q & Ha & ->)]].
  - (* old_ds was inconsistent with [old] *)
    split; intros ->; (rewrite Hun in Hadd by auto); simpl in Hadd.
    + split; [done|]. intros _.
      apply rollback_not_member in Hadd as [Hn _]; [|congruence].
      split; [done|]. done.
    + injection Hadd as <- <- <-. split; [done|]. done.
  - (* old_ds was a duplicate *)
    split; intros ->; (rewrite Hun in Hadd by auto); simpl in Hadd.
    + injection Hadd as <- <- <-. split; [done|]. done.
    + split; [done|]. intros _.
      apply rollback_not_member in Hadd as [Hn _]; [|congruence].
      split; [done|]. done.
  - (* old_ds was inserted into [old] *)
    assert (Hm : QueryResult_contains old_ds (old (set_old self q)) = Ok true)
      by (by eapply add_member).
    split; intros ->; (rewrite Hun in Hadd by auto); simpl in Hadd.
    + split; [done|]. intros _.
      apply rollback_not_member in Hadd as [Hn Hr]; [|simpl in *; congruence].
      split; [done|]. intros _. by apply Hr.
    + split; [done|]. intros _.
      apply rollback_not_member in Hadd as [Hn Hr]; [|simpl in *; congruence].
      split; [done|]. intros _. by apply Hr.
Qed.

End AddRollback.

(** ** Fixed duplicates and inconsistencies *)

Section FixedRecords.
Context {Dataset QueryResult : Type} `{!QueryResultOps Dataset QueryResult}
  `{!QueryResultLaws Dataset QueryResult}
  `{!QueryResultUidLaws Dataset QueryResult}.

Implicit Types (self : FilterTransform Dataset QueryResult)
  (old_ds new_ds ds : Dataset) (new_qr q : QueryResult)
  (acc : QueryResult * list Dataset * list Dataset).

(** Every engine that construction starts from satisfies the ledger
    invariant, and merging, construction and [add] keep it. *)
Lemma ledgers_in_new_fresh (qr : QueryResult) (filt : AnyFilter Dataset) :
  ledgers_in_new (FilterTransform_fresh qr filt).
Proof.
  split; simpl.
  - apply level_init.
  - intros u [[d Hd]|[d Hd]]; by rewrite lookup_empty in Hd.
Qed.

Lemma ledgers_in_new_add_new self old_ds new_ds :
  ledgers_in_new self -> ledgers_in_new (_add_new self old_ds new_ds).1.
Proof.
  intros [Hl Hk]. unfold _add_new.
  destruct (QueryResult_contains new_ds (new self)) as [[|]|e]; try done.
  destruct (QueryResult_add (new self) new_ds) as [q|e] eqn:Ha; try done.
  assert (ledgers_in_new (set_new self q (_add_new_loop (level (old self))
            old_ds new_ds uid_elems (_new_to_old self) None).1)) as Hwf.
  { split; simpl.
    - by rewrite (level_add _ _ _ Ha).
    - intros u Hu. eapply add_keeps_uids; eauto. }
  destruct (_add_new_loop _ _ _ _ _ _) as [m [u|]]; exact Hwf.
Qed.

Lemma ledgers_in_new_init_loop (filt : AnyFilter Dataset)
    (records : list Dataset) self msgs self' :
  ledgers_in_new self ->
  FilterTransform_init_loop filt records self = (msgs, Ok self') ->
  ledgers_in_new self'.
Proof.
  revert self. induction records as [|old_ds records IH]; intros self Hwf; simpl.
  - by intros [= _ <-].
  - destruct (AnyFilter_call filt old_ds) as [new_ds|]; [|by apply IH].
    pose proof (ledgers_in_new_add_new self old_ds new_ds Hwf) as Hwf'.
    destruct (_add_new self old_ds new_ds) as [self1 [[u|]|[]]]; try done.
    by apply IH.
Qed.

Lemma ledgers_in_new_init (qr : QueryResult) (filt : AnyFilter Dataset)
    msgs self :
  FilterTransform_init qr filt = (msgs, Ok self) -> ledgers_in_new self.
Proof. apply ledgers_in_new_init_loop, ledgers_in_new_fresh. Qed.

Lemma ledgers_in_new_set_old self q :
  level q = level (old self) -> ledgers_in_new self ->
  ledgers_in_new (set_old self q).
Proof. intros Hq [Hl Hk]. split; simpl; [congruence|done]. Qed.

(** A successful [add] ends in the ledger update that follows a
    successful merge. *)
Lemma add_success self old_ds new_ds self' msgs :
  add self old_ds (Some new_ds) = (self', msgs, Ok tt) ->
  exists self1 (old_inconsistent old_dupe : bool) self2 new_uid,
    add_old self old_ds = Ok (self1, old_inconsistent, old_dupe) /\
    _add_new self1 old_ds new_ds = (self2, Ok (Some new_uid)) /\
    self' =
      if old_inconsistent then
        set_fixed_inconsistent self2 (<[new_uid := old_ds]> (fixed_inconsistent self2))
      else if old_dupe then
        set_fixed_duplicates self2 (<[new_uid := old_ds]> (fixed_duplicates self2))
      else self2.
Proof.
  unfold add.
  destruct (add_old self old_ds) as [[[self1 oi] od]|e] eqn:Hold; [|done].
  unfold add_new, rollback_and_raise.
  destruct (_add_new self1 old_ds new_ds) as [self2 [[u|]|e]] eqn:Hnew.
  - intros Hs. exists self1, oi, od, self2, u. split; [done|]. split; [done|].
    destruct oi; [|destruct od]; by simplify_eq.
  - destruct (negb od); [|done].
    by destruct (QueryResult_remove (old self2) old_ds).
  - destruct e; try done. destruct (negb oi); [|done].
    by destruct (QueryResult_remove (old self2) old_ds).
Qed.

Lemma ledgers_in_new_add self old_ds (new_ds : option Dataset) :
  ledgers_in_new self -> ledgers_in_new (add self old_ds new_ds).1.1.
Proof.
  intros Hwf. unfold add.
  destruct (add_old self old_ds) as [[[self1 oi] od]|e] eqn:Hold; [|done].
  assert (ledgers_in_new self1) as Hwf1.
  { apply add_old_cases in Hold
      as [(_ & _ & -> & _)|[(_ & _ & -> & _)|(_ & _ & _ & q & Ha & ->)]];
      try done.
    apply ledgers_in_new_set_old; [by eapply level_add|done]. }
  unfold add_new. destruct new_ds as [new_ds|]; [|done].
  pose proof (ledgers_in_new_add_new self1 old_ds new_ds Hwf1) as Hwf2.
  assert (forall msg e, ledgers_in_new (_add_new self1 old_ds new_ds).1 ->
            ledgers_in_new
              (rollback_and_raise (_add_new self1 old_ds new_ds).1 old_ds msg e).1.1)
    as Hroll.
  { intros msg e H. unfold rollback_and_raise.
    destruct (QueryResult_remove _ old_ds) as [q|e'] eqn:Hrm; simpl; [|done].
    apply ledgers_in_new_set_old; [by eapply level_remove|done]. }
  destruct (_add_new self1 old_ds new_ds) as [self2 [[u|]|e]] eqn:Hnew;
    simpl in Hwf2, Hroll.
  - apply _add_new_success in Hnew as (q & m & Hc & Ha & -> & -> & Hm).
    destruct Hwf1 as [Hl1 Hk1]. destruct Hwf2 as [Hl2 Hk2]. simpl in *.
    assert (get_uid (level (old self1)) new_ds ∈ uids_of q) as Hin
      by (rewrite <- Hl1; by eapply add_has_uid).
    destruct oi; [|destruct od]; simpl; [| |by split].
    + split; [done|]. simpl. intros u [Hu|Hu]; [by apply Hk2; left|].
      destruct (decide (u = get_uid (level (old self1)) new_ds)) as [->|Hne];
        [done|]. rewrite lookup_insert_ne in Hu by done. by apply Hk2; right.
    + split; [done|]. simpl. intros u [Hu|Hu]; [|by apply Hk2; right].
      destruct (decide (u = get_uid (level (old self1)) new_ds)) as [->|Hne];
        [done|]. rewrite lookup_insert_ne in Hu by done. by apply Hk2; left.
  - destruct (negb od); [by apply Hroll|done].
  - destruct e; try done. destruct (negb oi); [by apply Hroll|done].
Qed.

(** [add] keeps the level of [new] and the entries of the two ledgers:
    an identifier that keys a ledger is held by [new], so no later
    merge succeeds under it. *)
Lemma add_keeps_ledgers self old_ds (new_ds : option Dataset) :
  ledgers_in_new self ->
  level (new (add self old_ds new_ds).1.1) = level (new self) /\
  (forall u d, fixed_duplicates self !! u = Some d ->
     fixed_duplicates (add self old_ds new_ds).1.1 !! u = Some d) /\
  (forall u d, fixed_inconsistent self !! u = Some d ->
     fixed_duplicates self !! u = None ->
     fixed_inconsistent (add self old_ds new_ds).1.1 !! u = Some d /\
     fixed_duplicates (add self old_ds new_ds).1.1 !! u = None).
Proof.
  intros Hwf. unfold add.
  destruct (add_old self old_ds) as [[[self1 oi] od]|e] eqn:Hold; [|done].
  assert (new self1 = new self /\ level (old self1) = level (new self) /\
          fixed_duplicates self1 = fixed_duplicates self /\
          fixed_inconsistent self1 = fixed_inconsistent self)
    as (Hn1 & Hl1 & Hd1 & Hi1).
  { destruct Hwf as [Hl _].
    apply add_old_cases in Hold
      as [(_ & _ & -> & _)|[(_ & _ & -> & _)|(_ & _ & _ & q & Ha & ->)]];
      simpl; repeat split; try done.
    by rewrite (level_add _ _ _ Ha). }
  unfold add_new. destruct new_ds as [new_ds|]; simpl.
  2: { rewrite Hn1, Hd1, Hi1. by repeat split. }
  assert (forall self2 msg e,
            new self2 = new self1 -> fixed_duplicates self2 = fixed_duplicates self1 ->
            fixed_inconsistent self2 = fixed_inconsistent self1 ->
            let s := (rollback_and_raise self2 old_ds msg e).1.1 in
            new s = new self /\ fixed_duplicates s = fixed_duplicates self /\
            fixed_inconsistent s = fixed_inconsistent self) as Hroll.
  { intros self2 msg e H1 H2 H3. unfold rollback_and_raise.
    destruct (QueryResult_remove (old self2) old_ds); simpl; repeat split;
      congruence. }
  pose proof (_add_new_failure_unchanged self1 old_ds new_ds) as Hun.
  destruct (_add_new self1 old_ds new_ds) as [self2 [[k|]|e]] eqn:Hnew;
    simpl in Hun.
  - apply _add_new_success in Hnew as (q & m & Hc & Ha & -> & -> & Hm).
    apply not_member_fresh in Hc. rewrite Hn1, <- Hl1 in Hc.
    destruct Hwf as [_ Hk].
    assert (forall u, is_Some (fixed_duplicates self !! u)
                      \/ is_Some (fixed_inconsistent self !! u) ->
                      u <> get_uid (level (old self1)) new_ds) as Hne.
    { intros u Hu ->. by apply Hc, Hk. }
    split.
    { destruct oi; [|destruct od]; simpl;
        by rewrite (level_add _ _ _ Ha), Hn1. }
    split.
    + intros u d Hu.
      assert (u <> get_uid (level (old self1)) new_ds) by (apply Hne; left; eauto).
      destruct oi; [|destruct od]; simpl; rewrite ?Hd1; try done.
      by rewrite lookup_insert_ne.
    + intros u d Hu Hnd.
      assert (u <> get_uid (level (old self1)) new_ds) by (apply Hne; right; eauto).
      destruct oi; [|destruct od]; simpl; rewrite ?Hd1, ?Hi1;
        rewrite ?lookup_insert_ne by done; done.
  - rewrite Hun by auto. destruct (negb od).
    + destruct (Hroll self1 warn_duplicate DuplicateDataError) as (-> & -> & ->);
        done.
    + simpl. rewrite Hn1, Hd1, Hi1. done.
  - apply _add_new_raise_unchanged in Hnew as ->.
    assert (new self1 = new self /\ fixed_duplicates self1 = fixed_duplicates self
            /\ fixed_inconsistent self1 = fixed_inconsistent self) as (Ha & Hb & Hc)
      by done.
    destruct e; simpl; try (rewrite Ha, Hb, Hc; done).
    destruct (negb oi).
    + destruct (Hroll self1 warn_inconsistent InconsistentDataError)
        as (-> & -> & ->); done.
    + simpl. rewrite Ha, Hb, Hc. done.
Qed.

Lemma adds_keeps_ledgers self (calls : list (Dataset * option Dataset)) :
  ledgers_in_new self ->
  level (new (adds self calls)) = level (new self) /\
  (forall u d, fixed_duplicates self !! u = Some d ->
     fixed_duplicates (adds self calls) !! u = Some d) /\
  (forall u d, fixed_inconsistent self !! u = Some d ->
     fixed_duplicates self !! u = None ->
     fixed_inconsistent (adds self calls) !! u = Some d /\
     fixed_duplicates (adds self calls) !! u = None).
Proof.
  revert self. induction calls as [|[o n] calls IH]; intros self Hwf; [done|].
  unfold adds. simpl.
  destruct (add_keeps_ledgers self o n Hwf) as (Hl & Hd & Hi).
  destruct (IH _ (ledgers_in_new_add self o n Hwf)) as (Hl' & Hd' & Hi').
  unfold adds in *. split; [congruence|]. split.
  - intros u d Hu. by apply Hd', Hd.
  - intros u d Hu Hn. destruct (Hi u d Hu Hn). by apply Hi'.
Qed.

(** The two lists of the inversion loop only grow. *)
Lemma reverse_step_grows self new_qr acc ds acc' :
  reverse_step self new_qr acc ds = Ok acc' ->
  (forall d, d ∈ acc.1.2 -> d ∈ acc'.1.2) /\ (forall d, d ∈ acc.2 -> d ∈ acc'.2).
Proof.
  destruct acc as [[res inc] dup]. unfold reverse_step.
  destruct (QueryResult_contains ds (new self)) as [[|]|e]; try done.
  destruct (_new_to_old self (level new_qr) !! get_uid (level new_qr) ds)
    as [old_uid|]; [|done].
  assert (forall r, match sub_query (old self)
                (Build_DataNode (level new_qr) old_uid) (level new_qr) with
            | Raise e => Raise e
            | Ok sub => match QueryResult_ior res sub with
                        | Raise e => Raise e
                        | Ok res' => Ok (res', inc, dup)
                        end
            end = Ok r -> r.1.2 = inc /\ r.2 = dup) as Hfetch.
  { intros r. destruct (sub_query _ _ _) as [sub|e]; [|done].
    destruct (QueryResult_ior res sub) as [res'|e]; [|done].
    by intros [= <-]. }
  destruct (decide (level new_qr = level (new self))).
  - destruct (fixed_duplicates self !! _) as [d0|].
    { intros [= <-]; simpl. split; [done|]. intros d Hd. set_solver. }
    destruct (fixed_inconsistent self !! _) as [d0|].
    { intros [= <-]; simpl. split; [|done]. intros d Hd. set_solver. }
    intros H. apply Hfetch in H as [-> ->]. done.
  - intros H. apply Hfetch in H as [-> ->]. done.
Qed.

Lemma reverse_loop_grows self new_qr (records : list Dataset) acc acc' :
  reverse_loop self new_qr records acc = Ok acc' ->
  (forall d, d ∈ acc.1.2 -> d ∈ acc'.1.2) /\ (forall d, d ∈ acc.2 -> d ∈ acc'.2).
Proof.
  revert acc. induction records as [|ds records IH]; intros acc; simpl.
  - by intros [= <-].
  - destruct (reverse_step self new_qr acc ds) as [acc1|e] eqn:Hs; [|done].
    intros H. apply IH in H as [H1 H2].
    apply reverse_step_grows in Hs as [H3 H4]. split; auto.
Qed.

(** A record whose identifier keys [fixed_duplicates] goes to the list
    of duplicates; one whose identifier keys only [fixed_inconsistent]
    goes to the list of inconsistent records.  The collection under
    construction is left alone in both cases. *)
Lemma reverse_step_fixed self new_qr acc ds acc' :
  level new_qr = level (new self) ->
  reverse_step self new_qr acc ds = Ok acc' ->
  (forall d, fixed_duplicates self !! get_uid (level new_qr) ds = Some d ->
     acc' = (acc.1.1, acc.1.2, acc.2 ++ [d])) /\
  (forall d, fixed_duplicates self !! get_uid (level new_qr) ds = None ->
     fixed_inconsistent self !! get_uid (level new_qr) ds = Some d ->
     acc' = (acc.1.1, acc.1.2 ++ [d], acc.2)).
Proof.
  intros Hl. destruct acc as [[res inc] dup]. unfold reverse_step.
  destruct (QueryResult_contains ds (new self)) as [[|]|e]; try done.
  destruct (_new_to_old self (level new_qr) !! get_uid (level new_qr) ds)
    as [old_uid|]; [|done].
  rewrite decide_True by done.
  destruct (fixed_duplicates self !! _) as [d0|].
  { intros [= <-]. split; [by intros d [= <-]|done]. }
  destruct (fixed_inconsistent self !! _) as [d0|].
  { intros [= <-]. split; [done|by intros d _ [= <-]]. }
  intros _. split; done.
Qed.

Lemma reverse_loop_fixed self new_qr (records : list Dataset) acc acc' ds :
  level new_qr = level (new self) ->
  ds ∈ records ->
  reverse_loop self new_qr records acc = Ok acc' ->
  (forall d, fixed_duplicates self !! get_uid (level new_qr) ds = Some d ->
     d ∈ acc'.2) /\
  (forall d, fixed_duplicates self !! get_uid (level new_qr) ds = None ->
     fixed_inconsistent self !! get_uid (level new_qr) ds = Some d ->
     d ∈ acc'.1.2).
Proof.
  intros Hl. revert acc. induction records as [|ds' records IH]; intros acc Hin.
  - by apply elem_of_nil in Hin.
  - simpl. destruct (reverse_step self new_qr acc ds') as [acc1|e] eqn:Hs; [|done].
    intros Hloop. apply elem_of_cons in Hin as [->|Hin]; [|by eapply IH].
    apply reverse_step_fixed in Hs as [Hd Hi]; [|done].
    apply reverse_loop_grows in Hloop as [Hg1 Hg2]. split.
    + intros d Hf. apply Hg2. rewrite (Hd d Hf). simpl. set_solver.
    + intros d Hn Hf. apply Hg1. rewrite (Hi d Hn Hf). simpl. set_solver.
Qed.

(** What a successful [add] of a record that was already a duplicate,
    or already inconsistent, leaves in the engine. *)
Lemma add_success_fixed self old_ds new_ds self' msgs :
  ledgers_in_new self ->
  add self old_ds (Some new_ds) = (self', msgs, Ok tt) ->
  let new_uid := get_uid (level (new self')) new_ds in
  QueryResult_contains new_ds (new self') = Ok true /\
  is_Some (_new_to_old self' (level (new self')) !! new_uid) /\
  (QueryResult_contains old_ds (old self) = Ok true ->
     fixed_duplicates self' !! new_uid = Some old_ds) /\
  (QueryResult_contains old_ds (old self) = Raise InconsistentDataError ->
     fixed_duplicates self' !! new_uid = None /\
     fixed_inconsistent self' !! new_uid = Some old_ds).
Proof.
  intros Hwf Hadd.
  destruct (add_success _ _ _ _ _ Hadd)
    as (self1 & oi & od & self2 & u & Hold & Hnew & Hself').
  apply _add_new_success in Hnew as (q & m & Hc & Ha & -> & -> & Hm).
  assert (level (old self1) = level (new self1) /\
          fixed_duplicates self1 = fixed_duplicates self /\
          new self1 = new self /\
          (forall u, is_Some (fixed_duplicates self !! u) -> u ∈ uids_of (new self)))
    as (Hl1 & Hfd & Hn1 & Hk).
  { destruct Hwf as [Hl Hk].
    apply add_old_cases in Hold
      as [(_ & _ & -> & _)|[(_ & _ & -> & _)|(_ & _ & _ & q0 & Ha0 & ->)]];
      simpl; repeat split; auto.
    rewrite (level_add _ _ _ Ha0). done. }
  assert (level (new self') = level (old self1)) as Hl'.
  { rewrite Hself'. destruct oi; [|destruct od]; simpl;
      by rewrite (level_add _ _ _ Ha). }
  assert (new self' = q) as Hq
    by (rewrite Hself'; by destruct oi; [|destruct od]).
  assert (_new_to_old self' = m) as Hm'
    by (rewrite Hself'; by destruct oi; [|destruct od]).
  simpl. rewrite Hm', Hl', Hq. split; [by eapply add_member|].
  split; [by rewrite Hm|].
  apply add_old_cases in Hold
    as [(-> & -> & -> & Hco)|[(-> & -> & -> & Hco)|(-> & -> & Hco & q0 & Ha0 & ->)]];
    rewrite Hself'; simpl; (split; [intros Ht|intros Hi]); try congruence.
  - split; [|apply lookup_insert_eq].
    apply not_member_fresh in Hc. rewrite <- Hl1 in Hc.
    destruct (fixed_duplicates self !! _) eqn:Hfdu; [|done].
    destruct Hc. apply Hk. by rewrite Hfdu.
  - apply lookup_insert_eq.
Qed.

(** C5. When [add] succeeds for a record that was already a duplicate
    in [old] (respectively already inconsistent with [old]), the engine
    records it in [fixed_duplicates] (respectively [fixed_inconsistent])
    under the identifier of the new record.  A later [reverse], right
    after the call or after any further [add] calls, on a subset at the
    engine's level that holds a record with that identifier, returns
    the old record in the bundle's list of duplicates (respectively of
    inconsistent records) whenever it returns.  On the subset that
    holds just the new record it does return, and the bundle's
    consistent collection is the empty collection: the old record is
    not merged into it. *)
Theorem add_fixed_surfaces_in_reverse self old_ds new_ds self' msgs :
  ledgers_in_new self ->
  add self old_ds (Some new_ds) = (self', msgs, Ok tt) ->
  let new_uid := get_uid (level (new self')) new_ds in
  (QueryResult_contains old_ds (old self) = Ok true ->
     fixed_duplicates self' !! new_uid = Some old_ds /\
     (forall calls new_qr ds b,
        level new_qr = level (new (adds self' calls)) ->
        ds ∈ QueryResult_iter new_qr -> get_uid (level new_qr) ds = new_uid ->
        reverse (adds self' calls) new_qr = Ok b -> old_ds ∈ duplicate b) /\
     (forall new_qr,
        level new_qr = level (new self') -> QueryResult_iter new_qr = [new_ds] ->
        reverse self' new_qr =
          Ok {| qr := QueryResult_init (level new_qr);
                inconsistent := []; duplicate := [old_ds] |})) /\
  (QueryResult_contains old_ds (old self) = Raise InconsistentDataError ->
     fixed_inconsistent self' !! new_uid = Some old_ds /\
     (forall calls new_qr ds b,
        level new_qr = level (new (adds self' calls)) ->
        ds ∈ QueryResult_iter new_qr -> get_uid (level new_qr) ds = new_uid ->
        reverse (adds self' calls) new_qr = Ok b -> old_ds ∈ inconsistent b) /\
     (forall new_qr,
        level new_qr = level (new self') -> QueryResult_iter new_qr = [new_ds] ->
        reverse self' new_qr =
          Ok {| qr := QueryResult_init (level new_qr);
                inconsistent := [old_ds]; duplicate := [] |})).
Proof.
  intros Hwf Hadd new_uid.
  destruct (add_success_fixed _ _ _ _ _ Hwf Hadd) as (Hmem & Hmap & Hdup & Hinc).
  fold new_uid in Hmap, Hdup, Hinc.
  assert (ledgers_in_new self') as Hwf'.
  { pose proof (ledgers_in_new_add self old_ds (Some new_ds) Hwf) as H.
    by rewrite Hadd in H. }
  split.
  - intros Hc. specialize (Hdup Hc). split; [done|]. split.
    + intros calls new_qr ds b Hl Hin Hu.
      destruct (adds_keeps_ledgers self' calls Hwf') as (_ & Hkeep & _).
      rewrite (reverse_same_level _ _ Hl). unfold reverse_records.
      destruct (reverse_loop _ _ _ _) as [[[res inc] dup]|e] eqn:Hloop; [|done].
      intros [= <-]. simpl.
      eapply reverse_loop_fixed in Hloop as [H _]; [|done|done].
      apply H. rewrite Hu. by apply Hkeep.
    + intros new_qr Hl Hiter. rewrite (reverse_same_level _ _ Hl).
      unfold reverse_records.
      rewrite Hiter. simpl. unfold reverse_step. rewrite Hmem, Hl.
      fold new_uid. destruct Hmap as [old_uid ->].
      rewrite decide_True by done. by rewrite Hdup.
  - intros Hc. destruct (Hinc Hc) as [Hnd Hfi]. split; [done|]. split.
    + intros calls new_qr ds b Hl Hin Hu.
      destruct (adds_keeps_ledgers self' calls Hwf') as (_ & _ & Hkeep).
      destruct (Hkeep _ _ Hfi Hnd) as [Hfi' Hnd'].
      rewrite (reverse_same_level _ _ Hl). unfold reverse_records.
      destruct (reverse_loop _ _ _ _) as [[[res inc] dup]|e] eqn:Hloop; [|done].
      intros [= <-]. simpl.
      eapply reverse_loop_fixed in Hloop as [_ H]; [|done|done].
      apply H; by rewrite Hu.
    + intros new_qr Hl Hiter. rewrite (reverse_same_level _ _ Hl).
      unfold reverse_records.
      rewrite Hiter. simpl. unfold reverse_step. rewrite Hmem, Hl.
      fold new_uid. destruct Hmap as [old_uid ->].
      rewrite decide_True by done. by rewrite Hnd, Hfi.
Qed.

End FixedRecords.

(** ** Editing filters *)

Section EditFilterProperties.
Context {Dataset Value QueryResult : Type} `{!PydicomOps Dataset Value}
  `{!QueryResultOps Dataset QueryResult}.

Lemma _add_new_fully_invertible (self : FilterTransform Dataset QueryResult)
    (old_ds new_ds : Dataset) :
  fully_invertible (_add_new self old_ds new_ds).1 = fully_invertible self.
Proof.
  unfold _add_new.
  destruct (QueryResult_contains new_ds (new self)) as [[|]|e]; try done.
  destruct (QueryResult_add (new self) new_ds) as [q|e]; try done.
  by destruct (_add_new_loop _ _ _ _ _ _) as [m [u|]].
Qed.

(** Construction caches the filter's invertible identifiers. *)
Lemma FilterTransform_init_fully_invertible (qr : QueryResult)
    (filt : AnyFilter Dataset) msgs (self : FilterTransform Dataset QueryResult) :
  FilterTransform_init qr filt = (msgs, Ok self) ->
  fully_invertible self = invertible_uids (AnyFilter_base filt).
Proof.
  unfold FilterTransform_init.
  change (invertible_uids (AnyFilter_base filt))
    with (fully_invertible (FilterTransform_fresh qr filt)).
  generalize (FilterTransform_fresh qr filt).
  induction (QueryResult_iter qr) as [|old_ds records IH]; intros self0; simpl.
  - by intros [= _ <-].
  - destruct (AnyFilter_call filt old_ds) as [new_ds|]; [|apply IH].
    pose proof (_add_new_fully_invertible self0 old_ds new_ds) as Hfi.
    destruct (_add_new self0 old_ds new_ds) as [self1 [[u|]|[]]]; try done.
    intros H. apply IH in H. simpl in Hfi. congruence.
Qed.

(** C10, as the code has it.  Every filter made by [make_edit_filter]
    declares an empty invertible set.  With [update_uids] set, its
    write set is "all elements", so its invertible identifiers are
    empty, an engine built from it has an empty [fully_invertible], and
    every [reverse] at a coarser level is rejected.  With [update_uids]
    unset, its write set is the key set of the edit dictionary, and its
    invertible identifiers are the identifier attributes that are not
    keys of the dictionary. *)
Theorem make_edit_filter_invertible_uids
    (edit_dict : list (string * option Value)) (update_uids : bool)
    (uid_prefix : string) (add_uid_entropy : option (list ElemValue))
    (f : Filter Dataset) :
  make_edit_filter edit_dict update_uids uid_prefix add_uid_entropy = Ok f ->
  invertible_elems f = ∅ /\
  (update_uids = true ->
     write_elems f = AllElems /\
     invertible_uids f = ∅ /\
     forall (qr : QueryResult) msgs (self : FilterTransform Dataset QueryResult)
            (new_qr : QueryResult),
       FilterTransform_init qr (AFilter f) = (msgs, Ok self) ->
       fully_invertible self = ∅ /\
       (coarser (level new_qr) (level (new self)) ->
          reverse self new_qr = Raise QueryLevelMismatchError)) /\
  (update_uids = false ->
     write_elems f = Elems (list_to_set (edit_dict.*1)) /\
     invertible_uids f = uid_elem_set ∖ Elems (list_to_set (edit_dict.*1)) /\
     forall x, x ∈ invertible_uids f <-> x ∈ uid_elem_set /\ x ∉ edit_dict.*1).
Proof.
  unfold make_edit_filter.
  destruct (make_uid_update_cb uid_prefix add_uid_entropy) as [cb|e]; [|done].
  destruct update_uids.
  - rewrite bool_decide_eq_false_2 by done. intros [= <-].
    assert (invertible_uids
              (Filter_init (edit_func edit_dict true cb) None
                 (Some (FrozenLazySet AllElems)) None) = ∅) as Hempty.
    { unfold invertible_uids, uninvertible_elems, uid_elem_set, FrozenLazySet.
      simpl. unfold difference, LazySet_diff_inst, empty, LazySet_empty_inst.
      simpl. unfold LazySet_empty. f_equal; set_solver. }
    split; [done|]. split; [|done]. intros _.
    split; [done|]. split; [exact Hempty|].
    intros qr msgs self new_qr Hinit.
    apply FilterTransform_init_fully_invertible in Hinit.
    cbn [AnyFilter_base] in Hinit. rewrite Hempty in Hinit.
    split; [done|]. intros Hc.
    unfold reverse, reverse_level_mismatch.
    rewrite bool_decide_eq_true_2 by (by apply coarser_neq).
    by rewrite (coarser_not_gt _ _ Hc), Hinit.
  - rewrite bool_decide_eq_true_2 by done. intros [= <-].
    assert (invertible_uids
              (Filter_init (edit_func edit_dict false cb) None
                 (Some (FrozenLazySet (Elems (list_to_set (edit_dict.*1))))) None)
            = uid_elem_set ∖ Elems (list_to_set (edit_dict.*1))) as Heq.
    { unfold invertible_uids, uninvertible_elems, uid_elem_set, FrozenLazySet.
      simpl. unfold difference, LazySet_diff_inst. simpl. f_equal; set_solver. }
    split; [done|]. split; [done|]. intros _.
    split; [done|]. split; [exact Heq|]. intros x. rewrite Heq.
    rewrite elem_of_LazySet_diff.
    assert (x ∈ Elems (list_to_set (edit_dict.*1)) <-> x ∈ edit_dict.*1) as Hk
      by apply elem_of_list_to_set.
    by rewrite Hk.
Qed.

End EditFilterProperties.

(** ** The concrete record store meets the contracts *)

Lemma Store_conflict_refl (lvl : QueryLevel) (ds : Store.Dataset) :
  Store.conflict lvl ds ds = false.
Proof.
  unfold Store.conflict. apply not_true_iff_false. intros H.
  apply existsb_exists in H as (k & _ & Hk).
  apply andb_true_iff in Hk as [_ Hk]. by rewrite bool_decide_eq_true_2 in Hk.
Qed.

Lemma Store_level_in_levels_to (lvl : QueryLevel) : In lvl (Store.levels_to lvl).
Proof. destruct lvl; simpl; auto. Qed.

Lemma Store_path_uid (lvl : QueryLevel) (ds e : Store.Dataset) :
  Store.path lvl e = Store.path lvl ds -> Store.uid_at lvl e = Store.uid_at lvl ds.
Proof. destruct lvl; unfold Store.path; simpl; intros H; by simplify_eq. Qed.

Lemma Store_contains_true (ds : Store.Dataset) (q : Store.QueryResult) :
  Store.contains ds q = Ok true ->
  exists e, In e (Store.qr_items q) /\
    Store.path (Store.qr_level q) e = Store.path (Store.qr_level q) ds.
Proof.
  unfold Store.contains. destruct (existsb (Store.conflict _ ds) _); [done|].
  intros [= H]. apply existsb_exists in H as (e & He & Hs). exists e.
  split; [done|]. by apply bool_decide_eq_true in Hs.
Qed.

Lemma Store_contains_false (ds : Store.Dataset) (q : Store.QueryResult) :
  Store.contains ds q = Ok false ->
  forall e, In e (Store.qr_items q) ->
    Store.uid_at (Store.qr_level q) e <> Store.uid_at (Store.qr_level q) ds.
Proof.
  unfold Store.contains.
  destruct (existsb (Store.conflict _ ds) _) eqn:Hc; [done|].
  intros [= Hs] e He Hu.
  assert (Store.conflict (Store.qr_level q) ds e = false) as Hce.
  { apply not_true_iff_false. intros Ht.
    apply not_true_iff_false in Hc. apply Hc, existsb_exists. eauto. }
  assert (Store.same_node (Store.qr_level q) ds e = false) as Hse.
  { apply not_true_iff_false. intros Ht.
    apply not_true_iff_false in Hs. apply Hs, existsb_exists. eauto. }
  apply bool_decide_eq_false in Hse. apply Hse.
  destruct (decide (Store.path (Store.qr_level q) e
                    = Store.path (Store.qr_level q) ds)) as [|Hne]; [done|].
  apply not_true_iff_false in Hce. destruct Hce.
  apply existsb_exists. exists (Store.qr_level q).
  split; [apply Store_level_in_levels_to|].
  apply andb_true_iff. split; [by apply bool_decide_eq_true|].
  apply negb_true_iff, bool_decide_eq_false. congruence.
Qed.

Lemma Store_laws : QueryResultLaws Store.Dataset Store.QueryResult.
Proof.
  split.
  - intros q ds Hc. simpl in *. unfold Store.remove. rewrite Hc. eauto.
  - intros q ds q'. simpl. unfold Store.add.
    destruct (Store.contains ds q) as [[|]|e] eqn:Hc; try done.
    + by intros [= <-].
    + intros [= <-]. unfold Store.contains in *. simpl.
      destruct (existsb (Store.conflict _ ds) (Store.qr_items q)) eqn:Hx; [done|].
      rewrite !existsb_app, Hx. simpl. rewrite Store_conflict_refl. simpl.
      f_equal. rewrite orb_true_iff. right. rewrite orb_true_iff. left.
      by apply bool_decide_eq_true.
  - intros q ds q'. simpl. unfold Store.remove.
    destruct (Store.contains ds q) as [[|]|e] eqn:Hc; try done.
    intros [= <-] Ht. apply Store_contains_true in Ht as (e & He & Hp).
    simpl in He, Hp. apply filter_In in He as [_ He].
    apply negb_true_iff, bool_decide_eq_false in He. done.
Qed.

Lemma Store_uid_laws : QueryResultUidLaws Store.Dataset Store.QueryResult.
Proof.
  split.
  - done.
  - intros q ds q'. simpl. unfold Store.add.
    destruct (Store.contains ds q) as [[|]|e]; try done; by intros [= <-].
  - intros q ds q'. simpl. unfold Store.remove.
    destruct (Store.contains ds q) as [[|]|e]; try done; by intros [= <-].
  - intros q ds Hc Hin. unfold uids_of in Hin. simpl in *.
    apply list_elem_of_fmap in Hin as (e & Hu & He).
    apply list_elem_of_In in He.
    by apply (Store_contains_false _ _ Hc e He).
  - intros q ds q' u. unfold uids_of. simpl. unfold Store.add.
    destruct (Store.contains ds q) as [[|]|e]; try done; intros [= <-]; [done|].
    simpl. rewrite fmap_app. set_solver.
  - intros q ds q'. unfold uids_of. simpl. unfold Store.add.
    destruct (Store.contains ds q) as [[|]|e] eqn:Hc; try done; intros [= <-].
    + apply Store_contains_true in Hc as (e & He & Hp).
      apply list_elem_of_fmap. exists e. split.
      * symmetry. by apply Store_path_uid.
      * by apply list_elem_of_In.
    + simpl. rewrite fmap_app. set_solver.
Qed.

(** ** The engine on explicit data *)

(** A construction that returns, returns the engine [Store.built]
    names. *)
Lemma Store_built_init (qr : Store.QueryResult) (filt : AnyFilter Store.Dataset) :
  (if (FilterTransform_init qr filt).2 is Ok _ then true else false) = true ->
  FilterTransform_init qr filt =
    ((FilterTransform_init qr filt).1, Ok (Store.built qr filt)).
Proof.
  unfold Store.built. by destruct (FilterTransform_init qr filt) as [msgs [self|e]].
Qed.

Lemma Store_engine_ledgers : ledgers_in_new Store.engine.
Proof.
  refine (@ledgers_in_new_init _ _ _ Store_laws Store_uid_laws _ _ _ _
            (Store_built_init Store.source (AFilter Store.remap) _)).
  vm_compute. reflexivity.
Qed.

(** C1 on explicit data: adding [img2] with a filtered record that
    [new] already holds raises [DuplicateDataError] after the warning,
    adding it with a filtered record that is inconsistent with [new]
    raises [InconsistentDataError] after the warning, and [img2] is not
    a member of [old] after either call. *)
Lemma add_failure_rolls_back_witness :
  let out := add Store.engine Store.img2 (Some Store.new1) in
  let out' := add Store.engine Store.img2 (Some Store.clash_new) in
  (QueryResult_contains Store.img2 (old out.1.1) <> Ok true /\
   out.2 = Raise DuplicateDataError /\
   out.1.2 = [warn_duplicate]) /\
  (QueryResult_contains Store.img2 (old out'.1.1) <> Ok true /\
   out'.2 = Raise InconsistentDataError /\
   out'.1.2 = [warn_inconsistent]).
Proof.
  set (self1 := match add_old Store.engine Store.img2 with
                | Ok (s, _, _) => s
                | Raise _ => Store.engine
                end).
  assert (match add_old Store.engine Store.img2 with
          | Ok (_, oi, od) => oi = false /\ od = false
          | Raise _ => False
          end) as Hflags by (vm_compute; auto).
  assert (add_old Store.engine Store.img2 = Ok (self1, false, false)) as Hold.
  { unfold self1.
    destruct (add_old Store.engine Store.img2) as [[[s oi] od]|e]; [|done].
    by destruct Hflags as [-> ->]. }
  intros out out'.
  assert (add Store.engine Store.img2 (Some Store.new1)
          = (out.1.1, out.1.2, out.2)) as Hadd
    by (unfold out; by destruct (add _ _ _) as [[? ?] ?]).
  assert (add Store.engine Store.img2 (Some Store.clash_new)
          = (out'.1.1, out'.1.2, out'.2)) as Hadd'
    by (unfold out'; by destruct (add _ _ _) as [[? ?] ?]).
  pose proof (@add_failure_rolls_back _ _ _ Store_laws _ _ _ _ _ _ _ _ _ Hold Hadd)
    as [Hdup _].
  pose proof (@add_failure_rolls_back _ _ _ Store_laws _ _ _ _ _ _ _ _ _ Hold Hadd')
    as [_ Hinc].
  destruct Hdup as [_ Hdup]; [vm_compute; reflexivity|].
  destruct (Hdup eq_refl) as [Hn Hr]. destruct (Hr eq_refl) as [Hr1 Hr2].
  destruct Hinc as [_ Hinc]; [vm_compute; reflexivity|].
  destruct (Hinc eq_refl) as [Hn' Hr']. destruct (Hr' eq_refl) as [Hr1' Hr2'].
  split; (split; [assumption|]); split; assumption.
Defined.

(** A run of the construction loop that returns without a warning,
    with the engine it returns. *)
Lemma Store_init_loop_ok (filt : AnyFilter Store.Dataset)
    (records : list Store.Dataset)
    (self : FilterTransform Store.Dataset Store.QueryResult) :
  match FilterTransform_init_loop filt records self with
  | (msgs, Ok _) => msgs = []
  | (_, Raise _) => False
  end ->
  FilterTransform_init_loop filt records self =
    ([], Ok match (FilterTransform_init_loop filt records self).2 with
            | Ok self1 => self1
            | Raise _ => self
            end).
Proof.
  destruct (FilterTransform_init_loop _ _ _) as [msgs [self1|e]]; [|done].
  by intros ->.
Qed.

(** C8 on explicit data: over the two images, [collapse] produces a
    duplicate at the second image and [reparent] an inconsistent record;
    construction logs the warning and raises. *)
Lemma FilterTransform_init_failure_witness :
  FilterTransform_init Store.pair_source (AFilter Store.collapse) =
    ([warn_duplicate], Raise DuplicateDataError) /\
  FilterTransform_init Store.pair_source (AFilter Store.reparent) =
    ([warn_inconsistent], Raise InconsistentDataError).
Proof.
  split.
  - assert (FilterTransform_init_loop (AFilter Store.collapse) [Store.img1]
              (FilterTransform_fresh Store.pair_source (AFilter Store.collapse))
            = ([], Ok _)) as Hpre
      by (apply Store_init_loop_ok; vm_compute; reflexivity).
    pose proof (FilterTransform_init_failure Store.pair_source
                  (AFilter Store.collapse) [Store.img1] [] Store.img2
                  (Store.setattr Store.img2 "SOPInstanceUID" "X") [] _
                  eq_refl Hpre eq_refl) as [H _].
    apply H. vm_compute. reflexivity.
  - assert (FilterTransform_init_loop (AFilter Store.reparent) [Store.img1]
              (FilterTransform_fresh Store.pair_source (AFilter Store.reparent))
            = ([], Ok _)) as Hpre
      by (apply Store_init_loop_ok; vm_compute; reflexivity).
    pose proof (FilterTransform_init_failure Store.pair_source
                  (AFilter Store.reparent) [Store.img1] [] Store.img2
                  (Store.setattr Store.img2 "PatientID" "I2") [] _
                  eq_refl Hpre eq_refl) as [_ H].
    apply H. vm_compute. reflexivity.
Defined.

(** C5 on explicit data: [img1] is already held by [old], and [stray]
    is inconsistent with [old]; each is added with a filtered record
    that [new] accepts, and [reverse] on the subset holding that new
    record returns the old record in the list of duplicates,
    respectively of inconsistent records, with nothing merged. *)
Lemma add_fixed_surfaces_in_reverse_witness :
  let out := add Store.engine Store.img1 (Some Store.fresh_new) in
  let out' := add Store.engine Store.stray (Some Store.stray_new) in
  (out.2 = Ok tt /\
   reverse out.1.1 (Store.collection IMAGE [Store.fresh_new]) =
     Ok {| qr := Store.collection IMAGE [];
           inconsistent := []; duplicate := [Store.img1] |}) /\
  (out'.2 = Ok tt /\
   reverse out'.1.1 (Store.collection IMAGE [Store.stray_new]) =
     Ok {| qr := Store.collection IMAGE [];
           inconsistent := [Store.stray]; duplicate := [] |}).
Proof.
  intros out out'.
  assert (out.2 = Ok tt) as Hr by (vm_compute; reflexivity).
  assert (out'.2 = Ok tt) as Hr' by (vm_compute; reflexivity).
  assert (add Store.engine Store.img1 (Some Store.fresh_new)
          = (out.1.1, out.1.2, Ok tt)) as Hadd.
  { rewrite <- Hr. unfold out. by destruct (add _ _ _) as [[? ?] ?]. }
  assert (add Store.engine Store.stray (Some Store.stray_new)
          = (out'.1.1, out'.1.2, Ok tt)) as Hadd'.
  { rewrite <- Hr'. unfold out'. by destruct (add _ _ _) as [[? ?] ?]. }
  pose proof (@add_fixed_surfaces_in_reverse _ _ _ Store_laws Store_uid_laws
                _ _ _ _ _ Store_engine_ledgers Hadd) as [Hdup _].
  pose proof (@add_fixed_surfaces_in_reverse _ _ _ Store_laws Store_uid_laws
                _ _ _ _ _ Store_engine_ledgers Hadd') as [_ Hinc].
  destruct Hdup as (_ & _ & Hdup); [vm_compute; reflexivity|].
  destruct Hinc as (_ & _ & Hinc); [vm_compute; reflexivity|].
  split; (split; [assumption|]).
  - apply Hdup; [vm_compute; reflexivity|reflexivity].
  - apply Hinc; [vm_compute; reflexivity|reflexivity].
Defined.

(** C10 on explicit data: an editing filter that updates identifiers
    has no invertible identifier. *)
Lemma make_edit_filter_invertible_uids_witness :
  exists f : Filter Store.Dataset,
    make_edit_filter [("PatientName", Some "Anon")] true "2.25" None = Ok f /\
    invertible_elems f = ∅ /\ write_elems f = AllElems /\ invertible_uids f = ∅.
Proof.
  eexists. split; [reflexivity|].
  pose proof (make_edit_filter_invertible_uids (QueryResult := Store.QueryResult)
                [("PatientName", Some "Anon")] true "2.25" None _ eq_refl)
    as (H1 & H2 & _).
  destruct (H2 eq_refl) as (H3 & H4 & _). by repeat split.
Defined.

(** C2 as stated fails: an engine at the study level whose filter
    leaves every identifier invertible rejects a request at the finer
    image level with the level-mismatch error. *)
Lemma reverse_finer_level_rejected :
  (FilterTransform_init Store.study_source (AFilter Store.keep)).2 =
    Ok Store.study_engine /\
  finer (level (Store.collection IMAGE [])) (level (new Store.study_engine)) /\
  "StudyInstanceUID" ∈ fully_invertible Store.study_engine /\
  reverse Store.study_engine (Store.collection IMAGE []) =
    Raise QueryLevelMismatchError.
Proof.
  split.
  { rewrite (Store_built_init Store.study_source (AFilter Store.keep));
      [reflexivity|vm_compute; reflexivity]. }
  split; [vm_compute; reflexivity|]. split; vm_compute; reflexivity.
Qed.

(** C10 as stated fails: an editing filter that does not update
    identifiers declares no invertible element, yet every identifier
    attribute that it does not edit is an invertible identifier; the
    engine built from it has a non-empty [fully_invertible] and goes on
    to invert a request at a coarser level. *)
Lemma make_edit_filter_keeps_invertible_uids :
  make_edit_filter [("PatientName", Some "Anon")] false "2.25" None =
    Ok Store.edit_name /\
  invertible_elems Store.edit_name = ∅ /\
  "StudyInstanceUID" ∈ invertible_uids Store.edit_name /\
  (FilterTransform_init Store.source (AFilter Store.edit_name)).2 =
    Ok Store.edit_engine /\
  "StudyInstanceUID" ∈ fully_invertible Store.edit_engine /\
  coarser (level (Store.collection STUDY [])) (level (new Store.edit_engine)) /\
  reverse Store.edit_engine (Store.collection STUDY []) =
    Ok {| qr := Store.collection STUDY []; inconsistent := []; duplicate := [] |}.
Proof.
  split; [reflexivity|]. split; [reflexivity|].
  split; [vm_compute; reflexivity|].
  split.
  { rewrite (Store_built_init Store.source (AFilter Store.edit_name));
      [reflexivity|vm_compute; reflexivity]. }
  split; [vm_compute; reflexivity|].
  split; vm_compute; reflexivity.
Qed.

(** * Further properties of [dcm/filt.py] *)

(** ** Filters and chains *)

Section MoreFilterProperties.
Context {Dataset : Type}.

Implicit Types (f g : Filter Dataset) (fs : list (Filter Dataset)).

Lemma MultiFilter_init_filters fs : filters (MultiFilter_init fs) = fs.
Proof.
  unfold MultiFilter_init. by destruct (foldl post_init_step _ fs) as [[[? ?] ?] ?].
Qed.

Lemma MultiFilter_run_app fs1 fs2 (ds : Dataset) :
  MultiFilter_run (fs1 ++ fs2) ds = MultiFilter_run fs1 ds ≫= MultiFilter_run fs2.
Proof.
  revert ds. induction fs1 as [|f fs1 IH]; intros ds; simpl; [done|].
  destruct (Filter_call f ds) as [ds'|]; [apply IH|done].
Qed.

(** X1. Calling a chain composes its members: the chain over
    [fs1 ++ fs2] gives the data set to the chain over [fs1] and the
    result to the chain over [fs2]; once a member drops the data set
    the rest of the chain is not consulted, and a chain with no member
    returns the data set as it is. *)
Theorem MultiFilter_call_composes fs1 fs2 (ds : Dataset) :
  MultiFilter_call (MultiFilter_init (fs1 ++ fs2)) ds =
    MultiFilter_call (MultiFilter_init fs1) ds
      ≫= MultiFilter_call (MultiFilter_init fs2) /\
  (forall f, func f ds = None ->
     MultiFilter_call (MultiFilter_init (f :: fs2)) ds = None) /\
  MultiFilter_call (MultiFilter_init []) ds = Some ds.
Proof.
  unfold MultiFilter_call. rewrite !MultiFilter_init_filters. split; [|split].
  - apply MultiFilter_run_app.
  - intros f Hf. rewrite MultiFilter_init_filters. simpl.
    unfold Filter_call. by rewrite Hf.
  - done.
Qed.

Lemma elem_of_LazySet_unions_fmap fs (sel : Filter Dataset -> LazySet)
    (x : string) :
  x ∈ LazySet_unions (sel <$> fs) <-> exists f, f ∈ fs /\ x ∈ sel f.
Proof.
  rewrite elem_of_LazySet_unions. split.
  - intros (s & Hs & Hx). apply list_elem_of_fmap in Hs as (f & -> & Hf). eauto.
  - intros (f & Hf & Hx). exists (sel f). split; [|done].
    apply list_elem_of_fmap. eauto.
Qed.

Lemma elem_of_MultiFilter_init fs (x : string) :
  (x ∈ read_elems (MultiFilter_init fs) <-> exists f, f ∈ fs /\ x ∈ read_elems f) /\
  (x ∈ write_elems (MultiFilter_init fs) <-> exists f, f ∈ fs /\ x ∈ write_elems f) /\
  (x ∈ invertible_elems (MultiFilter_init fs) <->
     (exists f, f ∈ fs /\ x ∈ invertible_elems f) /\
     ~ exists f, f ∈ fs /\ x ∈ uninvertible_elems f).
Proof.
  destruct (MultiFilter_init_sets fs) as (Hr & Hw & Hi).
  rewrite Hr, Hw, Hi, elem_of_LazySet_diff, !elem_of_LazySet_unions_fmap. done.
Qed.

(** X2. The invertible identifiers of a chain are the identifiers
    that are invertible for every member; what the chain cannot invert
    is what some member writes without declaring it invertible. *)
Theorem MultiFilter_invertible_uids_all_members fs (x : string) :
  (x ∈ uninvertible_elems (MultiFilter_init fs) <->
     exists f, f ∈ fs /\ x ∈ uninvertible_elems f) /\
  (x ∈ invertible_uids (MultiFilter_init fs) <->
     x ∈ uid_elem_set /\ forall f, f ∈ fs -> x ∈ invertible_uids f).
Proof.
  destruct (elem_of_MultiFilter_init fs x) as (_ & Hw & Hi).
  assert (x ∈ uninvertible_elems (MultiFilter_init fs) <->
          exists f, f ∈ fs /\ x ∈ uninvertible_elems f) as Hun.
  { unfold uninvertible_elems at 1. rewrite elem_of_LazySet_diff, Hw, Hi. split.
    - intros [(f & Hf & Hx) Hn].
      destruct (decide (x ∈ LazySet_unions
                          ((fun f => uninvertible_elems f) <$> fs))) as [HU|HU];
        rewrite elem_of_LazySet_unions_fmap in HU; [done|].
      destruct (decide (x ∈ invertible_elems f)) as [Hxi|Hxi].
      + destruct Hn. split; [eauto|done].
      + destruct HU. exists f. split; [done|]. by apply elem_of_LazySet_diff.
    - intros (f & Hf & Hx). split.
      + exists f. split; [done|]. by apply elem_of_LazySet_diff in Hx as [? _].
      + intros [_ Hn]. apply Hn. eauto. }
  split; [exact Hun|].
  unfold invertible_uids at 1. rewrite elem_of_LazySet_diff, Hun. split.
  - intros [Hu Hn]. split; [done|]. intros f Hf.
    unfold invertible_uids. apply elem_of_LazySet_diff. split; [done|]. eauto.
  - intros [Hu Hall]. split; [done|]. intros (f & Hf & Hx).
    specialize (Hall f Hf). unfold invertible_uids in Hall.
    by apply elem_of_LazySet_diff in Hall as [_ Hall].
Qed.

Lemma dependencies_fold_monotone fs (elems elems' : LazySet)
    (acc acc' : list (Dataset -> option Dataset) * LazySet) :
  (forall x, x ∈ elems -> x ∈ elems') ->
  acc.1 `sublist_of` acc'.1 -> (forall x, x ∈ acc.2 -> x ∈ acc'.2) ->
  (foldl (dependencies_step elems) acc fs).1
    `sublist_of` (foldl (dependencies_step elems') acc' fs).1 /\
  (forall x, x ∈ (foldl (dependencies_step elems) acc fs).2 ->
             x ∈ (foldl (dependencies_step elems') acc' fs).2).
Proof.
  intros Hsub. revert acc acc'.
  induction fs as [|f fs IH]; intros [funcs dep] [funcs' dep'] Hf Hd; [done|].
  simpl in Hf, Hd. cbn [foldl]. apply IH; unfold dependencies_step.
  - destruct (LazySet_bool (dep ∩ write_elems f)
              || LazySet_bool (elems ∩ write_elems f)) eqn:Ht;
    destruct (LazySet_bool (dep' ∩ write_elems f)
              || LazySet_bool (elems' ∩ write_elems f)) eqn:Ht'; simpl.
    + by apply sublist_app.
    + exfalso. apply orb_true_iff in Ht. apply orb_false_iff in Ht' as [H1 H2].
      rewrite LazySet_bool_false in H1, H2.
      destruct Ht as [Ht|Ht]; apply LazySet_bool_spec in Ht as [x Hx];
        apply elem_of_LazySet_inter in Hx as [Hx Hw].
      * apply (H1 x), elem_of_LazySet_inter. auto.
      * apply (H2 x), elem_of_LazySet_inter. auto.
    + by apply sublist_inserts_r.
    + done.
  - destruct (LazySet_bool (dep ∩ write_elems f)
              || LazySet_bool (elems ∩ write_elems f)) eqn:Ht;
    destruct (LazySet_bool (dep' ∩ write_elems f)
              || LazySet_bool (elems' ∩ write_elems f)) eqn:Ht'; simpl;
      intros x; rewrite ?elem_of_LazySet_union; try tauto; auto.
    + intros [?|?]; auto.
    + exfalso. apply orb_true_iff in Ht. apply orb_false_iff in Ht' as [H1 H2].
      rewrite LazySet_bool_false in H1, H2.
      destruct Ht as [Ht|Ht]; apply LazySet_bool_spec in Ht as [y Hy];
        apply elem_of_LazySet_inter in Hy as [Hy Hw].
      * apply (H1 y), elem_of_LazySet_inter. auto.
      * apply (H2 y), elem_of_LazySet_inter. auto.
Qed.

Lemma dependencies_fold_bounds fs (elems : LazySet)
    (acc : list (Dataset -> option Dataset) * LazySet) :
  (foldl (dependencies_step elems) acc fs).1
    `sublist_of` acc.1 ++ (func <$> fs) /\
  (forall x, x ∈ (foldl (dependencies_step elems) acc fs).2 ->
             x ∈ acc.2 \/ exists f, f ∈ fs /\ x ∈ read_elems f).
Proof.
  revert acc. induction fs as [|f fs IH]; intros [funcs dep].
  - simpl. rewrite app_nil_r. auto.
  - cbn [foldl]. destruct (IH (dependencies_step elems (funcs, dep) f)) as [H1 H2].
    unfold dependencies_step in *.
    destruct (LazySet_bool (dep ∩ write_elems f)
              || LazySet_bool (elems ∩ write_elems f)); simpl in *.
    + split.
      * by rewrite <- app_assoc in H1.
      * intros x Hx. destruct (H2 x Hx) as [Hu|(g & Hg & Hr)].
        -- apply elem_of_LazySet_union in Hu as [?|?]; [by left|].
           right. exists f. split; [by left|done].
        -- right. exists g. split; [by right|done].
    + split.
      * etrans; [exact H1|]. apply sublist_app; [done|]. by apply sublist_cons.
      * intros x Hx. destruct (H2 x Hx) as [Hu|(g & Hg & Hr)]; [by left|].
        right. exists g. split; [by right|done].
Qed.

(** X3. Dependency pruning is monotone in the request: when every
    requested element is also requested in a larger request, the
    functions selected for the smaller request are, in order, among
    those selected for the larger one, and so are the read needs.  The
    selected functions are, in order, among the chain's functions, and
    the read needs lie within the chain's aggregate read set. *)
Theorem MultiFilter_get_dependencies_monotone fs (elems elems' : LazySet) :
  (forall x, x ∈ elems -> x ∈ elems') ->
  let small := MultiFilter_get_dependencies (MultiFilter_init fs) elems in
  let large := MultiFilter_get_dependencies (MultiFilter_init fs) elems' in
  small.1 `sublist_of` large.1 /\
  (forall x, x ∈ small.2 -> x ∈ large.2) /\
  large.1 `sublist_of` (func <$> fs) /\
  (forall x, x ∈ large.2 -> x ∈ read_elems (MultiFilter_init fs)).
Proof.
  intros Hsub. unfold MultiFilter_get_dependencies, FrozenLazySet.
  rewrite MultiFilter_init_filters.
  destruct (dependencies_fold_monotone fs elems elems' ([], LazySet_empty)
              ([], LazySet_empty) Hsub) as [Hm1 Hm2]; [done|done|].
  destruct (dependencies_fold_bounds fs elems' ([], LazySet_empty)) as [Hb1 Hb2].
  destruct (foldl (dependencies_step elems) _ fs) as [funcs dep].
  destruct (foldl (dependencies_step elems') _ fs) as [funcs' dep'].
  simpl in *. repeat split; try done.
  intros x Hx. destruct (Hb2 x Hx) as [He|Hex].
  - by apply elem_of_LazySet_empty in He.
  - by apply (elem_of_MultiFilter_init fs x).
Qed.

(** X4. When no member of the chain writes a requested element,
    nothing is selected: the result is the empty list of functions
    with the empty set of read needs, whatever the members read. *)
Theorem MultiFilter_get_dependencies_nothing (self : MultiFilter Dataset)
    (elems : LazySet) :
  (forall f x, f ∈ filters self -> x ∈ elems -> x ∉ write_elems f) ->
  MultiFilter_get_dependencies self elems = ([], ∅).
Proof.
  intros Hdis. unfold MultiFilter_get_dependencies, FrozenLazySet.
  assert (foldl (dependencies_step elems) ([], LazySet_empty) (filters self)
          = ([], LazySet_empty)) as ->; [|done].
  induction (filters self) as [|f fs IH]; [done|].
  cbn [foldl]. unfold dependencies_step at 2.
  assert (LazySet_bool (LazySet_empty ∩ write_elems f) = false) as ->.
  { apply LazySet_bool_false. intros x Hx.
    apply elem_of_LazySet_inter in Hx as [Hx _].
    by apply elem_of_LazySet_empty in Hx. }
  assert (LazySet_bool (elems ∩ write_elems f) = false) as ->.
  { apply LazySet_bool_false. intros x Hx.
    apply elem_of_LazySet_inter in Hx as [Hx Hw].
    apply (Hdis f x); [by left|done|done]. }
  simpl. apply IH. intros g x Hg. apply Hdis. by right.
Qed.

Lemma LazySet_union_absorb (s t : LazySet) : (s ∪ t) ∪ t = s ∪ t.
Proof.
  destruct s as [a|a], t as [b|b];
    unfold union, LazySet_union_inst; simpl; f_equal; set_solver.
Qed.

(** X5. Constructing a filter again from the sets it stores gives the
    same filter: the widening of the write set happens once. *)
Theorem Filter_init_idempotent (fn : Dataset -> option Dataset)
    (read write invertible : option LazySet) :
  let f := Filter_init fn read write invertible in
  Filter_init (func f) (Some (read_elems f)) (Some (write_elems f))
    (Some (invertible_elems f)) = f.
Proof.
  intros f. unfold f, Filter_init, FrozenLazySet. simpl.
  destruct (LazySet_bool (default ∅ invertible)); [|done].
  by rewrite LazySet_union_absorb.
Qed.

(** X6. The invertible identifiers of a constructed filter, in terms
    of the sets it was given: an identifier attribute is invertible iff
    it is outside the given write set or inside the given invertible
    set.  The widening of the write set costs no invertible identifier,
    and a filter constructed without any declaration has none. *)
Theorem Filter_init_invertible_uids (fn : Dataset -> option Dataset)
    (read write invertible : option LazySet) (x : string) :
  (x ∈ invertible_uids (Filter_init fn read write invertible) <->
     x ∈ uid_elem_set /\
     (x ∉ default AllElems write \/ x ∈ default (∅ : LazySet) invertible)) /\
  x ∉ invertible_uids (Filter_init fn None None None).
Proof.
  assert (forall w i : option LazySet,
            x ∈ invertible_uids (Filter_init fn read w i) <->
            x ∈ uid_elem_set /\
            (x ∉ default AllElems w \/ x ∈ default (∅ : LazySet) i)) as H.
  { intros w i. unfold invertible_uids, uninvertible_elems, Filter_init,
      FrozenLazySet. simpl.
    destruct (LazySet_bool (default ∅ i)) eqn:Hb;
      rewrite !elem_of_LazySet_diff, ?elem_of_LazySet_union.
    - destruct (decide (x ∈ default AllElems w)),
        (decide (x ∈ default (∅ : LazySet) i)); tauto.
    - rewrite LazySet_bool_false in Hb. specialize (Hb x).
      destruct (decide (x ∈ default AllElems w)); tauto. }
  split; [apply H|].
  intros Hx. apply (H None None) in Hx as [_ [Hx|Hx]].
  - apply Hx. simpl. unfold elem_of, LazySet_elem_of, AllElems. simpl. set_solver.
  - by apply elem_of_LazySet_empty in Hx.
Qed.

End MoreFilterProperties.

(** ** Merging, adding and inverting *)

Section MoreEngineProperties.
Context {Dataset QueryResult : Type} `{!QueryResultOps Dataset QueryResult}.

Implicit Types (self : FilterTransform Dataset QueryResult)
  (old_ds new_ds ds : Dataset) (new_qr q : QueryResult)
  (acc : QueryResult * list Dataset * list Dataset).

(** The map the loop of [_add_new] leaves at each level. *)
Lemma _add_new_loop_levels (lvl0 lvl : QueryLevel) old_ds new_ds
    (m : QueryLevel -> gmap string string) :
  (_add_new_loop lvl0 old_ds new_ds uid_elems m None).1 lvl =
  if bool_decide (QueryLevel_value lvl <= QueryLevel_value lvl0)%Z
  then <[get_uid lvl new_ds := get_uid lvl old_ds]> (m lvl)
  else m lvl.
Proof. destruct lvl0, lvl; reflexivity. Qed.

(** What a successful merge leaves at every level. *)
Lemma _add_new_success_levels self old_ds new_ds self' (new_uid : string) :
  _add_new self old_ds new_ds = (self', Ok (Some new_uid)) ->
  new_uid = get_uid (level (old self)) new_ds /\
  QueryResult_add (new self) new_ds = Ok (new self') /\
  old self' = old self /\
  fixed_duplicates self' = fixed_duplicates self /\
  fixed_inconsistent self' = fixed_inconsistent self /\
  fully_invertible self' = fully_invertible self /\
  forall lvl,
    ((QueryLevel_value lvl <= QueryLevel_value (level (old self)))%Z ->
       _new_to_old self' lvl =
         <[get_uid lvl new_ds := get_uid lvl old_ds]> (_new_to_old self lvl)) /\
    (finer lvl (level (old self)) -> _new_to_old self' lvl = _new_to_old self lvl).
Proof.
  unfold _add_new.
  destruct (QueryResult_contains new_ds (new self)) as [[|]|e]; try done.
  destruct (QueryResult_add (new self) new_ds) as [q|e]; try done.
  pose proof (_add_new_loop_levels (level (old self)) ) as Hlv.
  destruct (_add_new_loop_result (level (old self)) old_ds new_ds (_new_to_old self))
    as (m & Hm & _).
  specialize (fun lvl => Hlv lvl old_ds new_ds (_new_to_old self)).
  rewrite Hm in Hlv |- *. simpl in Hlv.
  intros [= <- <-]. simpl. repeat split; try done.
  - intros Hle. rewrite Hlv. by rewrite bool_decide_eq_true_2.
  - intros Hf. rewrite Hlv. rewrite bool_decide_eq_false_2; [done|].
    unfold finer in Hf. lia.
Qed.

(** X7. A successful merge records the new-to-old identifier of the
    record at every level from the patient down to the level of the
    collection, and at no finer level; it returns the new identifier at
    the collection's level, and leaves [old], the two ledgers and
    [fully_invertible] alone. *)
Theorem _add_new_records_levels self old_ds new_ds self' (new_uid : string) :
  _add_new self old_ds new_ds = (self', Ok (Some new_uid)) ->
  new_uid = get_uid (level (old self)) new_ds /\
  QueryResult_add (new self) new_ds = Ok (new self') /\
  old self' = old self /\
  fixed_duplicates self' = fixed_duplicates self /\
  fixed_inconsistent self' = fixed_inconsistent self /\
  fully_invertible self' = fully_invertible self /\
  forall lvl,
    ((QueryLevel_value lvl <= QueryLevel_value (level (old self)))%Z ->
       _new_to_old self' lvl =
         <[get_uid lvl new_ds := get_uid lvl old_ds]> (_new_to_old self lvl)) /\
    (finer lvl (level (old self)) -> _new_to_old self' lvl = _new_to_old self lvl).
Proof. apply _add_new_success_levels. Qed.

(** What [add] leaves of the engine when it raises. *)
Lemma rollback_frame self old_ds (msg : string) (e : error) :
  let out := rollback_and_raise self old_ds msg e in
  new out.1.1 = new self /\ _new_to_old out.1.1 = _new_to_old self /\
  fixed_duplicates out.1.1 = fixed_duplicates self /\
  fixed_inconsistent out.1.1 = fixed_inconsistent self /\
  fully_invertible out.1.1 = fully_invertible self /\
  out.1.2 = [msg] /\ exists e', out.2 = Raise e'.
Proof.
  unfold rollback_and_raise.
  destruct (QueryResult_remove (old self) old_ds); simpl; repeat split; eauto.
Qed.

Lemma add_old_frame self old_ds self1 (oi od : bool) :
  add_old self old_ds = Ok (self1, oi, od) ->
  new self1 = new self /\ _new_to_old self1 = _new_to_old self /\
  fixed_duplicates self1 = fixed_duplicates self /\
  fixed_inconsistent self1 = fixed_inconsistent self /\
  fully_invertible self1 = fully_invertible self.
Proof.
  unfold add_old.
  destruct (QueryResult_contains old_ds (old self)) as [[|]|[]]; simpl; try done;
    try (by intros [= <- _ _]).
  destruct (QueryResult_add (old self) old_ds); [|done]. by intros [= <- _ _].
Qed.

(** X8. A call of [add] that raises leaves [new], the identifier
    mapping, the two ledgers and [fully_invertible] exactly as they
    were: only [old] can differ.  A call logs at most one warning, and
    logs none when it returns. *)
Theorem add_failure_frame self old_ds (new_ds : option Dataset) :
  let out := add self old_ds new_ds in
  fully_invertible out.1.1 = fully_invertible self /\
  (out.1.2 = [] \/ out.1.2 = [warn_duplicate] \/ out.1.2 = [warn_inconsistent]) /\
  (out.2 = Ok tt -> out.1.2 = []) /\
  (forall e, out.2 = Raise e ->
     new out.1.1 = new self /\ _new_to_old out.1.1 = _new_to_old self /\
     fixed_duplicates out.1.1 = fixed_duplicates self /\
     fixed_inconsistent out.1.1 = fixed_inconsistent self).
Proof.
  intros out. destruct out as [[self' msgs] r] eqn:Hout. unfold out in Hout.
  clear out. simpl. revert Hout. unfold add.
  destruct (add_old self old_ds) as [[[self1 oi] od]|e0] eqn:Hold.
  2: { intros [= <- <- <-]. repeat split; auto. }
  destruct (add_old_frame _ _ _ _ _ Hold) as (Hn & Hm & Hd & Hi & Hf).
  unfold add_new. destruct new_ds as [new_ds|].
  2: { intros [= <- <- <-]. repeat split; auto. }
  destruct (_add_new self1 old_ds new_ds) as [self2 [[u|]|e]] eqn:Hnew.
  - apply _add_new_success in Hnew as (q & m & _ & _ & -> & _ & _).
    destruct oi; [|destruct od]; intros [= <- <- <-]; simpl;
      repeat split; auto; discriminate.
  - pose proof (_add_new_failure_unchanged self1 old_ds new_ds) as Hun.
    rewrite Hnew in Hun. simpl in Hun. rewrite Hun in * by auto.
    destruct (negb od).
    + pose proof (rollback_frame self1 old_ds warn_duplicate DuplicateDataError)
        as (H1 & H2 & H3 & H4 & H5 & H6 & e' & H7).
      intros Heq. rewrite Heq in *. simpl in *. subst.
      repeat split; auto; try congruence.
    + intros [= <- <- <-]. repeat split; auto; congruence.
  - apply _add_new_raise_unchanged in Hnew as ->.
    destruct e;
      try (intros [= <- <- <-]; repeat split; auto; congruence).
    destruct (negb oi).
    + pose proof (rollback_frame self1 old_ds warn_inconsistent
                    InconsistentDataError)
        as (H1 & H2 & H3 & H4 & H5 & H6 & e' & H7).
      intros Heq. rewrite Heq in *. simpl in *. subst.
      repeat split; auto; try congruence.
    + intros [= <- <- <-]. repeat split; auto; congruence.
Qed.

(** X9. When the filter dropped the record ([new_ds] is [None]),
    [add] never touches [new], the mapping or the ledgers and logs
    nothing.  A record that [old] already holds, or that is
    inconsistent with [old], is accepted silently: the call returns and
    the engine is as it was, with no trace of the record. *)
Theorem add_dropped_record self old_ds :
  let out := add self old_ds None in
  new out.1.1 = new self /\ _new_to_old out.1.1 = _new_to_old self /\
  fixed_duplicates out.1.1 = fixed_duplicates self /\
  fixed_inconsistent out.1.1 = fixed_inconsistent self /\
  out.1.2 = [] /\
  (out.2 = Ok tt \/ out.1.1 = self) /\
  (QueryResult_contains old_ds (old self) = Ok true \/
   QueryResult_contains old_ds (old self) = Raise InconsistentDataError ->
   out.2 = Ok tt /\ out.1.1 = self).
Proof.
  unfold add, add_old, add_new.
  destruct (QueryResult_contains old_ds (old self)) as [[|]|[]]; simpl;
    try (intuition congruence).
  destruct (QueryResult_add (old self) old_ds); simpl; intuition congruence.
Qed.

(** Away from the engine's own level the inversion loop leaves the two
    lists alone. *)
Lemma reverse_loop_other_level self new_qr (records : list Dataset) acc acc' :
  level new_qr <> level (new self) ->
  reverse_loop self new_qr records acc = Ok acc' ->
  acc'.1.2 = acc.1.2 /\ acc'.2 = acc.2.
Proof.
  intros Hl. revert acc. induction records as [|ds records IH]; intros acc; simpl.
  - by intros [= <-].
  - destruct (reverse_step self new_qr acc ds) as [acc1|e] eqn:Hs; [|done].
    intros H. apply IH in H as [-> ->].
    destruct acc as [[res inc] dup]. unfold reverse_step in Hs.
    destruct (QueryResult_contains ds (new self)) as [[|]|e]; try done.
    destruct (_new_to_old self (level new_qr) !! get_uid (level new_qr) ds)
      as [old_uid|]; [|done].
    rewrite decide_False in Hs by done.
    destruct (sub_query _ _ _) as [sub|e]; [|done].
    destruct (QueryResult_ior res sub) as [res'|e]; [|done].
    by injection Hs as <-.
Qed.

(** X10. At a level other than the engine's own, [reverse] never
    consults the ledgers: whenever it returns, the bundle's lists of
    inconsistent and duplicate records are empty, also for records that
    [fixed_duplicates] or [fixed_inconsistent] would name. *)
Theorem reverse_other_level_no_fixed self new_qr
    (b : DataCollection Dataset QueryResult) :
  level new_qr <> level (new self) ->
  reverse self new_qr = Ok b ->
  inconsistent b = [] /\ duplicate b = [].
Proof.
  intros Hl. unfold reverse. destruct (reverse_level_mismatch self new_qr); [done|].
  unfold reverse_records.
  destruct (reverse_loop _ _ _ _) as [[[res inc] dup]|e] eqn:Hloop; [|done].
  apply reverse_loop_other_level in Hloop as [Hi Hd]; [|done].
  simpl in Hi, Hd. subst. by intros [= <-].
Qed.

(** What a returning inversion loop has checked and collected. *)
Lemma reverse_loop_checked self new_qr (records : list Dataset) acc acc' :
  reverse_loop self new_qr records acc = Ok acc' ->
  (forall ds, ds ∈ records ->
     QueryResult_contains ds (new self) = Ok true /\
     is_Some (_new_to_old self (level new_qr) !! get_uid (level new_qr) ds)) /\
  (length acc'.1.2 + length acc'.2 <=
     length acc.1.2 + length acc.2 + length records)%nat /\
  (forall d, d ∈ acc'.2 -> d ∈ acc.2 \/
     exists ds, ds ∈ records /\
       fixed_duplicates self !! get_uid (level new_qr) ds = Some d) /\
  (forall d, d ∈ acc'.1.2 -> d ∈ acc.1.2 \/
     exists ds, ds ∈ records /\
       fixed_inconsistent self !! get_uid (level new_qr) ds = Some d).
Proof.
  revert acc. induction records as [|ds records IH]; intros acc; simpl.
  - intros [= <-]. split; [intros ds H; by apply elem_of_nil in H|].
    split; [lia|]. split; auto.
  - destruct (reverse_step self new_qr acc ds) as [acc1|e] eqn:Hs; [|done].
    intros H. apply IH in H as (Hall & Hlen & Hdup & Hinc).
    destruct acc as [[res inc] dup]. unfold reverse_step in Hs.
    destruct (QueryResult_contains ds (new self)) as [[|]|e] eqn:Hc; try done.
    destruct (_new_to_old self (level new_qr) !! get_uid (level new_qr) ds)
      as [old_uid|] eqn:Hm; [|done].
    assert (forall ds', ds' ∈ ds :: records ->
              QueryResult_contains ds' (new self) = Ok true /\
              is_Some (_new_to_old self (level new_qr)
                         !! get_uid (level new_qr) ds')) as Hall'.
    { intros ds' [->|Hin]%elem_of_cons; [by rewrite Hm|by apply Hall]. }
    assert (forall r, match sub_query (old self)
                (Build_DataNode (level new_qr) old_uid) (level new_qr) with
            | Raise e => Raise e
            | Ok sub => match QueryResult_ior res sub with
                        | Raise e => Raise e
                        | Ok res' => Ok (res', inc, dup)
                        end
            end = Ok r -> r.1.2 = inc /\ r.2 = dup) as Hfetch.
    { intros r. destruct (sub_query _ _ _) as [sub|e]; [|done].
      destruct (QueryResult_ior res sub) as [res'|e]; [|done].
      by intros [= <-]. }
    assert ((acc1.1.2 = inc /\ acc1.2 = dup) \/
            (acc1.1.2 = inc /\ exists d, acc1.2 = dup ++ [d] /\
               fixed_duplicates self !! get_uid (level new_qr) ds = Some d) \/
            (acc1.2 = dup /\ exists d, acc1.1.2 = inc ++ [d] /\
               fixed_inconsistent self !! get_uid (level new_qr) ds = Some d))
      as Hcases.
    { destruct (decide (level new_qr = level (new self))).
      - destruct (fixed_duplicates self !! _) as [d0|] eqn:Hfd.
        { injection Hs as <-. right; left. simpl. eauto. }
        destruct (fixed_inconsistent self !! _) as [d0|] eqn:Hfi.
        { injection Hs as <-. right; right. simpl. eauto. }
        left. by apply Hfetch.
      - left. by apply Hfetch. }
    simpl. split; [exact Hall'|].
    destruct Hcases as [[E1 E2]|[(E1 & d0 & E2 & Hd0)|(E2 & d0 & E1 & Hd0)]];
      rewrite E1, E2 in *; rewrite ?length_app in *; simpl in *.
    + split; [lia|]. split.
      * intros d Hd. destruct (Hdup d Hd) as [?|(ds' & ? & ?)]; [by left|].
        right. exists ds'. split; [by right|done].
      * intros d Hd. destruct (Hinc d Hd) as [?|(ds' & ? & ?)]; [by left|].
        right. exists ds'. split; [by right|done].
    + split; [lia|]. split.
      * intros d Hd. destruct (Hdup d Hd) as [Hin|(ds' & ? & ?)].
        -- apply elem_of_app in Hin as [?|Hin]; [by left|].
           apply list_elem_of_singleton in Hin as ->.
           right. exists ds. split; [by left|done].
        -- right. exists ds'. split; [by right|done].
      * intros d Hd. destruct (Hinc d Hd) as [?|(ds' & ? & ?)]; [by left|].
        right. exists ds'. split; [by right|done].
    + split; [lia|]. split.
      * intros d Hd. destruct (Hdup d Hd) as [?|(ds' & ? & ?)]; [by left|].
        right. exists ds'. split; [by right|done].
      * intros d Hd. destruct (Hinc d Hd) as [Hin|(ds' & ? & ?)].
        -- apply elem_of_app in Hin as [?|Hin]; [by left|].
           apply list_elem_of_singleton in Hin as ->.
           right. exists ds. split; [by left|done].
        -- right. exists ds'. split; [by right|done].
Qed.

(** X11. [reverse] returns only when every record of the requested
    subset is held by [new] and has an entry in the identifier mapping
    at the requested level.  The two lists of the bundle together are
    no longer than the subset, and each of their records is the entry
    of its ledger under the identifier of a record of the subset. *)
Theorem reverse_returns_checked self new_qr
    (b : DataCollection Dataset QueryResult) :
  reverse self new_qr = Ok b ->
  (forall ds, ds ∈ QueryResult_iter new_qr ->
     QueryResult_contains ds (new self) = Ok true /\
     is_Some (_new_to_old self (level new_qr) !! get_uid (level new_qr) ds)) /\
  (length (inconsistent b) + length (duplicate b)
     <= length (QueryResult_iter new_qr))%nat /\
  (forall d, d ∈ duplicate b ->
     exists ds, ds ∈ QueryResult_iter new_qr /\
       fixed_duplicates self !! get_uid (level new_qr) ds = Some d) /\
  (forall d, d ∈ inconsistent b ->
     exists ds, ds ∈ QueryResult_iter new_qr /\
       fixed_inconsistent self !! get_uid (level new_qr) ds = Some d).
Proof.
  unfold reverse. destruct (reverse_level_mismatch self new_qr); [done|].
  unfold reverse_records.
  destruct (reverse_loop _ _ _ _) as [[[res inc] dup]|e] eqn:Hloop; [|done].
  apply reverse_loop_checked in Hloop as (Hall & Hlen & Hdup & Hinc).
  intros [= <-]. simpl in *. split; [done|]. split; [lia|]. split.
  - intros d Hd. destruct (Hdup d Hd) as [Hn|?]; [|done].
    by apply elem_of_nil in Hn.
  - intros d Hd. destruct (Hinc d Hd) as [Hn|?]; [|done].
    by apply elem_of_nil in Hn.
Qed.

End MoreEngineProperties.

(** ** Construction and the identifier mapping *)

Section ConstructionProperties.
Context {Dataset QueryResult : Type} `{!QueryResultOps Dataset QueryResult}
  `{!QueryResultUidLaws Dataset QueryResult}.

Implicit Types (self : FilterTransform Dataset QueryResult)
  (old_ds new_ds ds : Dataset) (qr : QueryResult).




End ConstructionProperties.

(** ** The identity engine *)

Section DummyProperties.
Context {Dataset QueryResult : Type} `{!QueryResultOps Dataset QueryResult}
  `{!QueryResultLaws Dataset QueryResult}.

(** X13. The identity engine takes a record once: an [add] that raises
    leaves the engine as it was, and after an [add] that returned, an
    [add] of the same record raises [DuplicateDataError] and leaves
    the engine as the first call left it. *)
Theorem DummyTransform_add_once (self : DummyTransform QueryResult)
    (ds : Dataset) :
  let out := DummyTransform_add self ds in
  (forall e, out.2 = Raise e -> out.1 = self) /\
  (out.2 = Ok tt ->
   DummyTransform_add out.1 ds = (out.1, Raise DuplicateDataError)).
Proof.
  unfold DummyTransform_add.
  destruct (QueryResult_contains ds (dummy_qr self)) as [[|]|e0]; simpl;
    [by split|..|by split].
  destruct (QueryResult_add (dummy_qr self) ds) as [q|e0] eqn:Hadd; simpl;
    [|by split].
  split; [done|]. intros _. by rewrite (add_member _ _ _ Hadd).
Qed.

End DummyProperties.

(** ** Editing filters *)

Lemma String_last_app_dot (s : string) : String_last (s +:+ ".") = Some ".".
Proof.
  induction s as [|c s IH]; [done|]. simpl.
  destruct (s +:+ ".") eqn:Hs; [by destruct s|done].
Qed.

Lemma String_last_None (s : string) : String_last s = None -> s = "".
Proof.
  induction s as [|c s IH]; [done|]. simpl.
  destruct s; [done|]. intros H. by apply IH in H.
Qed.

Section MoreEditFilterProperties.
Context {Dataset Value : Type} `{!PydicomOps Dataset Value}.

(** X14. [make_uid_update_cb] raises [IndexError] on the empty prefix
    and on no other.  On any other prefix it returns the callback
    [update_uids_cb] for a prefix that ends in a dot: the given prefix
    when it ends in a dot, and the given prefix followed by a dot
    otherwise.  Called on that normalised prefix it returns the same
    callback. *)
Theorem make_uid_update_cb_prefix (uid_prefix : string)
    (add_uid_entropy : option (list ElemValue)) :
  match String_last uid_prefix with
  | None =>
      uid_prefix = "" /\
      make_uid_update_cb uid_prefix add_uid_entropy = Raise IndexError
  | Some c =>
      uid_prefix <> "" /\
      exists p,
        (p = if bool_decide (c = ".") then uid_prefix else uid_prefix +:+ ".") /\
        String_last p = Some "." /\
        make_uid_update_cb uid_prefix add_uid_entropy
          = Ok (update_uids_cb p (default [] add_uid_entropy)) /\
        make_uid_update_cb p add_uid_entropy
          = make_uid_update_cb uid_prefix add_uid_entropy
  end.
Proof.
  unfold make_uid_update_cb.
  destruct (String_last uid_prefix) as [c|] eqn:Hlast.
  - split; [by intros ->|].
    destruct (decide (c = ".")) as [->|Hc].
    + exists uid_prefix. rewrite bool_decide_eq_true_2 by done.
      rewrite Hlast. rewrite bool_decide_eq_false_2 by (by intros H; apply H).
      done.
    + exists (uid_prefix +:+ "."). rewrite bool_decide_eq_false_2 by done.
      rewrite String_last_app_dot.
      rewrite bool_decide_eq_true_2 by done.
      rewrite bool_decide_eq_false_2 by (by intros H; apply H).
      done.
  - split; [by apply String_last_None|done].
Qed.

Context `{!PydicomLaws Dataset Value}.

Lemma edit_fold_hasattr (edit_dict : list (string * option Value))
    (ds : Dataset) (a : string) :
  Dataset_hasattr
    (foldl (fun ds '(attr_name, val) =>
              match val with
              | None =>
                  if Dataset_hasattr ds attr_name
                  then Dataset_delattr ds attr_name else ds
              | Some v =>
                  if Dataset_hasattr ds attr_name
                  then Dataset_setattr ds attr_name v else ds
              end) ds edit_dict) a = true
  <-> Dataset_hasattr ds a = true /\ (a, None) ∉ edit_dict.
Proof.
  revert ds. induction edit_dict as [|[k v] l IH]; intros ds; simpl.
  - split; [intros H; split; [done|apply not_elem_of_nil]|by intros [H _]].
  - rewrite IH. rewrite not_elem_of_cons.
    destruct v as [v|].
    + destruct (Dataset_hasattr ds k) eqn:Hk.
      * rewrite hasattr_setattr by done. split; [|tauto].
        intros [H1 H2]. split; [done|]. split; [congruence|done].
      * split; [|tauto]. intros [H1 H2]. split; [done|]. split; [congruence|done].
    + destruct (Dataset_hasattr ds k) eqn:Hk.
      * rewrite hasattr_delattr. rewrite andb_true_iff, negb_true_iff.
        rewrite bool_decide_eq_false. split.
        -- intros [[H1 H2] H3]. split; [done|]. split; [congruence|done].
        -- intros [H1 [H2 H3]]. split; [|done]. split; [done|]. congruence.
      * split; [|tauto]. intros [H1 H2]. split; [done|]. split; [|done].
        intros [= ->]. congruence.
Qed.

(** X15. Without the update of identifiers, [edit_func] returns a data
    set that has exactly the attributes of the data set it was given
    other than those the edit maps to [None]: it never creates an
    attribute, also not one the edit gives a value for. *)
Theorem edit_func_attributes (edit_dict : list (string * option Value))
    (cb : DataElement -> DataElement) (ds : Dataset) :
  exists ds',
    edit_func edit_dict false cb ds = Some ds' /\
    forall a,
      Dataset_hasattr ds' a = true
      <-> Dataset_hasattr ds a = true /\ (a, None) ∉ edit_dict.
Proof.
  unfold edit_func. eexists. split; [reflexivity|].
  intros a. apply edit_fold_hasattr.
Qed.

End MoreEditFilterProperties.

(** ** Crawling a local directory *)

Section CrawlProperties.
Variable iglob : list string -> bool -> list string.
Variable isfile : string -> bool.

Lemma crawl_loop_no_shutdown (max_chunk : Z) (shutdown : option (Z -> bool))
    (paths : list string) (pidx : Z) curr_files res_q :
  (0 <= pidx)%Z ->
  local_dir.crawl_loop isfile max_chunk shutdown paths pidx curr_files res_q
  = local_dir.crawl_loop isfile max_chunk None paths pidx curr_files res_q.
Proof.
  revert pidx curr_files res_q.
  induction paths as [|path paths IH]; intros pidx curr_files res_q Hp; [done|].
  simpl.
  assert ((pidx + 1 mod 50 =? 0)%Z = false) as ->.
  { apply Z.eqb_neq. change (1 mod 50)%Z with 1%Z. lia. }
  simpl. destruct (isfile path); simpl.
  - destruct (_ =? max_chunk)%Z; apply IH; lia.
  - apply IH; lia.
Qed.

(** Without a shutdown event the loop runs to its end, and the chunks
    on the queue followed by the files not yet put on it are the files
    among the paths, in order. *)
Lemma crawl_loop_files (max_chunk : Z) (paths : list string) (pidx : Z)
    curr_files res_q :
  exists res_q' curr_files',
    local_dir.crawl_loop isfile max_chunk None paths pidx curr_files res_q
    = (res_q ++ res_q', Some curr_files') /\
    concat res_q' ++ curr_files' = curr_files ++ List.filter isfile paths.
Proof.
  revert pidx curr_files res_q.
  induction paths as [|path paths IH]; intros pidx curr_files res_q; simpl.
  - exists [], curr_files. by rewrite !app_nil_r.
  - rewrite andb_false_r. destruct (isfile path); simpl.
    + destruct (_ =? max_chunk)%Z.
      * destruct (IH (pidx + 1)%Z [] (res_q ++ [curr_files ++ [path]]))
          as (q & c & -> & Hc).
        exists ((curr_files ++ [path]) :: q), c. split.
        -- by rewrite <- app_assoc.
        -- simpl. rewrite <- !app_assoc. simpl. by rewrite Hc.
      * destruct (IH (pidx + 1)%Z (curr_files ++ [path]) res_q)
          as (q & c & -> & Hc).
        exists q, c. split; [done|]. by rewrite Hc, <- app_assoc.
    + apply IH.
Qed.

(** With a positive chunk size, every chunk the loop puts on the queue
    is full and the files left over are fewer than a chunk. *)
Lemma crawl_loop_sizes (max_chunk : Z) (paths : list string) (pidx : Z)
    curr_files res_q :
  (Z.of_nat (length curr_files) < max_chunk)%Z ->
  exists res_q' curr_files',
    local_dir.crawl_loop isfile max_chunk None paths pidx curr_files res_q
    = (res_q ++ res_q', Some curr_files') /\
    Forall (fun c => Z.of_nat (length c) = max_chunk) res_q' /\
    (Z.of_nat (length curr_files') < max_chunk)%Z.
Proof.
  revert pidx curr_files res_q.
  induction paths as [|path paths IH]; intros pidx curr_files res_q Hlen; simpl.
  - exists [], curr_files. by rewrite app_nil_r.
  - rewrite andb_false_r. destruct (isfile path); simpl; [|by apply IH].
    destruct (_ =? max_chunk)%Z eqn:Hfull.
    + apply Z.eqb_eq in Hfull.
      destruct (IH (pidx + 1)%Z [] (res_q ++ [curr_files ++ [path]]))
        as (q & c & -> & Hq & Hc); [simpl; lia|].
      exists ((curr_files ++ [path]) :: q), c. split; [by rewrite <- app_assoc|].
      split; [by constructor|done].
    + apply Z.eqb_neq in Hfull.
      apply IH. rewrite length_app in *. simpl in *. lia.
Qed.

(** With a chunk size that is not positive the loop puts nothing on
    the queue. *)
Lemma crawl_loop_unbounded (max_chunk : Z) (paths : list string) (pidx : Z)
    curr_files res_q :
  (max_chunk <= 0)%Z ->
  local_dir.crawl_loop isfile max_chunk None paths pidx curr_files res_q
  = (res_q, Some (curr_files ++ List.filter isfile paths)).
Proof.
  intros Hmax. revert pidx curr_files.
  induction paths as [|path paths IH]; intros pidx curr_files; simpl.
  - by rewrite app_nil_r.
  - rewrite andb_false_r. destruct (isfile path); simpl; [|by apply IH].
    destruct (_ =? max_chunk)%Z eqn:Hfull.
    + apply Z.eqb_eq in Hfull. rewrite length_app in Hfull. simpl in Hfull. lia.
    + by rewrite IH, <- app_assoc.
Qed.

(** X16. [_dir_crawl_worker] never consults the shutdown event: its
    test [pidx + 1 % 50 == 0] reads [pidx + 1 == 0], which no index
    satisfies, so the worker puts the same chunks on the queue whatever
    the event answers, as if no event was given. *)
Theorem _dir_crawl_worker_ignores_shutdown (res_q : list (list string))
    (root_path : string) (recurse : bool) (file_ext : string) (max_chunk : Z)
    (shutdown : option (Z -> bool)) :
  local_dir._dir_crawl_worker iglob isfile res_q root_path recurse file_ext
    max_chunk shutdown
  = local_dir._dir_crawl_worker iglob isfile res_q root_path recurse file_ext
      max_chunk None.
Proof.
  unfold local_dir._dir_crawl_worker.
  by rewrite crawl_loop_no_shutdown by lia.
Qed.

(** What the worker puts on the queue when no event is given: chunks
    cut by the loop, then at most one chunk of what is left. *)
Lemma _dir_crawl_worker_chunks (res_q : list (list string))
    (root_path : string) (recurse : bool) (file_ext : string) (max_chunk : Z) :
  let files :=
    List.filter isfile
      (iglob (local_dir.glob_comps root_path recurse file_ext) recurse) in
  exists full last,
    local_dir._dir_crawl_worker iglob isfile res_q root_path recurse file_ext
      max_chunk None = res_q ++ full ++ last /\
    concat (full ++ last) = files /\
    (last = [] \/ exists c, last = [c] /\ c <> []) /\
    ((1 <= max_chunk)%Z ->
       Forall (fun c => Z.of_nat (length c) = max_chunk) full /\
       Forall (fun c => (Z.of_nat (length c) < max_chunk)%Z) last) /\
    ((max_chunk <= 0)%Z -> full = []).
Proof.
  intros files. unfold local_dir._dir_crawl_worker.
  fold files.
  set (paths := iglob _ _) in *.
  destruct (crawl_loop_files max_chunk paths 0 [] res_q) as (q & c & Heq & Hc).
  rewrite Heq. simpl in Hc. fold files in Hc.
  assert (last_ok : forall last : list (list string),
            last = (if bool_decide (length c <> 0) then [c] else []) ->
            concat (q ++ last) = files /\
            (last = [] \/ exists c0, last = [c0] /\ c0 <> [])).
  { intros last ->. case_bool_decide as Hl.
    - split; [by rewrite concat_app; simpl; rewrite app_nil_r|].
      right. exists c. split; [done|]. by intros ->.
    - split; [|by left].
      rewrite app_nil_r. destruct c; [by rewrite app_nil_r in Hc|].
      simpl in Hl. lia. }
  exists q, (if bool_decide (length c <> 0) then [c] else []).
  destruct (last_ok _ eq_refl) as [H1 H2].
  split; [by case_bool_decide; rewrite ?app_nil_r, <- ?app_assoc|].
  split; [done|]. split; [done|]. split.
  - intros Hmax.
    destruct (crawl_loop_sizes max_chunk paths 0 [] res_q) as (q' & c' & Heq' & Hq & Hc');
      [simpl; lia|].
    rewrite Heq in Heq'. injection Heq' as Hqq <-. apply app_inv_head in Hqq as <-.
    split; [done|]. case_bool_decide; [by repeat constructor|constructor].
  - intros Hmax.
    rewrite (crawl_loop_unbounded max_chunk paths 0 [] res_q Hmax) in Heq.
    injection Heq as Hqq _. rewrite <- (app_nil_r res_q) in Hqq at 1.
    by apply app_inv_head in Hqq.
Qed.

(** X17. The chunks [_dir_crawl_worker] puts on the queue hold the
    paths of the glob that are files, each once and in the order of the
    glob, and none of the chunks is empty; what was on the queue before
    stays in front of them. *)
Theorem _dir_crawl_worker_files (res_q : list (list string))
    (root_path : string) (recurse : bool) (file_ext : string) (max_chunk : Z)
    (shutdown : option (Z -> bool)) :
  exists chunks,
    local_dir._dir_crawl_worker iglob isfile res_q root_path recurse file_ext
      max_chunk shutdown = res_q ++ chunks /\
    concat chunks
    = List.filter isfile
        (iglob (local_dir.glob_comps root_path recurse file_ext) recurse) /\
    Forall (fun c => c <> []) chunks.
Proof.
  destruct (_dir_crawl_worker_chunks res_q root_path recurse file_ext max_chunk)
    as (full & last & Heq & Hfiles & Hlast & Hpos & Hneg).
  exists (full ++ last). split.
  { rewrite <- Heq. unfold local_dir._dir_crawl_worker.
    by rewrite crawl_loop_no_shutdown by lia. }
  split; [done|]. apply Forall_app. split.
  - destruct (decide (1 <= max_chunk)%Z) as [Hmax|Hmax].
    + destruct (Hpos Hmax) as [Hfull _].
      eapply Forall_impl; [exact Hfull|]. intros c Hc ->. simpl in Hc. lia.
    + rewrite Hneg by lia. constructor.
  - destruct Hlast as [->|(c & -> & Hc)]; [constructor|by repeat constructor].
Qed.

(** X18. With a positive [max_chunk], every chunk [_dir_crawl_worker]
    puts on the queue but the last holds exactly [max_chunk] files, and
    the last holds at most [max_chunk]. *)
Theorem _dir_crawl_worker_chunk_sizes (res_q : list (list string))
    (root_path : string) (recurse : bool) (file_ext : string) (max_chunk : Z)
    (shutdown : option (Z -> bool)) :
  (1 <= max_chunk)%Z ->
  exists full last,
    local_dir._dir_crawl_worker iglob isfile res_q root_path recurse file_ext
      max_chunk shutdown = res_q ++ full ++ last /\
    Forall (fun c => Z.of_nat (length c) = max_chunk) full /\
    (last = [] \/
     exists c, last = [c] /\ (0 < Z.of_nat (length c) < max_chunk)%Z).
Proof.
  intros Hmax.
  destruct (_dir_crawl_worker_chunks res_q root_path recurse file_ext max_chunk)
    as (full & last & Heq & Hfiles & Hlast & Hpos & Hneg).
  exists full, last. split.
  { rewrite <- Heq. unfold local_dir._dir_crawl_worker.
    by rewrite crawl_loop_no_shutdown by lia. }
  destruct (Hpos Hmax) as [Hfull Hl]. split; [done|].
  destruct Hlast as [->|(c & -> & Hc)]; [by left|]. right. exists c.
  split; [done|]. apply Forall_inv in Hl.
  destruct c; [done|]. cbn [length] in *. lia.
Qed.

(** X19. With a [max_chunk] of zero or less the size test of
    [_dir_crawl_worker] never holds, and all the files go on the queue
    as one chunk, or nothing when there is no file. *)
Theorem _dir_crawl_worker_unbounded (res_q : list (list string))
    (root_path : string) (recurse : bool) (file_ext : string) (max_chunk : Z)
    (shutdown : option (Z -> bool)) :
  (max_chunk <= 0)%Z ->
  let files :=
    List.filter isfile
      (iglob (local_dir.glob_comps root_path recurse file_ext) recurse) in
  local_dir._dir_crawl_worker iglob isfile res_q root_path recurse file_ext
    max_chunk shutdown
  = res_q ++ (if bool_decide (files = []) then [] else [files]).
Proof.
  intros Hmax files.
  destruct (_dir_crawl_worker_chunks res_q root_path recurse file_ext max_chunk)
    as (full & last & Heq & Hfiles & Hlast & Hpos & Hneg).
  fold files in Hfiles.
  unfold local_dir._dir_crawl_worker. rewrite crawl_loop_no_shutdown by lia.
  unfold local_dir._dir_crawl_worker in Heq. rewrite Heq.
  rewrite (Hneg Hmax) in *. simpl in *. f_equal.
  destruct Hlast as [->|(c & -> & Hc)]; simpl in Hfiles.
  - by rewrite <- Hfiles, bool_decide_eq_true_2.
  - rewrite app_nil_r in Hfiles. subst c.
    by rewrite bool_decide_eq_false_2.
Qed.

End CrawlProperties.

(** ** Output paths *)

Lemma split_no_sep (c : N) (t : list N) : c ∉ t -> local_dir.split c t = [t].
Proof.
  induction t as [|x t IH]; [done|]. intros Hc. apply not_elem_of_cons in Hc as [Hx Hc].
  simpl. destruct (N.eqb_spec x c) as [->|_]; [done|]. by rewrite IH.
Qed.

Lemma split_app_sep (c : N) (t rest : list N) :
  c ∉ t -> local_dir.split c (t ++ c :: rest) = t :: local_dir.split c rest.
Proof.
  induction t as [|x t IH]; intros Hc; simpl.
  - by rewrite N.eqb_refl.
  - apply not_elem_of_cons in Hc as [Hx Hc].
    destruct (N.eqb_spec x c) as [->|_]; [done|]. by rewrite IH.
Qed.

(** Splitting a joined path at the separator gives back the components
    when none of them holds the separator. *)
Lemma split_join (c : N) (toks : list (list N)) :
  toks <> [] -> Forall (fun t => c ∉ t) toks ->
  local_dir.split c (local_dir.join [c] toks) = toks.
Proof.
  induction toks as [|t toks IH]; [done|]. intros _ Hall.
  apply Forall_cons in Hall as [Ht Hall].
  destruct toks as [|t' toks]; simpl.
  - by apply split_no_sep.
  - rewrite split_app_sep by done. f_equal. by apply IH.
Qed.

Lemma elem_of_join (sep : list N) (toks : list (list N)) (c : N) :
  c ∈ local_dir.join sep toks -> c ∈ sep \/ exists t, t ∈ toks /\ c ∈ t.
Proof.
  induction toks as [|t toks IH]; simpl.
  - by intros H%elem_of_nil.
  - destruct toks as [|t' toks].
    + intros Hc. right. exists t. split; [constructor|done].
    + rewrite !elem_of_app. intros [Hc|[Hc|Hc]].
      * right. exists t. split; [constructor|done].
      * by left.
      * destruct (IH Hc) as [?|(t0 & Ht0 & Hc0)]; [by left|].
        right. exists t0. split; [by constructor|done].
Qed.

Lemma re_sub_unsafe_safe (s : list N) (c : N) :
  c ∈ local_dir.re_sub_unsafe s -> local_dir.safe_char c = true.
Proof.
  unfold local_dir.re_sub_unsafe. intros (x & -> & _)%list_elem_of_fmap.
  by destruct (local_dir.safe_char x) eqn:Hx.
Qed.

Lemma split_not_nil (c : N) (s : list N) : local_dir.split c s <> [].
Proof.
  destruct s as [|x s]; [done|]. simpl.
  destruct (x =? c)%N; [done|]. by destruct (local_dir.split c s).
Qed.

Section OutPathProperties.
Context {Dataset : Type}.
Variable fstr_eval : list N -> Dataset -> option (list N).

(** X20. A path [make_out_path] returns holds, besides the code points
    of [os.sep], only code points of [A-Za-z0-9_.-].  Where the
    separator is the slash, splitting the path at the slashes gives
    back one component for each token of the format, the token's
    evaluation with each other code point replaced by an underscore: a
    value taken from the data set never adds a level to the path. *)
Theorem make_out_path_components (sep out_fmt : list N) (ds : Dataset)
    (p : list N) :
  local_dir.make_out_path fstr_eval sep out_fmt ds = Some p ->
  (forall c, c ∈ p -> local_dir.safe_char c = true \/ c ∈ sep) /\
  (sep = [47%N] ->
   Forall2 (fun t o => local_dir.re_sub_unsafe <$> fstr_eval t ds = Some o)
     (local_dir.split 47 out_fmt) (local_dir.split 47 p)).
Proof.
  unfold local_dir.make_out_path. intros Hp.
  destruct (mapM _ _) as [toks|] eqn:Htoks; [|done].
  simpl in Hp. injection Hp as <-.
  apply mapM_Some in Htoks.
  assert (Forall (fun t => forall c, c ∈ t -> local_dir.safe_char c = true) toks)
    as Hsafe.
  { clear -Htoks. induction Htoks as [|t o ts os Ht _ IH]; constructor; [|done].
    destruct (fstr_eval t ds) as [s|]; [|done]. injection Ht as <-.
    apply re_sub_unsafe_safe. }
  split.
  - intros c Hc. apply elem_of_join in Hc as [Hc|(t & Ht & Hc)]; [by right|].
    left. rewrite Forall_forall in Hsafe. by eapply Hsafe.
  - intros ->. rewrite split_join; [done|..].
    + intros ->. apply Forall2_nil_inv_r in Htoks.
      by apply split_not_nil in Htoks.
    + eapply Forall_impl; [exact Hsafe|]. intros t Ht Hc.
      by apply Ht in Hc.
Qed.

End OutPathProperties.

(** ** Reports *)

Lemma description_fields (self : report.Report) :
  let self' := (report.description self).1 in
  report._n_expected self' = report._n_expected self /\
  report._n_input self' = report._n_input self /\
  report._done self' = report._done self /\
  report._task self' = report._task self /\
  report._prog_hook self' = report._prog_hook self /\
  is_Some (report._description self').
Proof.
  unfold report.description. destruct (report._description self) eqn:Hd; simpl;
    rewrite ?Hd; eauto 10.
Qed.

(** [_init_task] on a report with a hook creates a task and returns. *)
Lemma _init_task_hook (self : report.Report) (calls : list report.HookCall)
    (hook : report.Hook) :
  report._prog_hook self = Some hook ->
  exists self' d total,
    report._init_task self calls
    = (self', calls ++ [report.create_task hook d total], report.Returns tt) /\
    report._task self' = Some (length calls) /\
    report._prog_hook self' = Some hook /\
    report._done self' = report._done self /\
    report._n_input self' = report._n_input self /\
    report._n_expected self' = report._n_expected self /\
    is_Some (report._description self').
Proof.
  intros Hh. unfold report._init_task. rewrite Hh.
  pose proof (description_fields self) as (He & Hi & Hd & Ht & Hp & Hs).
  destruct (report.description self) as [self1 d]. simpl in *.
  eexists _, _, _. split; [reflexivity|]. simpl.
  by rewrite Hp, Hh.
Qed.

(** The task of a report that has a hook, created when there is none:
    what [n_expected], [count_input] and [set_prog_hook] do before
    they call the hook. *)
Lemma lifecycle_ensure_task (calls0 : list report.HookCall)
    (self : report.Report) (calls : list report.HookCall) (hook : report.Hook) :
  report.lifecycle calls0 (self, calls) ->
  report._prog_hook self = Some hook ->
  exists self' calls',
    match report._task self with
    | None => report._init_task self calls
    | Some _ => (self, calls, report.Returns tt)
    end = (self', calls', report.Returns tt) /\
    report.lifecycle calls0 (self', calls') /\
    report._task self' = Some (length calls0) /\
    report._prog_hook self' = Some hook /\
    report._done self' = report._done self /\
    report._n_input self' = report._n_input self.
Proof.
  intros (new & Hcalls & Hnew) Hh. simpl in *.
  destruct (report._task self) as [task|] eqn:Ht.
  - exists self, calls. split; [done|]. destruct Hnew as [-> Hrest].
    split; [|by rewrite Ht]. exists new. simpl. rewrite Ht. done.
  - subst new. rewrite app_nil_r in Hcalls. subst calls.
    destruct (_init_task_hook self calls0 hook Hh)
      as (self' & d & total & -> & Ht' & Hh' & Hd' & Hi' & _).
    exists self', (calls0 ++ [report.create_task hook d total]).
    split; [done|]. split; [|done].
    exists [report.create_task hook d total]. simpl. rewrite Ht'.
    split; [done|]. split; [done|].
    exists hook, d, total, []. simpl.
    split; [done|]. split; [done|]. split; [constructor|lia].
Qed.

Lemma lifecycle_ext (calls0 : list report.HookCall) (self self' : report.Report)
    (calls : list report.HookCall) :
  report.lifecycle calls0 (self, calls) ->
  report._task self' = report._task self ->
  report._prog_hook self' = report._prog_hook self ->
  report._done self' = report._done self ->
  report.lifecycle calls0 (self', calls).
Proof.
  intros (new & Hcalls & Hnew) Ht Hh Hd. exists new. simpl in *.
  by rewrite Ht, Hh, Hd.
Qed.

(** A further call about the report's task, other than [end]. *)
Lemma lifecycle_call (calls0 : list report.HookCall) (self : report.Report)
    (calls : list report.HookCall) (hook : report.Hook) (e : report.HookCall) :
  report.lifecycle calls0 (self, calls) ->
  report._task self = Some (length calls0) ->
  report._prog_hook self = Some hook ->
  report.on_task hook (length calls0) e ->
  report.is_hook_end e = false ->
  report.lifecycle calls0 (self, calls ++ [e]).
Proof.
  intros (new & Hcalls & Hnew) Ht Hh He Hend. simpl in *.
  exists (new ++ [e]). simpl. split; [by rewrite Hcalls, app_assoc|].
  rewrite Ht in *. destruct Hnew as (_ & h & d & total & rest & Hh' & -> & Hall & Hcount).
  split; [done|]. exists h, d, total, (rest ++ [e]).
  split; [done|]. split; [done|].
  assert (h = hook) as -> by congruence. split.
  - apply Forall_app. split; [done|]. by constructor.
  - rewrite List.filter_app, length_app. simpl. rewrite Hend. simpl. lia.
Qed.

Lemma lifecycle_step (calls0 : list report.HookCall)
    (st : report.Report * list report.HookCall) (c : report.Call) :
  report.lifecycle calls0 st -> report.lifecycle calls0 (report.step st c).
Proof.
  destruct st as [self calls]. intros Hinv.
  destruct c as [|val|val|prog_hook| |val]; simpl.
  - pose proof (description_fields self) as (He & Hi & Hd & Ht & Hp & Hs).
    by eapply lifecycle_ext.
  - by eapply lifecycle_ext.
  - unfold report.n_expected_set. simpl.
    assert (report.lifecycle calls0
              (report.with_n_expected self (Some val), calls)) as Hinv1
      by (by eapply lifecycle_ext).
    destruct (report._prog_hook self) as [hook|] eqn:Hh; [|done].
    destruct (lifecycle_ensure_task calls0 _ calls hook Hinv1 Hh)
      as (self' & calls' & Heq & Hinv' & Ht' & Hh' & _).
    simpl in Heq. rewrite Heq. simpl. rewrite Ht'.
    by eapply lifecycle_call.
  - unfold report.set_prog_hook.
    destruct (report._prog_hook self) as [hook|] eqn:Hh.
    + by case_bool_decide.
    + destruct prog_hook as [hook|]; [|done]. simpl.
      destruct Hinv as (new & Hcalls & Hnew). simpl in *.
      destruct (report._task self) as [task|] eqn:Ht.
      { destruct Hnew as (_ & h & ? & ? & ? & Hh' & _). congruence. }
      subst new. rewrite app_nil_r in Hcalls. subst calls.
      destruct (report._description self) eqn:Hd.
      * destruct (_init_task_hook (report.with_prog_hook self (Some hook))
                    calls0 hook eq_refl)
          as (self' & d & total & -> & Ht' & Hh' & _).
        exists [report.create_task hook d total]. simpl. rewrite Ht'.
        split; [done|]. split; [done|]. exists hook, d, total, []. simpl.
        split; [done|]. split; [done|]. split; [constructor|lia].
      * exists []. simpl. rewrite Ht. by rewrite app_nil_r.
  - unfold report.count_input. simpl.
    assert (report.lifecycle calls0
              (report.with_n_input self (report._n_input self + 1), calls))
      as Hinv1 by (by eapply lifecycle_ext).
    destruct (report._prog_hook self) as [hook|] eqn:Hh; [|done].
    destruct (lifecycle_ensure_task calls0 _ calls hook Hinv1 Hh)
      as (self' & calls' & Heq & Hinv' & Ht' & Hh' & _).
    simpl in Heq. rewrite Heq. simpl. rewrite Ht'.
    by eapply lifecycle_call.
  - unfold report._set_done. destruct val; simpl; [|done].
    destruct (report._done self) eqn:Hd; [done|].
    destruct Hinv as (new & Hcalls & Hnew). simpl in *.
    destruct (report._prog_hook self) as [hook|] eqn:Hh;
      destruct (report._task self) as [task|] eqn:Ht; simpl.
    + destruct Hnew as (-> & h & d & total & rest & Hh' & -> & Hall & Hcount).
      exists ((report.create_task h d total :: rest)
                ++ [report.hook_end hook (Some (length calls0))]).
      simpl. rewrite Ht, Hh. split; [by rewrite Hcalls, <- app_assoc|].
      split; [done|].
      exists hook, d, total, (rest ++ [report.hook_end hook (Some (length calls0))]).
      split; [done|]. split; [congruence|]. rewrite Hd in Hcount.
      assert (h = hook) as -> by congruence. split.
      * apply Forall_app. split; [done|]. by constructor.
      * rewrite List.filter_app, length_app. simpl. lia.
    + exists new. simpl. by rewrite Ht.
    + destruct Hnew as (_ & h & ? & ? & ? & Hh' & _). congruence.
    + exists new. simpl. by rewrite Ht.
Qed.

Lemma lifecycle_run (calls0 : list report.HookCall) (cs : list report.Call)
    (st : report.Report * list report.HookCall) :
  report.lifecycle calls0 st -> report.lifecycle calls0 (report.run cs st).
Proof.
  revert st. induction cs as [|c cs IH]; intros st Hinv; [done|].
  simpl. apply IH. by apply lifecycle_step.
Qed.

Lemma lifecycle_init (class_name : string) (description : option string)
    (n_expected : option Z) (prog_hook : option report.Hook)
    (calls0 : list report.HookCall) :
  report.lifecycle calls0
    (report.Report_init class_name description n_expected prog_hook calls0).1.
Proof.
  pose proof (lifecycle_step calls0
                ({| report.class_name := class_name;
                    report._description := description;
                    report._n_expected := n_expected; report._n_input := 0;
                    report._done := false; report._task := None;
                    report._prog_hook := None |}, calls0)
                (report.call_set_prog_hook prog_hook)) as H.
  apply H. exists []. simpl. by rewrite app_nil_r.
Qed.

(** X21. Whatever is done with a report after it is built, it creates
    at most one progress task: a report that holds no task has made no
    call on a hook, and a report that holds a task has a hook, and its
    calls are the creation of the task followed by calls of
    [set_total], [advance] and [end] on that hook about that task, with
    at most one [end], and none while the report is not done. *)
Theorem Report_task_lifecycle (class_name : string)
    (description : option string) (n_expected : option Z)
    (prog_hook : option report.Hook) (calls0 : list report.HookCall)
    (cs : list report.Call) :
  let st :=
    report.run cs
      (report.Report_init class_name description n_expected prog_hook calls0).1 in
  exists new,
    st.2 = calls0 ++ new /\
    match report._task st.1 with
    | None => new = []
    | Some task =>
        task = length calls0 /\
        exists hook d total rest,
          report._prog_hook st.1 = Some hook /\
          new = report.create_task hook d total :: rest /\
          Forall (report.on_task hook task) rest /\
          length (List.filter report.is_hook_end rest)
          <= (if report._done st.1 then 1 else 0)
    end.
Proof.
  intros st. apply lifecycle_run, lifecycle_init.
Qed.

(** What [n_expected] and [count_input] do before they call the hook,
    on a report that has one. *)
Lemma ensure_task_fields (self : report.Report) (calls : list report.HookCall)
    (hook : report.Hook) :
  report._prog_hook self = Some hook ->
  exists self' calls',
    match report._task self with
    | None => report._init_task self calls
    | Some _ => (self, calls, report.Returns tt)
    end = (self', calls', report.Returns tt) /\
    report._prog_hook self' = Some hook /\
    report._done self' = report._done self /\
    report._n_input self' = report._n_input self /\
    List.filter report.is_advance calls' = List.filter report.is_advance calls.
Proof.
  intros Hh. destruct (report._task self) as [task|].
  - by exists self, calls.
  - destruct (_init_task_hook self calls hook Hh)
      as (self' & d & total & -> & _ & Hh' & Hd' & Hi' & _).
    eexists _, _. split; [reflexivity|].
    rewrite List.filter_app. simpl. by rewrite app_nil_r.
Qed.

(** What a use of a report leaves as it is or changes in one way: the
    hook once there is one, [done] once it is set, and the number of
    inputs, which only [count_input] changes, raising it by one with
    one call of [advance] when there is a hook. *)
Lemma step_fields (st : report.Report * list report.HookCall) (c : report.Call) :
  let st' := report.step st c in
  (forall hook, report._prog_hook st.1 = Some hook ->
     report._prog_hook st'.1 = Some hook /\
     length (List.filter report.is_advance st'.2)
     = length (List.filter report.is_advance st.2)
       + (if report.is_count_input c then 1 else 0)) /\
  (report._done st.1 = true -> report._done st'.1 = true) /\
  report._n_input st'.1
  = (report._n_input st.1 + (if report.is_count_input c then 1 else 0))%Z.
Proof.
  destruct st as [self calls].
  destruct c as [|val|val|prog_hook| |val]; simpl.
  - pose proof (description_fields self) as (He & Hi & Hd & Ht & Hp & Hs).
    rewrite Hp, Hd, Hi. split; [|split]; [|done|lia].
    intros hook Hh. split; [done|lia].
  - split; [|split]; [|done|lia]. intros hook Hh. split; [done|lia].
  - unfold report.n_expected_set. simpl.
    destruct (report._prog_hook self) as [hook|] eqn:Hh.
    + destruct (ensure_task_fields (report.with_n_expected self (Some val))
                  calls hook Hh) as (self' & calls' & Heq & Hh' & Hd' & Hi' & Ha).
      simpl in Heq. rewrite Heq. simpl. split; [|split].
      * intros h [= <-]. split; [done|].
        rewrite List.filter_app. simpl. rewrite app_nil_r, Ha. lia.
      * by rewrite Hd'.
      * rewrite Hi'. simpl. lia.
    + simpl. split; [|split]; [|done|lia]. intros hook Hh'. congruence.
  - unfold report.set_prog_hook.
    destruct (report._prog_hook self) as [hook|] eqn:Hh.
    + case_bool_decide; simpl; (split; [|split]; [|done|lia]);
        intros h Hh'; (split; [congruence|lia]).
    + split; [intros h Hh'; congruence|].
      destruct prog_hook as [hook|]; [|split; [done|simpl; lia]]. simpl.
      destruct (report._description self).
      * destruct (_init_task_hook (report.with_prog_hook self (Some hook))
                    calls hook eq_refl)
          as (self' & d & total & -> & _ & _ & Hd' & Hi' & _).
        simpl in *. rewrite Hd', Hi'. split; [done|lia].
      * simpl. split; [done|lia].
  - unfold report.count_input. simpl.
    destruct (report._prog_hook self) as [hook|] eqn:Hh.
    + destruct (ensure_task_fields
                  (report.with_n_input self (report._n_input self + 1))
                  calls hook Hh) as (self' & calls' & Heq & Hh' & Hd' & Hi' & Ha).
      simpl in Heq. rewrite Heq. simpl. split; [|split].
      * intros h [= <-]. split; [done|].
        rewrite List.filter_app, length_app. simpl. rewrite Ha. lia.
      * by rewrite Hd'.
      * by rewrite Hi'.
    + simpl. split; [|split]; [|done|lia]. intros hook Hh'. congruence.
  - unfold report._set_done. destruct val; simpl.
    + destruct (report._done self) eqn:Hd; simpl.
      * split; [|split]; [|done|lia]. intros hook Hh. split; [done|lia].
      * destruct (report._prog_hook self) as [hook|] eqn:Hh;
          destruct (report._task self) as [task|]; simpl;
          (split; [|split]; [|done|lia]); intros h Hh'; try congruence;
          (split; [congruence|]); rewrite ?List.filter_app, ?length_app; simpl; lia.
    + split; [|split]; [|done|lia]. intros hook Hh. split; [done|lia].
Qed.

Lemma run_fields (cs : list report.Call)
    (st : report.Report * list report.HookCall) :
  let st' := report.run cs st in
  (forall hook, report._prog_hook st.1 = Some hook ->
     report._prog_hook st'.1 = Some hook /\
     length (List.filter report.is_advance st'.2)
     = length (List.filter report.is_advance st.2)
       + length (List.filter report.is_count_input cs)) /\
  (report._done st.1 = true -> report._done st'.1 = true) /\
  report._n_input st'.1
  = (report._n_input st.1
     + Z.of_nat (length (List.filter report.is_count_input cs)))%Z.
Proof.
  revert st. induction cs as [|c cs IH]; intros st; simpl.
  - split; [|split]; [|done|lia]. intros hook Hh. split; [done|lia].
  - destruct (IH (report.step st c)) as (Hh & Hd & Hi).
    destruct (step_fields st c) as (Hh1 & Hd1 & Hi1).
    split; [|split].
    + intros hook Hhook. destruct (Hh1 hook Hhook) as [Hh2 Ha2].
      destruct (Hh hook Hh2) as [Hh3 Ha3]. split; [done|].
      rewrite Ha3, Ha2. destruct (report.is_count_input c); simpl; lia.
    + auto.
    + rewrite Hi, Hi1. destruct (report.is_count_input c); simpl; lia.
Qed.

(** X22. A report keeps the progress hook it has: whatever is done with
    the report, the hook stays, and [set_prog_hook] with anything else,
    also with [None], fails its assertion and changes nothing. *)
Theorem Report_hook_fixed (self : report.Report)
    (calls : list report.HookCall) (hook : report.Hook) :
  report._prog_hook self = Some hook ->
  (forall cs, report._prog_hook (report.run cs (self, calls)).1 = Some hook) /\
  (forall prog_hook,
     prog_hook <> Some hook ->
     report.set_prog_hook self prog_hook calls
     = (self, calls, report.Raises report.AssertionError)) /\
  report.set_prog_hook self (Some hook) calls = (self, calls, report.Returns tt).
Proof.
  intros Hh. split; [|split].
  - intros cs. destruct (run_fields cs (self, calls)) as (H & _).
    by destruct (H hook Hh).
  - intros prog_hook Hne. unfold report.set_prog_hook. rewrite Hh.
    by rewrite bool_decide_eq_false_2.
  - unfold report.set_prog_hook. rewrite Hh.
    by rewrite bool_decide_eq_true_2.
Qed.

(** X23. [done] is set once and for all: an assignment to [done] that
    returns was of [True] to a report that was not done, and whatever
    is done with the report afterwards, it stays done and every further
    assignment to [done] raises [ValueError] and changes nothing. *)
Theorem Report_done_once (self : report.Report) (val : bool)
    (calls : list report.HookCall) (self' : report.Report)
    (calls' : list report.HookCall) :
  report._set_done self val calls = (self', calls', report.Returns tt) ->
  val = true /\ report._done self = false /\
  forall cs,
    let st := report.run cs (self', calls') in
    report._done st.1 = true /\
    forall v,
      report._set_done st.1 v st.2 = (st.1, st.2, report.Raises report.ValueError).
Proof.
  intros Heq. unfold report._set_done in Heq.
  destruct val; simpl in Heq; [|done].
  destruct (report._done self) eqn:Hd; [done|].
  split; [done|]. split; [done|]. intros cs st.
  assert (report._done self' = true) as Hd'.
  { destruct (report._prog_hook self); destruct (report._task self);
      simpl in Heq; by injection Heq as <- _. }
  destruct (run_fields cs (self', calls')) as (_ & Hdone & _).
  specialize (Hdone Hd'). fold st in Hdone. split; [done|].
  intros v. unfold report._set_done. rewrite Hdone. by destruct v.
Qed.

(** X24. The number of inputs of a report is the number of times
    [count_input] was called on it, whatever else was done with it in
    between; when the report was built with a progress hook, it is also
    the number of [advance] calls made on the hook since. *)
Theorem Report_n_input_counts (class_name : string)
    (description : option string) (n_expected : option Z)
    (prog_hook : option report.Hook) (calls0 : list report.HookCall)
    (cs : list report.Call) :
  let st :=
    report.run cs
      (report.Report_init class_name description n_expected prog_hook calls0).1 in
  let n := length (List.filter report.is_count_input cs) in
  report._n_input st.1 = Z.of_nat n /\
  (is_Some prog_hook ->
   length (List.filter report.is_advance st.2)
   = length (List.filter report.is_advance calls0) + n).
Proof.
  intros st n.
  pose proof (step_fields
                ({| report.class_name := class_name;
                    report._description := description;
                    report._n_expected := n_expected; report._n_input := 0;
                    report._done := false; report._task := None;
                    report._prog_hook := None |}, calls0)
                (report.call_set_prog_hook prog_hook)) as (_ & _ & Hi0).
  simpl in Hi0.
  change (report.set_prog_hook _ prog_hook calls0)
    with (report.Report_init class_name description n_expected prog_hook calls0)
    in Hi0.
  destruct (run_fields cs
              (report.Report_init class_name description n_expected
                 prog_hook calls0).1) as (Hh & _ & Hi).
  fold st in Hh, Hi. fold n in Hh, Hi. split; [lia|].
  intros [hook ->].
  assert (report._prog_hook
            (report.Report_init class_name description n_expected
               (Some hook) calls0).1.1 = Some hook /\
          List.filter report.is_advance
            (report.Report_init class_name description n_expected
               (Some hook) calls0).1.2
          = List.filter report.is_advance calls0) as [Hh0 Ha0].
  { unfold report.Report_init, report.set_prog_hook. simpl.
    destruct description as [d|]; [|done].
    match goal with
    | |- context [report._init_task ?s calls0] =>
        destruct (_init_task_hook s calls0 hook eq_refl)
          as (self' & d' & total & -> & _ & Hh' & _)
    end.
    simpl. split; [done|]. rewrite List.filter_app. simpl. by rewrite app_nil_r. }
  destruct (Hh hook Hh0) as [_ Ha]. by rewrite Ha, Ha0.
Qed.

(** ** Multi-reports *)

(** A sum of ones over the elements that pass a test is the number of
    those elements. *)
Lemma foldl_count {A : Type} (p : A -> bool) (l : list A) (z : Z) :
  foldl (fun total r => if p r then total + 1 else total)%Z z l
  = (z + Z.of_nat (length (List.filter p l)))%Z.
Proof.
  revert z. induction l as [|x l IH]; intros z; simpl; [lia|].
  rewrite IH. destruct (p x); simpl; lia.
Qed.

Lemma filter_length_zero {A : Type} (p : A -> bool) (l : list A) :
  length (List.filter p l) = 0 <-> forall x, x ∈ l -> p x = false.
Proof.
  induction l as [|x l IH]; simpl.
  - split; [by intros _ x Hx%elem_of_nil|done].
  - destruct (p x) eqn:Hp; simpl.
    + split; [done|]. intros H. specialize (H x (list_elem_of_here _ _)).
      congruence.
    + rewrite IH. split.
      * intros H y [->|Hy]%elem_of_cons; auto.
      * intros H y Hy. apply H. by constructor.
Qed.

Lemma filter_length_all {A : Type} (p : A -> bool) (l : list A) :
  length (List.filter p l) = length l <-> forall x, x ∈ l -> p x = true.
Proof.
  induction l as [|x l IH]; simpl.
  - split; [by intros _ x Hx%elem_of_nil|done].
  - pose proof (List.filter_length_le p l) as Hle.
    destruct (p x) eqn:Hp; simpl.
    + split.
      * intros H y [->|Hy]%elem_of_cons; [done|]. apply IH; [lia|done].
      * intros H. f_equal. apply IH. intros y Hy. apply H. by constructor.
    + split; [lia|]. intros H. specialize (H x (list_elem_of_here _ _)).
      congruence.
Qed.

Section MultiReportProperties.
Context {R E : Type} `{!report.ReportOps R E}.

(** X25. A multi-report is all-success exactly when none of its
    sub-reports has a warning or an error.  Its count of successes is
    the number of sub-reports that are all-success by their own
    account, so where the sub-reports take [all_success] from [Report]
    and count no negative number of warnings or errors, the
    multi-report is all-success exactly when it counts every one of
    them as a success. *)
Theorem MultiReport_all_success_iff (reports : list R) :
  (report.MultiReport_all_success reports = true
   <-> forall r, r ∈ reports ->
         report.n_warnings r = 0%Z /\ report.n_errors r = 0%Z) /\
  report.MultiReport_n_success reports
  = Z.of_nat (length (List.filter report.all_success reports)) /\
  ((forall r, r ∈ reports ->
      report.all_success r
      = (report.n_errors r + report.n_warnings r =? 0)%Z /\
      (0 <= report.n_errors r)%Z /\ (0 <= report.n_warnings r)%Z) ->
   (report.MultiReport_all_success reports = true
    <-> report.MultiReport_n_success reports = Z.of_nat (length reports))).
Proof.
  assert (report.MultiReport_all_success reports = true
          <-> forall r, r ∈ reports ->
                report.n_warnings r = 0%Z /\ report.n_errors r = 0%Z) as Hall.
  { unfold report.MultiReport_all_success, report.MultiReport_n_errors,
      report.MultiReport_n_warnings.
    rewrite (foldl_count (fun r => bool_decide (report.n_errors r <> 0%Z))).
    rewrite (foldl_count (fun r => bool_decide (report.n_warnings r <> 0%Z))).
    rewrite Z.eqb_eq. split.
    - intros Hx r Hr.
      assert (length (List.filter
                (fun r => bool_decide (report.n_errors r <> 0%Z)) reports) = 0)
        as He by lia.
      assert (length (List.filter
                (fun r => bool_decide (report.n_warnings r <> 0%Z)) reports) = 0)
        as Hw by lia.
      rewrite filter_length_zero in He, Hw.
      specialize (He r Hr). specialize (Hw r Hr). simpl in *.
      apply bool_decide_eq_false in He, Hw. split.
      + by destruct (decide (report.n_warnings r = 0%Z)).
      + by destruct (decide (report.n_errors r = 0%Z)).
    - intros Hx.
      assert (length (List.filter
                (fun r => bool_decide (report.n_errors r <> 0%Z)) reports) = 0)
        as ->.
      { apply filter_length_zero. intros r Hr. apply bool_decide_eq_false.
        destruct (Hx r Hr) as [_ ->]. by intros ?. }
      assert (length (List.filter
                (fun r => bool_decide (report.n_warnings r <> 0%Z)) reports) = 0)
        as ->.
      { apply filter_length_zero. intros r Hr. apply bool_decide_eq_false.
        destruct (Hx r Hr) as [-> _]. by intros ?. }
      done. }
  assert (report.MultiReport_n_success reports
          = Z.of_nat (length (List.filter report.all_success reports))) as Hn.
  { unfold report.MultiReport_n_success. rewrite foldl_count. lia. }
  split; [done|]. split; [done|]. intros Hsub.
  rewrite Hall, Hn, Nat2Z.inj_iff, filter_length_all. split.
  - intros Hx r Hr. destruct (Hsub r Hr) as (-> & _). destruct (Hx r Hr) as [-> ->].
    done.
  - intros Hx r Hr. destruct (Hsub r Hr) as (Hs & He & Hw).
    rewrite (Hx r Hr) in Hs. symmetry in Hs. apply Z.eqb_eq in Hs. lia.
Qed.

Lemma check_errors_fold (sub_reports : list R) (errors : list E) :
  foldl (fun errors sub_report =>
           match report.check_errors sub_report with
           | Some e => errors ++ [e]
           | None => errors
           end) errors sub_reports
  = errors ++ omap report.check_errors sub_reports.
Proof.
  revert errors. induction sub_reports as [|r l IH]; intros errors; simpl.
  - by rewrite app_nil_r.
  - rewrite IH. destruct (report.check_errors r); [|done].
    by rewrite <- app_assoc.
Qed.

(** X26. [MultiListReport.check_errors] returns exactly when
    [check_errors] returns on every sub-report.  Otherwise it raises a
    [MultiError] that carries the exception of each sub-report that
    raised, in the order of the sub-reports: one failing sub-report
    does not hide the failures of those after it. *)
Theorem MultiListReport_check_errors_all (self : report.MultiListReport) :
  let errors := omap report.check_errors (report.list_sub_reports self) in
  report.MultiListReport_check_errors self
  = (if bool_decide (errors = []) then None else Some errors) /\
  (errors = []
   <-> forall r, r ∈ report.list_sub_reports self -> report.check_errors r = None).
Proof.
  intros errors. unfold report.MultiListReport_check_errors.
  rewrite check_errors_fold. simpl. fold errors. split.
  - destruct errors; [done|]. rewrite bool_decide_eq_true_2 by done.
    by rewrite bool_decide_eq_false_2.
  - unfold errors. clear errors.
    induction (report.list_sub_reports self) as [|r l IH]; simpl.
    + split; [by intros _ r Hr%elem_of_nil|done].
    + destruct (report.check_errors r) eqn:Hr.
      * split; [done|]. intros Hx. specialize (Hx r (list_elem_of_here _ _)).
        congruence.
      * rewrite IH. split.
        -- intros Hx y [->|Hy]%elem_of_cons; auto.
        -- intros Hx y Hy. apply Hx. by constructor.
Qed.

End MultiReportProperties.

(** [count_input] always returns, having raised the number of inputs
    by one. *)
Lemma count_input_returns (self : report.Report) (calls : list report.HookCall) :
  exists self' calls',
    report.count_input self calls = (self', calls', report.Returns tt) /\
    report._n_input self' = (report._n_input self + 1)%Z /\
    report._prog_hook self' = report._prog_hook self.
Proof.
  unfold report.count_input. simpl.
  destruct (report._prog_hook self) as [hook|] eqn:Hh.
  - destruct (ensure_task_fields
                (report.with_n_input self (report._n_input self + 1))
                calls hook Hh) as (self' & calls' & Heq & Hh' & Hd' & Hi' & Ha).
    simpl in Heq. rewrite Heq. eexists _, _. split; [reflexivity|]. by split.
  - eexists _, _. split; [reflexivity|]. by split.
Qed.

(** [set_prog_hook] on a report without a hook, or with the hook it is
    given, returns, and leaves the report with that hook. *)
Lemma set_prog_hook_returns (self : report.Report)
    (prog_hook : option report.Hook) (calls : list report.HookCall) :
  report._prog_hook self = None \/ report._prog_hook self = prog_hook ->
  exists self' calls',
    report.set_prog_hook self prog_hook calls
    = (self', calls', report.Returns tt) /\
    report._prog_hook self' = prog_hook.
Proof.
  intros Hcase. unfold report.set_prog_hook.
  destruct (report._prog_hook self) as [hook|] eqn:Hh.
  - destruct Hcase as [|<-]; [done|]. rewrite bool_decide_eq_true_2 by done.
    by eexists _, _.
  - destruct prog_hook as [hook|]; [|by eexists _, _]. simpl.
    destruct (report._description self).
    + destruct (_init_task_hook (report.with_prog_hook self (Some hook))
                  calls hook eq_refl)
        as (self' & d & total & -> & _ & Hh' & _).
      by eexists _, _.
    + by eexists _, _.
Qed.

Section MultiListProperties.
Context {R E : Type} `{!report.ReportOps R E}.

Lemma clear_loop_spec (sub_reports incomplete : list R) :
  let out := report.clear_loop sub_reports incomplete in
  length out.1.1 = length sub_reports /\
  (out.2 = None ->
   out.1.2
   = incomplete
     ++ ((fun r => (report.clear r).1)
           <$> List.filter (fun r => negb (report._done (report.Report_of r)))
                 sub_reports)).
Proof.
  revert incomplete. induction sub_reports as [|r l IH]; intros incomplete; simpl.
  - split; [done|]. by rewrite app_nil_r.
  - destruct (report._done (report.Report_of r)); simpl.
    + specialize (IH incomplete).
      destruct (report.clear_loop l incomplete) as [[l' inc] e]. simpl in *.
      destruct IH as [Hlen Hinc]. split; [by rewrite Hlen|done].
    + destruct (report.clear r) as [r' [e|]] eqn:Hr; simpl; [done|].
      specialize (IH (incomplete ++ [r'])).
      destruct (report.clear_loop l (incomplete ++ [r'])) as [[l' inc] e].
      simpl in *. destruct IH as [Hlen Hinc]. split; [by rewrite Hlen|].
      intros He. rewrite (Hinc He). by rewrite <- app_assoc.
Qed.

(** X27. When [MultiListReport.clear] returns, the multi-report holds
    the sub-reports that were not done, cleared and in their order, its
    number of inputs is their number, and a known number of expected
    inputs has gone down by the number of sub-reports dropped.  When
    the [clear] of a sub-report raises, the multi-report keeps the
    number of its sub-reports and its own fields. *)
Theorem MultiListReport_clear_counts (self : report.MultiListReport) :
  let out := report.MultiListReport_clear self in
  let sub_reports := report.list_sub_reports self in
  let pending :=
    List.filter (fun r => negb (report._done (report.Report_of r))) sub_reports in
  match out.2 with
  | None =>
      report.list_sub_reports out.1 = (fun r => (report.clear r).1) <$> pending /\
      report._n_input (report.list_report out.1) = Z.of_nat (length pending) /\
      report._n_expected (report.list_report out.1)
      = (fun n => n - (Z.of_nat (length sub_reports) - Z.of_nat (length pending)))%Z
          <$> report._n_expected (report.list_report self) /\
      report._done (report.list_report out.1)
      = report._done (report.list_report self)
  | Some _ =>
      report.list_report out.1 = report.list_report self /\
      length (report.list_sub_reports out.1) = length sub_reports
  end.
Proof.
  intros out sub_reports pending. unfold out, report.MultiListReport_clear.
  pose proof (clear_loop_spec sub_reports []) as [Hlen Hinc].
  fold sub_reports.
  destruct (report.clear_loop sub_reports []) as [[l' inc] [e|]]; simpl in *;
    [done|].
  rewrite (Hinc eq_refl). fold pending. rewrite !length_fmap, Hlen.
  destruct (report._n_expected (report.list_report self)) eqn:Hn; simpl;
    rewrite ?Hn; done.
Qed.

(** X28. [MultiDictReport.__setitem__] never replaces a sub-report:
    with a key the multi-report has it raises [ValueError] and changes
    nothing, and whatever its outcome every key the multi-report had
    still gives the sub-report it gave.  When it returns, the key is
    new, is the last of the keys, and gives a sub-report; keys that
    were distinct stay distinct. *)
Theorem MultiDictReport_setitem_keeps {K : Type} `{EqDecision K}
    (self : report.MultiDictReport R K) (key : K) (val : R)
    (calls : list report.HookCall) :
  let out := report.MultiDictReport_setitem self key val calls in
  let keys := fun d : report.MultiDictReport R K => (report.dict_sub_reports d).*1 in
  (key ∈ keys self -> out = (self, calls, report.Raises report.ValueError)) /\
  (forall k, k ∈ keys self ->
     report.MultiDictReport_getitem out.1.1 k
     = report.MultiDictReport_getitem self k) /\
  (NoDup (keys self) -> NoDup (keys out.1.1)) /\
  (out.2 = report.Returns tt ->
   (key ∉ keys self) /\ keys out.1.1 = keys self ++ [key] /\
   is_Some (report.MultiDictReport_getitem out.1.1 key)).
Proof.
  intros out keys. unfold out, report.MultiDictReport_setitem,
    report.MultiDictReport_contains. fold (keys self).
  case_bool_decide as Hkey; simpl.
  { split; [done|]. split; [done|]. split; [done|]. done. }
  split; [done|].
  destruct (report.set_prog_hook _ _ calls) as [[b calls1] [[]|e]]; simpl;
    [|split; [done|]; split; [done|]; done].
  destruct (count_input_returns (report.dict_report self) calls1)
    as (self' & calls2 & -> & _). simpl.
  assert (find_app : forall (l : list (K * R)) k kv,
            k ∈ l.*1 ->
            List.find (fun kv => bool_decide (kv.1 = k)) (l ++ [kv])
            = List.find (fun kv => bool_decide (kv.1 = k)) l).
  { intros l k kv. induction l as [|[k0 r0] l IH]; simpl.
    - by intros ?%elem_of_nil.
    - case_bool_decide; [done|]. intros [->|Hin]%elem_of_cons; [done|].
      by apply IH. }
  split; [|split; [|intros _; split; [done|split]]].
  - intros k Hk. unfold report.MultiDictReport_getitem. simpl.
    by rewrite find_app.
  - intros Hnd. unfold keys. simpl. rewrite fmap_app. simpl.
    apply NoDup_app. split; [done|]. split; [|apply NoDup_singleton].
    intros k Hk Hk2. apply list_elem_of_singleton in Hk2 as ->. done.
  - unfold keys. simpl. by rewrite fmap_app.
  - unfold report.MultiDictReport_getitem. simpl.
    induction (report.dict_sub_reports self) as [|[k0 r0] l IH]; simpl.
    + rewrite bool_decide_eq_true_2 by done. by eexists.
    + case_bool_decide; [by eexists|]. apply IH.
Qed.

Context `{!report.ReportLaws R E}.

(** X29. [MultiListReport.append] fails its assertion, and changes
    nothing, exactly when the report it is given has a progress hook
    other than the multi-report's: so also when the multi-report has
    none.  Otherwise it returns, the report is the last sub-report and
    has the hook of the multi-report, and the number of inputs of the
    multi-report has gone up by one. *)
Theorem MultiListReport_append_outcome (self : report.MultiListReport)
    (val : R) (calls : list report.HookCall) :
  let hook := report._prog_hook (report.list_report self) in
  let out := report.MultiListReport_append self val calls in
  (forall h,
     report._prog_hook (report.Report_of val) = Some h -> hook <> Some h ->
     out = (self, val, calls, report.Raises report.AssertionError)) /\
  (report._prog_hook (report.Report_of val) = None
   \/ report._prog_hook (report.Report_of val) = hook ->
   out.2 = report.Returns tt /\
   report.list_sub_reports out.1.1.1
   = report.list_sub_reports self ++ [out.1.1.2] /\
   report._prog_hook (report.Report_of out.1.1.2) = hook /\
   report._n_input (report.list_report out.1.1.1)
   = (report._n_input (report.list_report self) + 1)%Z).
Proof.
  intros hook out. unfold out, report.MultiListReport_append. fold hook. split.
  - intros h Hh Hne. unfold report.set_prog_hook. rewrite Hh.
    rewrite bool_decide_eq_false_2 by done.
    by rewrite report.with_Report_Report_of.
  - intros Hcase.
    destruct (set_prog_hook_returns (report.Report_of val) hook calls Hcase)
      as (b & calls1 & -> & Hb).
    destruct (count_input_returns (report.list_report self) calls1)
      as (self' & calls2 & -> & Hi & _).
    simpl. by rewrite report.Report_of_with_Report.
Qed.

End MultiListProperties.

(** ** The properties on explicit data *)

(** The example store satisfies the contract of attribute access. *)
Lemma Store_getattr_delattr (ds : Store.Dataset) (a b : string) :
  Store.getattr (Store.delattr ds a) b
  = if bool_decide (a = b) then None else Store.getattr ds b.
Proof.
  induction ds as [|[k v] ds IH]; simpl.
  - by case_bool_decide.
  - destruct (decide (k = a)) as [->|Hk].
    + rewrite bool_decide_eq_true_2 by done. simpl. rewrite IH.
      by repeat case_bool_decide.
    + rewrite bool_decide_eq_false_2 by done. simpl. rewrite IH.
      repeat case_bool_decide; congruence.
Qed.

Lemma Store_getattr_fmap (ds : Store.Dataset) (a v b : string) :
  is_Some (Store.getattr
             ((fun e : string * string =>
                 if bool_decide (e.1 = a) then (a, v) else e) <$> ds) b)
  <-> is_Some (Store.getattr ds b).
Proof.
  induction ds as [|[k w] ds IH]; simpl; [done|].
  destruct (decide (k = a)) as [->|Hk].
  - rewrite bool_decide_eq_true_2 by done. simpl.
    case_bool_decide; [by split; eauto|done].
  - rewrite bool_decide_eq_false_2 by done. simpl.
    case_bool_decide; [by split; eauto|done].
Qed.

Lemma Store_pydicom_laws : PydicomLaws Store.Dataset string.
Proof.
  split.
  - intros ds a b. simpl. unfold Store.hasattr.
    rewrite Store_getattr_delattr. destruct (decide (a = b)) as [Hab|Hab].
    + rewrite (bool_decide_eq_true_2 (a = b)) by done. simpl.
      by rewrite andb_false_r.
    + rewrite (bool_decide_eq_false_2 (a = b)) by done. simpl.
      by rewrite andb_true_r.
  - intros ds a v b. simpl. unfold Store.setattr. intros ->.
    unfold Store.hasattr. apply bool_decide_ext, Store_getattr_fmap.
Qed.

Lemma Tally_laws : report.ReportLaws Tally.Tally string.
Proof. split; [done|]. by intros []. Qed.

(** X3 on explicit data: over the chain of [remap], [reparent] and
    [keep], asking for the patient identifier besides the instance
    identifier selects at least the filters and reads that the
    instance identifier alone does. *)
Lemma MultiFilter_get_dependencies_monotone_witness :
  let fs := [Store.remap; Store.reparent; Store.keep] in
  let small :=
    MultiFilter_get_dependencies (MultiFilter_init fs)
      (Elems {["SOPInstanceUID"]}) in
  let large :=
    MultiFilter_get_dependencies (MultiFilter_init fs)
      (Elems {["SOPInstanceUID"; "PatientID"]}) in
  small.1 `sublist_of` large.1 /\ (forall x, x ∈ small.2 -> x ∈ large.2).
Proof.
  intros fs small large.
  destruct (MultiFilter_get_dependencies_monotone fs
              (Elems {["SOPInstanceUID"]})
              (Elems {["SOPInstanceUID"; "PatientID"]})) as (H1 & H2 & _).
  - intros x. unfold elem_of, LazySet_elem_of. simpl. set_solver.
  - by split.
Defined.

(** X4 on explicit data: [keep] writes the patient name only, so a
    request for the instance identifier selects nothing. *)
Lemma MultiFilter_get_dependencies_nothing_witness :
  MultiFilter_get_dependencies (MultiFilter_init [Store.keep])
    (Elems {["SOPInstanceUID"]}) = ([], ∅).
Proof.
  apply MultiFilter_get_dependencies_nothing.
  intros f x Hf Hx. rewrite MultiFilter_init_filters in Hf.
  apply list_elem_of_singleton in Hf as ->.
  intros Hw. unfold elem_of, LazySet_elem_of in Hx. simpl in Hx.
  apply elem_of_singleton in Hx as ->. vm_compute in Hw. discriminate.
Defined.

(** X7 on explicit data: merging a new image into the example engine. *)
Lemma _add_new_records_levels_witness :
  let out := _add_new Store.engine Store.img2 Store.fresh_new in
  old out.1 = old Store.engine /\
  fully_invertible out.1 = fully_invertible Store.engine /\
  _new_to_old out.1 IMAGE
  = <[ "9.I7" := "I2" ]> (_new_to_old Store.engine IMAGE).
Proof.
  assert (match (_add_new Store.engine Store.img2 Store.fresh_new).2 with
          | Ok (Some _) => True
          | _ => False
          end) as Hflag by (vm_compute; exact I).
  assert (level (old Store.engine) = IMAGE) as Hlvl by (vm_compute; reflexivity).
  destruct (_add_new Store.engine Store.img2 Store.fresh_new)
    as [self' [[u|]|e]] eqn:Hout; try done.
  destruct (_add_new_records_levels _ _ _ _ _ Hout)
    as (_ & _ & Ho & _ & _ & Hf & Hm).
  simpl. split; [done|]. split; [done|].
  destruct (Hm IMAGE) as [Hmi _]. rewrite Hlvl in Hmi.
  by rewrite Hmi.
Defined.

(** X10 on explicit data: the example engine, whose filter has an
    invertible identifier, reverses a study-level subset. *)
Lemma reverse_other_level_no_fixed_witness :
  match reverse Store.engine (Store.collection STUDY [Store.new1]) with
  | Ok b => inconsistent b = [] /\ duplicate b = []
  | Raise _ => False
  end.
Proof.
  assert (if reverse Store.engine (Store.collection STUDY [Store.new1])
          is Ok _ then True else False) as Hflag by (vm_compute; exact I).
  destruct (reverse Store.engine (Store.collection STUDY [Store.new1]))
    as [b|e] eqn:Hrev; [|done].
  assert (level (Store.collection STUDY [Store.new1]) <> level (new Store.engine))
    as Hne by (vm_compute; discriminate).
  apply (reverse_other_level_no_fixed _ _ _ Hne Hrev).
Defined.

(** X11 on explicit data: the example engine reverses the subset that
    holds its one new record. *)
Lemma reverse_returns_checked_witness :
  match reverse Store.engine (Store.collection IMAGE [Store.new1]) with
  | Ok b =>
      (length (inconsistent b) + length (duplicate b) <= 1)%nat /\
      QueryResult_contains Store.new1 (new Store.engine) = Ok true
  | Raise _ => False
  end.
Proof.
  assert (if reverse Store.engine (Store.collection IMAGE [Store.new1])
          is Ok _ then True else False) as Hflag by (vm_compute; exact I).
  destruct (reverse Store.engine (Store.collection IMAGE [Store.new1]))
    as [b|e] eqn:Hrev; [|done].
  destruct (reverse_returns_checked _ _ _ Hrev) as (Hmem & Hlen & _).
  split; [exact Hlen|]. apply (Hmem Store.new1). simpl. constructor.
Defined.


(** X13 on explicit data: the identity engine over [img1] takes [img2]
    once. *)
Lemma DummyTransform_add_once_witness :
  let out := DummyTransform_add (DummyTransform_init Store.source) Store.img2 in
  DummyTransform_add out.1 Store.img2 = (out.1, Raise DuplicateDataError).
Proof.
  intros out.
  destruct (@DummyTransform_add_once _ _ _ Store_laws
              (DummyTransform_init Store.source) Store.img2) as [_ Hx].
  apply Hx. vm_compute. reflexivity.
Defined.

(** X15 on explicit data: an edit that deletes the patient identifier
    and names the patient leaves an image with its other identifiers
    and without a patient name. *)
Lemma edit_func_attributes_witness :
  exists ds',
    edit_func [("PatientID", None); ("PatientName", Some "Anon")] false
      (fun e => e) Store.img1 = Some ds' /\
    Dataset_hasattr ds' "SOPInstanceUID" = true /\
    Dataset_hasattr ds' "PatientID" <> true /\
    Dataset_hasattr ds' "PatientName" <> true.
Proof.
  destruct (@edit_func_attributes _ _ _ Store_pydicom_laws
              [("PatientID", None); ("PatientName", Some "Anon")]
              (fun e => e) Store.img1) as (ds' & Heq & Hattr).
  exists ds'. split; [exact Heq|]. split; [|split].
  - apply Hattr. split; [vm_compute; reflexivity|].
    intros Hin. apply elem_of_cons in Hin as [Hin|Hin]; [discriminate|].
    apply elem_of_cons in Hin as [Hin|Hin]; [discriminate|].
    by apply elem_of_nil in Hin.
  - intros Hid. apply Hattr in Hid as [_ Hid]. apply Hid. constructor.
  - intros Hname. apply Hattr in Hname as [Hname _]. vm_compute in Hname.
    discriminate.
Defined.

(** X18 and X19 on explicit data: three files in chunks of two, and
    with a chunk size of zero. *)
Lemma _dir_crawl_worker_chunk_sizes_witness :
  exists full last,
    local_dir._dir_crawl_worker (fun _ _ => ["a"; "b"; "c"]) (fun _ => true)
      [] "root" true "dcm" 2 None = [] ++ full ++ last /\
    Forall (fun c => Z.of_nat (length c) = 2%Z) full /\
    (last = [] \/
     exists c, last = [c] /\ (0 < Z.of_nat (length c) < 2)%Z).
Proof.
  apply (_dir_crawl_worker_chunk_sizes (fun _ _ => ["a"; "b"; "c"])
           (fun _ => true) [] "root" true "dcm" 2 None).
  lia.
Defined.

Lemma _dir_crawl_worker_unbounded_witness :
  local_dir._dir_crawl_worker (fun _ _ => ["a"; "b"; "c"])
    (fun p => bool_decide (p <> "b")) [] "root" true "dcm" 0 None
  = [["a"; "c"]].
Proof.
  rewrite (_dir_crawl_worker_unbounded (fun _ _ => ["a"; "b"; "c"])
             (fun p => bool_decide (p <> "b")) [] "root" true "dcm" 0 None)
    by lia.
  reflexivity.
Defined.

(** X20 on explicit data: the format [a/b] on a data set whose value
    holds a slash still gives a path of two components. *)
Lemma make_out_path_components_witness :
  exists p,
    local_dir.make_out_path (fun t (ds : list N) => Some (t ++ ds)) [47%N]
      [97; 47; 98]%N [47; 33]%N = Some p /\
    length (local_dir.split 47 p) = 2.
Proof.
  eexists. split; [reflexivity|].
  destruct (make_out_path_components
              (fun t (ds : list N) => Some (t ++ ds)) [47%N]
              [97; 47; 98]%N [47; 33]%N _ eq_refl) as [_ Hx].
  specialize (Hx eq_refl). apply Forall2_length in Hx. rewrite <- Hx.
  reflexivity.
Defined.

(** X22 and X23 on explicit data: a report built with a hook, and a
    report marked done. *)
Lemma Report_hook_fixed_witness :
  report.set_prog_hook Tally.hooked None []
  = (Tally.hooked, [], report.Raises report.AssertionError) /\
  report._prog_hook
    (report.run [report.call_count_input; report.set_done true]
       (Tally.hooked, [])).1 = Some 0.
Proof.
  destruct (Report_hook_fixed Tally.hooked [] 0 eq_refl) as (Hrun & Hne & _).
  split; [by apply Hne|apply Hrun].
Defined.

Lemma Report_done_once_witness :
  report._set_done Tally.finished true []
  = (Tally.finished, [], report.Raises report.ValueError).
Proof.
  destruct (Report_done_once Tally.plain true [] Tally.finished [] eq_refl)
    as (_ & _ & Hx).
  destruct (Hx []) as [_ Hv]. apply Hv.
Defined.

(** X29 on explicit data: a multi-report without a hook refuses a
    report that has one, and takes one that has none. *)
Lemma MultiListReport_append_outcome_witness :
  report.MultiListReport_append Tally.batch Tally.watched []
  = (Tally.batch, Tally.watched, [], report.Raises report.AssertionError) /\
  (report.MultiListReport_append Tally.batch Tally.clean []).2
  = report.Returns tt.
Proof.
  destruct (@MultiListReport_append_outcome _ _ _ Tally_laws
              Tally.batch Tally.watched []) as [Hx _].
  destruct (@MultiListReport_append_outcome _ _ _ Tally_laws
              Tally.batch Tally.clean []) as [_ Hy].
  split.
  - apply (Hx 0); [reflexivity|discriminate].
  - apply Hy. by left.
Defined.
